(** * pocketmon: the sampling-and-reporting agent of [collector.go]

    A shallow embedding of [src/collector.go] and the properties of its
    specification.  Go functions become Rocq functions of the same name.
    Everything outside the program (the clock, the operating system, the
    HTTP peers, and the text-level JSON reader of [encoding/json]) is a
    [World] that answers each call; a function of the program returns the
    list of calls it made together with its result, or the panic that
    ended it. *)

From Stdlib Require Import ZArith QArith Qpower String Ascii List Lia Bool.
From Stdlib Require Import Floats.SpecFloat.
From Stdlib Require Import DecimalString DecimalPos.
From stdpp Require Import base option list gmap strings.

#[local] Open Scope Z_scope.
#[local] Set Warnings "-register-all".

(** ** Go data *)

(** [float64]: IEEE 754 binary64 as described by the Standard Library's
    [spec_float], precision 53 and exponent bound 1024. *)
Definition float64 : Type := spec_float.
Definition prec64 : Z := 53.
Definition emax64 : Z := 1024.

(** Conversion [float64(n)] of an integer: round to nearest, ties to even. *)
Definition float64_of_Z (n : Z) : float64 := binary_normalize prec64 emax64 n 0 false.
Definition f64_mul : float64 → float64 → float64 := SFmul prec64 emax64.
Definition f64_div : float64 → float64 → float64 := SFdiv prec64 emax64.

Definition is_finite64 (f : float64) : bool :=
  match f with
  | S754_zero _ | S754_finite _ _ _ => true
  | S754_infinity _ | S754_nan => false
  end.

(** Unsigned and signed 64-bit ranges. *)
Definition uint64_max : Z := 2 ^ 64 - 1.
Definition int64_min : Z := - 2 ^ 63.
Definition int64_max : Z := 2 ^ 63 - 1.

(** [fmt]'s %d and [strconv.Itoa]: the decimal numeral of an integer. *)
Definition itoa (z : Z) : string := NilZero.string_of_int (Z.to_int z).

(** Go [error] values.  [errors.New] builds an [errorString]; [strconv]
    reports a [NumError]; the errors of [net/http], [encoding/json] and
    gopsutil are opaque to the program and kept by origin and text. *)
Inductive num_err := ErrSyntax | ErrRange.

Inductive error :=
  | errorString (msg : string)
  | NumError (func num : string) (err : num_err)
  | LibError (origin msg : string).

(** What a Go run-time panic carries, as far as this program can raise one. *)
Inductive panic_value :=
  | TypeAssertionFailed (wanted : string)
  | IndexOutOfRange (index len : Z)
  | NilDereference.

(** *** JSON documents

    A JSON document as a tree.  A number token is kept by the Go value
    [strconv] wrote it for: [NInt z] is the decimal numeral of the integer
    [z]; [NFloat f] is the token written for the [float64] [f], that is
    the shortest numeral that [strconv.ParseFloat] reads back as [f]. *)
Inductive number := NInt (z : Z) | NFloat (f : float64).

Inductive json :=
  | JNull
  | JBool (b : bool)
  | JNumber (n : number)
  | JString (s : string)
  | JArray (l : list json)
  | JObject (kvs : list (string * json)).

(** *** [interface{}] values, as [encoding/json] decodes into them *)
Inductive value :=
  | VNil
  | VBool (b : bool)
  | VFloat (f : float64)
  | VString (s : string)
  | VSlice (l : list value)
  | VMap (m : gmap string value).

(** The [float64] a number token decodes to; a token beyond the range of
    [float64] is a decoding error. *)
Definition number_to_float64 (n : number) : option float64 :=
  let f := match n with NInt z => float64_of_Z z | NFloat f => f end in
  if is_finite64 f then Some f else None.

(** Decoding a document into an [interface{}]: objects become
    [map[string]interface{}] (a repeated key keeps its last value), arrays
    become [[]interface{}], numbers become [float64]. *)
Fixpoint to_interface (j : json) : option value :=
  match j with
  | JNull => Some VNil
  | JBool b => Some (VBool b)
  | JNumber n => VFloat <$> number_to_float64 n
  | JString s => Some (VString s)
  | JArray l =>
      VSlice <$> (fix go (l : list json) : option (list value) :=
        match l with
        | [] => Some []
        | j :: l => v ← to_interface j; vs ← go l; Some (v :: vs)
        end) l
  | JObject kvs =>
      VMap <$> (fix go (kvs : list (string * json)) (m : gmap string value)
                  : option (gmap string value) :=
        match kvs with
        | [] => Some m
        | (k, j) :: kvs => v ← to_interface j; go kvs (<[k := v]> m)
        end) kvs ∅
  end.

(** [Decode(&result)] with [result] a [map[string]interface{}]: an object
    fills the map, [null] leaves it nil (a nil map reads as empty), any
    other document is a type error. *)
Definition decode_map (j : json) : gmap string value + error :=
  match j with
  | JNull => inl ∅
  | JObject _ =>
      match to_interface j with
      | Some (VMap m) => inl m
      | _ => inr (LibError "json" "cannot unmarshal number")
      end
  | _ => inr (LibError "json" "cannot unmarshal into Go value of type map[string]interface {}")
  end.

(** [Decode(&result)] with [result] a [string]. *)
Definition decode_string (j : json) : string + error :=
  match j with
  | JNull => inl ""
  | JString s => inl s
  | _ => inr (LibError "json" "cannot unmarshal into Go value of type string")
  end.

(** Indexing a map: a missing key gives the zero value, nil. *)
Definition index (m : gmap string value) (k : string) : value :=
  match m !! k with
  | Some v => v
  | None => VNil
  end.

(** ** The world *)

(** *** [net/http] *)
Record Request := {
  Method : string;
  URL : string;
  Header : list (string * string);
  ReqBody : option json
}.

(** A response as the program reads it: the status code and the body.  The
    body is there both as the text [ioutil.ReadAll] returns and as the
    document [encoding/json]'s Decoder finds in it ([None] when the text is
    not JSON); reading JSON text is the library's work, so the world
    supplies the two together. *)
Record Response := {
  StatusCode : Z;
  Body : string;
  BodyJSON : option json
}.

Definition Header_Set (k v : string) (r : Request) : Request :=
  {| Method := Method r; URL := URL r;
     Header := Header r ++ [(k, v)]; ReqBody := ReqBody r |}.

(** *** gopsutil, as far as [collectHostStats] reads it *)
Record VirtualMemoryStat := { vm_Total : Z; vm_Available : Z }.
Record UsageStat := { du_Total : Z; du_Free : Z }.
Record InfoStat := { hi_Platform : string; hi_Uptime : Z }.

(** *** [time] *)
Record Time := {
  t_year : Z; t_month : Z; t_day : Z;
  t_hour : Z; t_minute : Z; t_second : Z;
  t_offset : Z  (* seconds east of UTC *)
}.

Record World := {
  w_Now : Time;
  w_GOOS : string;
  w_VirtualMemory : VirtualMemoryStat + error;
  w_DiskUsage : string → UsageStat + error;
  w_CpuPercent : list float64 + error;
  w_HostInfo : InfoStat + error;
  (* does net/url accept this URL (http.NewRequest fails when it does not) *)
  w_URLParses : string → bool;
  (* one round trip of the shared http.Client *)
  w_Do : Request → Response + error
}.

(** ** Strings as [encoding/json] writes them *)

Definition byte_of (c : ascii) : Z := Z.of_N (N_of_ascii c).
Definition in_range (lo hi : Z) (c : ascii) : bool :=
  (lo <=? byte_of c) && (byte_of c <=? hi).

Definition nth_byte (s : string) (n : nat) : option ascii := String.get n s.

(** [utf8.DecodeRuneInString], reduced to what the encoder asks of it: the
    number of bytes of the encoding that starts with the byte [c0] followed
    by [rest], or [None] where Go answers [(RuneError, 1)].  The ranges are
    those of the [first] and [acceptRanges] tables of [unicode/utf8]. *)
Definition rune_size (c0 : ascii) (rest : string) : option nat :=
  let b := byte_of c0 in
  let cont (n : nat) := match nth_byte rest n with
                        | Some c => in_range 0x80 0xBF c
                        | None => false
                        end in
  let second (lo hi : Z) := match nth_byte rest 0 with
                            | Some c => in_range lo hi c
                            | None => false
                            end in
  if b <? 0x80 then Some 1%nat
  else if b <? 0xC2 then None
  else if b <? 0xE0 then (if second 0x80 0xBF then Some 2%nat else None)
  else if b <? 0xF0 then
    let ok := if b =? 0xE0 then second 0xA0 0xBF
              else if b =? 0xED then second 0x80 0x9F
              else second 0x80 0xBF in
    if ok && cont 1%nat then Some 3%nat else None
  else if b <? 0xF5 then
    let ok := if b =? 0xF0 then second 0x90 0xBF
              else if b =? 0xF4 then second 0x80 0x8F
              else second 0x80 0xBF in
    if ok && cont 1%nat && cont 2%nat then Some 4%nat else None
  else None.

(** The encoding of U+FFFD, the replacement character. *)
Definition replacement : string :=
  String (ascii_of_N 0xEF) (String (ascii_of_N 0xBF) (String (ascii_of_N 0xBD) "")).

(** The text a Go string has once it went through the JSON encoder: every
    byte that does not start a well-formed UTF-8 encoding is replaced by
    U+FFFD.  [skip] counts the bytes of the current encoding still to copy. *)
Fixpoint coerce_from (skip : nat) (s : string) : string :=
  match s with
  | EmptyString => EmptyString
  | String c s' =>
      match skip with
      | S k => String c (coerce_from k s')
      | O =>
          match rune_size c s' with
          | Some n => String c (coerce_from (Nat.pred n) s')
          | None => replacement +:+ coerce_from O s'
          end
      end
  end.

Definition toValidUTF8 (s : string) : string := coerce_from 0 s.

(** [utf8.ValidString]. *)
Fixpoint valid_from (skip : nat) (s : string) : bool :=
  match s with
  | EmptyString => true
  | String c s' =>
      match skip with
      | S k => valid_from k s'
      | O =>
          match rune_size c s' with
          | Some n => valid_from (Nat.pred n) s'
          | None => false
          end
      end
  end.

Definition utf8_ValidString (s : string) : bool := valid_from 0 s.

(** ** The records of [collector.go] *)

Record NodeStats := {
  Chain : string;
  AppVersion : string;
  Moniker : string;
  Height : Z;                      (* int64 *)
  LatestBlockTime : string;
  CatchingUp : bool;
  Balance : float64;
  Chains : option (list string);   (* a slice: None is the nil slice *)
  Jailed : bool;
  ServiceUrl : string;
  Address : string;
  PublicKey : string
}.

(** Memory and disk in bytes; the integer fields are uint64. *)
Record HostStats := {
  MemoryTotal : Z;
  MemoryFree : Z;
  DiskTotal : Z;
  DiskFree : Z;
  Uptime : Z;
  Platform : string;
  CPUUsagePercent : float64
}.

Record Stats := {
  Version : string;
  Timestamp : string;
  Node : NodeStats;
  Host : HostStats
}.

(** Zero values. *)
Definition f64_zero : float64 := S754_zero false.

Definition NodeStats_zero : NodeStats :=
  {| Chain := ""; AppVersion := ""; Moniker := ""; Height := 0;
     LatestBlockTime := ""; CatchingUp := false; Balance := f64_zero;
     Chains := None; Jailed := false; ServiceUrl := ""; Address := "";
     PublicKey := "" |}.

Definition HostStats_zero : HostStats :=
  {| MemoryTotal := 0; MemoryFree := 0; DiskTotal := 0; DiskFree := 0;
     Uptime := 0; Platform := ""; CPUUsagePercent := f64_zero |}.

(** Field assignments [s.F = v]. *)
Definition set_AppVersion (v : string) (s : NodeStats) : NodeStats :=
  {| Chain := Chain s; AppVersion := v; Moniker := Moniker s; Height := Height s;
     LatestBlockTime := LatestBlockTime s; CatchingUp := CatchingUp s;
     Balance := Balance s; Chains := Chains s; Jailed := Jailed s;
     ServiceUrl := ServiceUrl s; Address := Address s; PublicKey := PublicKey s |}.
Definition set_Moniker (v : string) (s : NodeStats) : NodeStats :=
  {| Chain := Chain s; AppVersion := AppVersion s; Moniker := v; Height := Height s;
     LatestBlockTime := LatestBlockTime s; CatchingUp := CatchingUp s;
     Balance := Balance s; Chains := Chains s; Jailed := Jailed s;
     ServiceUrl := ServiceUrl s; Address := Address s; PublicKey := PublicKey s |}.
Definition set_Height (v : Z) (s : NodeStats) : NodeStats :=
  {| Chain := Chain s; AppVersion := AppVersion s; Moniker := Moniker s; Height := v;
     LatestBlockTime := LatestBlockTime s; CatchingUp := CatchingUp s;
     Balance := Balance s; Chains := Chains s; Jailed := Jailed s;
     ServiceUrl := ServiceUrl s; Address := Address s; PublicKey := PublicKey s |}.
Definition set_LatestBlockTime (v : string) (s : NodeStats) : NodeStats :=
  {| Chain := Chain s; AppVersion := AppVersion s; Moniker := Moniker s; Height := Height s;
     LatestBlockTime := v; CatchingUp := CatchingUp s;
     Balance := Balance s; Chains := Chains s; Jailed := Jailed s;
     ServiceUrl := ServiceUrl s; Address := Address s; PublicKey := PublicKey s |}.
Definition set_CatchingUp (v : bool) (s : NodeStats) : NodeStats :=
  {| Chain := Chain s; AppVersion := AppVersion s; Moniker := Moniker s; Height := Height s;
     LatestBlockTime := LatestBlockTime s; CatchingUp := v;
     Balance := Balance s; Chains := Chains s; Jailed := Jailed s;
     ServiceUrl := ServiceUrl s; Address := Address s; PublicKey := PublicKey s |}.
Definition set_Balance (v : float64) (s : NodeStats) : NodeStats :=
  {| Chain := Chain s; AppVersion := AppVersion s; Moniker := Moniker s; Height := Height s;
     LatestBlockTime := LatestBlockTime s; CatchingUp := CatchingUp s;
     Balance := v; Chains := Chains s; Jailed := Jailed s;
     ServiceUrl := ServiceUrl s; Address := Address s; PublicKey := PublicKey s |}.
Definition set_Chains (v : option (list string)) (s : NodeStats) : NodeStats :=
  {| Chain := Chain s; AppVersion := AppVersion s; Moniker := Moniker s; Height := Height s;
     LatestBlockTime := LatestBlockTime s; CatchingUp := CatchingUp s;
     Balance := Balance s; Chains := v; Jailed := Jailed s;
     ServiceUrl := ServiceUrl s; Address := Address s; PublicKey := PublicKey s |}.
Definition set_Jailed (v : bool) (s : NodeStats) : NodeStats :=
  {| Chain := Chain s; AppVersion := AppVersion s; Moniker := Moniker s; Height := Height s;
     LatestBlockTime := LatestBlockTime s; CatchingUp := CatchingUp s;
     Balance := Balance s; Chains := Chains s; Jailed := v;
     ServiceUrl := ServiceUrl s; Address := Address s; PublicKey := PublicKey s |}.
Definition set_ServiceUrl (v : string) (s : NodeStats) : NodeStats :=
  {| Chain := Chain s; AppVersion := AppVersion s; Moniker := Moniker s; Height := Height s;
     LatestBlockTime := LatestBlockTime s; CatchingUp := CatchingUp s;
     Balance := Balance s; Chains := Chains s; Jailed := Jailed s;
     ServiceUrl := v; Address := Address s; PublicKey := PublicKey s |}.
Definition set_Address (v : string) (s : NodeStats) : NodeStats :=
  {| Chain := Chain s; AppVersion := AppVersion s; Moniker := Moniker s; Height := Height s;
     LatestBlockTime := LatestBlockTime s; CatchingUp := CatchingUp s;
     Balance := Balance s; Chains := Chains s; Jailed := Jailed s;
     ServiceUrl := ServiceUrl s; Address := v; PublicKey := PublicKey s |}.
Definition set_PublicKey (v : string) (s : NodeStats) : NodeStats :=
  {| Chain := Chain s; AppVersion := AppVersion s; Moniker := Moniker s; Height := Height s;
     LatestBlockTime := LatestBlockTime s; CatchingUp := CatchingUp s;
     Balance := Balance s; Chains := Chains s; Jailed := Jailed s;
     ServiceUrl := ServiceUrl s; Address := Address s; PublicKey := v |}.
Definition set_Chain (v : string) (s : NodeStats) : NodeStats :=
  {| Chain := v; AppVersion := AppVersion s; Moniker := Moniker s; Height := Height s;
     LatestBlockTime := LatestBlockTime s; CatchingUp := CatchingUp s;
     Balance := Balance s; Chains := Chains s; Jailed := Jailed s;
     ServiceUrl := ServiceUrl s; Address := Address s; PublicKey := PublicKey s |}.

Definition set_MemoryTotal (v : Z) (s : HostStats) : HostStats :=
  {| MemoryTotal := v; MemoryFree := MemoryFree s; DiskTotal := DiskTotal s;
     DiskFree := DiskFree s; Uptime := Uptime s; Platform := Platform s;
     CPUUsagePercent := CPUUsagePercent s |}.
Definition set_MemoryFree (v : Z) (s : HostStats) : HostStats :=
  {| MemoryTotal := MemoryTotal s; MemoryFree := v; DiskTotal := DiskTotal s;
     DiskFree := DiskFree s; Uptime := Uptime s; Platform := Platform s;
     CPUUsagePercent := CPUUsagePercent s |}.
Definition set_DiskTotal (v : Z) (s : HostStats) : HostStats :=
  {| MemoryTotal := MemoryTotal s; MemoryFree := MemoryFree s; DiskTotal := v;
     DiskFree := DiskFree s; Uptime := Uptime s; Platform := Platform s;
     CPUUsagePercent := CPUUsagePercent s |}.
Definition set_DiskFree (v : Z) (s : HostStats) : HostStats :=
  {| MemoryTotal := MemoryTotal s; MemoryFree := MemoryFree s; DiskTotal := DiskTotal s;
     DiskFree := v; Uptime := Uptime s; Platform := Platform s;
     CPUUsagePercent := CPUUsagePercent s |}.
Definition set_Uptime (v : Z) (s : HostStats) : HostStats :=
  {| MemoryTotal := MemoryTotal s; MemoryFree := MemoryFree s; DiskTotal := DiskTotal s;
     DiskFree := DiskFree s; Uptime := v; Platform := Platform s;
     CPUUsagePercent := CPUUsagePercent s |}.
Definition set_Platform (v : string) (s : HostStats) : HostStats :=
  {| MemoryTotal := MemoryTotal s; MemoryFree := MemoryFree s; DiskTotal := DiskTotal s;
     DiskFree := DiskFree s; Uptime := Uptime s; Platform := v;
     CPUUsagePercent := CPUUsagePercent s |}.
Definition set_CPUUsagePercent (v : float64) (s : HostStats) : HostStats :=
  {| MemoryTotal := MemoryTotal s; MemoryFree := MemoryFree s; DiskTotal := DiskTotal s;
     DiskFree := DiskFree s; Uptime := Uptime s; Platform := Platform s;
     CPUUsagePercent := v |}.

Definition set_Version (v : string) (s : Stats) : Stats :=
  {| Version := v; Timestamp := Timestamp s; Node := Node s; Host := Host s |}.
Definition set_Timestamp (v : string) (s : Stats) : Stats :=
  {| Version := Version s; Timestamp := v; Node := Node s; Host := Host s |}.
Definition set_Node (v : NodeStats) (s : Stats) : Stats :=
  {| Version := Version s; Timestamp := Timestamp s; Node := v; Host := Host s |}.
Definition set_Host (v : HostStats) (s : Stats) : Stats :=
  {| Version := Version s; Timestamp := Timestamp s; Node := Node s; Host := v |}.

(** ** Calls, results and panics *)

Inductive log_line :=
  | LogText (s : string)
  | LogMap (m : gmap string value)
  | LogErr (prefix : string) (e : error)
  | LogStats (s : Stats).

(** What the program does to the world, in the order it does it. *)
Inductive event :=
  | EvNow
  | EvVirtualMemory
  | EvDiskUsage (path : string)
  | EvCpuPercent
  | EvHostInfo
  | EvDo (req : Request) (out : Response + error)
  | EvLog (l : log_line)
  | EvPrint (s : string)
  | EvNewTicker (d : Z).

Inductive go (A : Type) : Type :=
  | Done (a : A)
  | Panicked (p : panic_value).
Arguments Done {A} a.
Arguments Panicked {A} p.

(** A computation: the calls made, then the value returned or the panic. *)
Definition M (A : Type) : Type := (list event * go A)%type.

#[local] Instance M_ret : MRet M := λ A a, ([], Done a).
#[local] Instance M_bind : MBind M := λ A B k m,
  match m with
  | (t, Done a) => let '(t', r) := k a in (t ++ t', r)
  | (t, Panicked p) => (t, Panicked p)
  end.

Definition emit (e : event) : M unit := ([e], Done tt).
Definition panic {A} (p : panic_value) : M A := ([], Panicked p).

Definition trace {A} (m : M A) : list event := fst m.
Definition outcome {A} (m : M A) : go A := snd m.

(** Type assertions [v.(T)]: the one-result form panics on a mismatch (nil
    included), the two-result form reports it. *)
Definition assert_map (v : value) : M (gmap string value) :=
  match v with VMap m => mret m | _ => panic (TypeAssertionFailed "map[string]interface {}") end.
Definition assert_string (v : value) : M string :=
  match v with VString s => mret s | _ => panic (TypeAssertionFailed "string") end.
Definition assert_bool (v : value) : M bool :=
  match v with VBool b => mret b | _ => panic (TypeAssertionFailed "bool") end.
Definition assert_float64 (v : value) : M float64 :=
  match v with VFloat f => mret f | _ => panic (TypeAssertionFailed "float64") end.
Definition assert_map_ok (v : value) : gmap string value * bool :=
  match v with VMap m => (m, true) | _ => (∅, false) end.

(** ** [strconv.ParseInt(s, 10, 64)] *)

Definition digit_of (c : ascii) : option Z :=
  if in_range 48 57 c then Some (byte_of c - 48) else None.

(** The digit loop of [ParseUint] for base 10 and 64 bits; [n] is the value
    read so far. *)
Fixpoint ParseUint_loop (s : string) (n : Z) : Z + num_err :=
  match s with
  | EmptyString => inl n
  | String c s' =>
      match digit_of c with
      | None => inr ErrSyntax
      | Some d =>
          if uint64_max / 10 + 1 <=? n then inr ErrRange
          else
            let n1 := n * 10 + d in
            if uint64_max <? n1 then inr ErrRange else ParseUint_loop s' n1
      end
  end.

Definition ParseUint (s : string) : Z + num_err :=
  match s with
  | EmptyString => inr ErrSyntax
  | _ => ParseUint_loop s 0
  end.

Definition ParseInt (s : string) : Z * option error :=
  match s with
  | EmptyString => (0, Some (NumError "ParseInt" s ErrSyntax))
  | String c s' =>
      let neg := Ascii.eqb c "-" in
      let digits := if Ascii.eqb c "+" || Ascii.eqb c "-" then s' else s in
      let cutoff := 2 ^ 63 in
      let range (un : Z) :=
        if negb neg && (cutoff <=? un) then (cutoff - 1, Some (NumError "ParseInt" s ErrRange))
        else if neg && (cutoff <? un) then (- cutoff, Some (NumError "ParseInt" s ErrRange))
        else (if neg then - un else un, None) in
      match ParseUint digits with
      | inr ErrSyntax => (0, Some (NumError "ParseInt" s ErrSyntax))
      | inr ErrRange => range uint64_max
      | inl un => range un
      end
  end.

(** ** The program *)

Definition newline : string := String (ascii_of_N 10) "".

Definition sleepTime : Z := 3 * (60 * 1000000000).   (* 3 * time.Minute, in ns *)
Definition endpoint : string := "https://injest.lunar.dev".

Definition getUrl (node : string) : string := endpoint +:+ "/" +:+ node.

(** [json.Marshal] of the map [{"address": addr}] that the two node queries
    post; it cannot fail. *)
Definition Marshal_address (addr : string) : json :=
  JObject [("address", JString (toValidUTF8 addr))].

Section Program.

Variable w : World.

(** [client.Do(req)]: one round trip, recorded with its outcome. *)
Definition client_Do (req : Request) : M (Response + error) :=
  let out := w_Do w req in
  emit (EvDo req out);; mret out.

(** A request to a fixed URL of the local node.  [http.NewRequest] cannot
    fail here: the method is valid and the URL a literal that [net/url]
    accepts. *)
Definition local_request (method url : string) (body : option json) : Request :=
  {| Method := method; URL := url; Header := []; ReqBody := body |}.

(** [client.Get(url)] for such a URL. *)
Definition client_Get (url : string) : M (Response + error) :=
  client_Do (local_request "GET" url None).

(** [json.NewDecoder(r.Body).Decode(&result)] *)
Definition Decode {T} (target : json → T + error) (r : Response) : T + error :=
  match BodyJSON r with
  | None => inr (LibError "json" "invalid character")
  | Some j => target j
  end.

Definition queryBalance (addr : string) : M (gmap string value * option error) :=
  let url := "http://localhost:8082/v1/query/balance" in
  let data := Marshal_address addr in
  let req := local_request "POST" url (Some data) in
  let req := Header_Set "Content-Type" "application/json" req in
  r ← client_Do req;
  match r with
  | inr err => mret (∅, Some err)
  | inl r =>
      match Decode decode_map r with
      | inr err => mret (∅, Some err)
      | inl result => mret (result, None)
      end
  end.

Definition queryNode (addr : string) : M (gmap string value * option error) :=
  let url := "http://localhost:8082/v1/query/node" in
  let data := Marshal_address addr in
  let req := local_request "POST" url (Some data) in
  let req := Header_Set "Content-Type" "application/json" req in
  r ← client_Do req;
  match r with
  | inr err => mret (∅, Some err)
  | inl r =>
      match Decode decode_map r with
      | inr err => mret (∅, Some err)
      | inl result => mret (result, None)
      end
  end.

Definition queryStatus : M (gmap string value * option error) :=
  let url := "http://localhost:26657/status" in
  r ← client_Get url;
  match r with
  | inr err => mret (∅, Some err)
  | inl r =>
      match Decode decode_map r with
      | inr err => mret (∅, Some err)
      | inl result => mret (result, None)
      end
  end.

Definition queryVersion : M (string * option error) :=
  let url := "http://localhost:8082/v1" in
  r ← client_Get url;
  match r with
  | inr err => mret ("", Some err)
  | inl r =>
      match Decode decode_string r with
      | inr err => mret ("", Some err)
      | inl result => mret (result, None)
      end
  end.

Definition collectNodeStats : M (NodeStats * option error) :=
  let s := set_Chain "pocket" NodeStats_zero in
  '(ver, err) ← queryVersion;
  match err with Some err => mret (s, Some err) | None =>
  let s := set_AppVersion ver s in
  '(statusResp, err) ← queryStatus;
  match err with Some err => mret (s, Some err) | None =>
  let '(status, ok) := assert_map_ok (index statusResp "result") in
  if negb ok then
    emit (EvLog (LogMap statusResp));;
    mret (s, Some (errorString "Invalid data from /status call"))
  else
  nodeInfo ← assert_map (index status "node_info");
  id ← assert_string (index nodeInfo "id");
  let s := set_Address id s in
  moniker ← assert_string (index nodeInfo "moniker");
  let s := set_Moniker moniker s in
  syncInfo ← assert_map (index status "sync_info");
  height ← assert_string (index syncInfo "latest_block_height");
  let '(h, err) := ParseInt height in
  match err with Some err => mret (s, Some err) | None =>
  let s := set_Height h s in
  lbt ← assert_string (index syncInfo "latest_block_time");
  let s := set_LatestBlockTime lbt s in
  cu ← assert_bool (index syncInfo "catching_up");
  let s := set_CatchingUp cu s in
  '(nodeResp, err) ← queryNode (Address s);
  match err with Some err => mret (s, Some err) | None =>
  pk ← assert_string (index nodeResp "public_key");
  let s := set_PublicKey pk s in
  jailed ← assert_bool (index nodeResp "jailed");
  let s := set_Jailed jailed s in
  su ← assert_string (index nodeResp "service_url");
  let s := set_ServiceUrl su s in
  '(balResp, err) ← queryBalance (Address s);
  match err with Some err => mret (s, Some err) | None =>
  bal ← assert_float64 (index balResp "balance");
  let s := set_Balance bal s in
  mret (s, None)
  end end end end end.

End Program.

(** ** [time.Time.Format(time.RFC3339)] *)

Definition pad_left (width : nat) (s : string) : string :=
  String.concat "" (replicate (width - String.length s) "0") +:+ s.

(** [appendInt] of package [time]: the sign, then the digits padded with
    zeros to [width]. *)
Definition appendInt (x : Z) (width : nat) : string :=
  (if x <? 0 then "-" else "") +:+ pad_left width (itoa (Z.abs x)).

(** The zone of the layout ["Z07:00"]: [Z] for UTC, else the signed offset
    in hours and minutes. *)
Definition format_zone (offset : Z) : string :=
  if offset =? 0 then "Z"
  else
    let zone := Z.quot offset 60 in
    let sign := if zone <? 0 then "-" else "+" in
    let zone := Z.abs zone in
    sign +:+ appendInt (Z.quot zone 60) 2 +:+ ":" +:+ appendInt (Z.rem zone 60) 2.

(** Layout ["2006-01-02T15:04:05Z07:00"]. *)
Definition Format_RFC3339 (t : Time) : string :=
  appendInt (t_year t) 4 +:+ "-" +:+ appendInt (t_month t) 2 +:+ "-" +:+
  appendInt (t_day t) 2 +:+ "T" +:+ appendInt (t_hour t) 2 +:+ ":" +:+
  appendInt (t_minute t) 2 +:+ ":" +:+ appendInt (t_second t) 2 +:+
  format_zone (t_offset t).

(** ** [HostStats.String]: the two percentages of the summary line *)

Definition memP (s : HostStats) : float64 :=
  f64_mul (float64_of_Z 100)
          (f64_div (float64_of_Z (MemoryFree s)) (float64_of_Z (MemoryTotal s))).

Definition diskP (s : HostStats) : float64 :=
  f64_mul (float64_of_Z 100)
          (f64_div (float64_of_Z (DiskFree s)) (float64_of_Z (DiskTotal s))).

(** ** [json.Marshal] of a [Stats]

    The keys are those of the struct tags.  The tag of [LatestBlockTime]
    is written without quotes around its value, so [reflect] finds no
    [json] key in it and the field goes by its Go name; [HostStats] has no
    tags.  Strings are coerced to valid UTF-8; a [float64] that is NaN or
    infinite is an [UnsupportedValueError]. *)

Definition Marshal_string (s : string) : json := JString (toValidUTF8 s).
Definition Marshal_int (z : Z) : json := JNumber (NInt z).

Definition Marshal_float64 (f : float64) : json + error :=
  if is_finite64 f then inl (JNumber (NFloat f))
  else inr (LibError "json" "unsupported value").

Definition Marshal_strings (l : option (list string)) : json :=
  match l with
  | None => JNull
  | Some l => JArray (Marshal_string <$> l)
  end.

Definition Marshal_NodeStats (s : NodeStats) : json + error :=
  match Marshal_float64 (Balance s) with
  | inr e => inr e
  | inl balance =>
      inl (JObject [
        ("chain", Marshal_string (Chain s));
        ("app_version", Marshal_string (AppVersion s));
        ("moniker", Marshal_string (Moniker s));
        ("height", Marshal_int (Height s));
        ("LatestBlockTime", Marshal_string (LatestBlockTime s));
        ("catching_up", JBool (CatchingUp s));
        ("balance", balance);
        ("chains", Marshal_strings (Chains s));
        ("jailed", JBool (Jailed s));
        ("service_url", Marshal_string (ServiceUrl s));
        ("address", Marshal_string (Address s));
        ("public_key", Marshal_string (PublicKey s))])
  end.

Definition Marshal_HostStats (s : HostStats) : json + error :=
  match Marshal_float64 (CPUUsagePercent s) with
  | inr e => inr e
  | inl cpu =>
      inl (JObject [
        ("MemoryTotal", Marshal_int (MemoryTotal s));
        ("MemoryFree", Marshal_int (MemoryFree s));
        ("DiskTotal", Marshal_int (DiskTotal s));
        ("DiskFree", Marshal_int (DiskFree s));
        ("Uptime", Marshal_int (Uptime s));
        ("Platform", Marshal_string (Platform s));
        ("CPUUsagePercent", cpu)])
  end.

Definition Marshal (s : Stats) : json + error :=
  match Marshal_NodeStats (Node s) with
  | inr e => inr e
  | inl node =>
      match Marshal_HostStats (Host s) with
      | inr e => inr e
      | inl host =>
          inl (JObject [
            ("version", Marshal_string (Version s));
            ("timestamp", Marshal_string (Timestamp s));
            ("node", node);
            ("host", host)])
      end
  end.

Section Cycle.

Variable w : World.

Definition collectHostStats : M (HostStats * option error) :=
  let s := HostStats_zero in
  let runtimeOS := w_GOOS w in
  emit EvVirtualMemory;;
  match w_VirtualMemory w with
  | inr err => mret (s, Some err)
  | inl vmStat =>
  let s := set_MemoryTotal (vm_Total vmStat) s in
  let s := set_MemoryFree (vm_Available vmStat) s in
  let path := if String.eqb runtimeOS "windows" then "\" else "/" in
  emit (EvDiskUsage path);;
  match w_DiskUsage w path with
  | inr err => mret (s, Some err)
  | inl diskStat =>
  let s := set_DiskTotal (du_Total diskStat) s in
  let s := set_DiskFree (du_Free diskStat) s in
  emit EvCpuPercent;;
  match w_CpuPercent w with
  | inr err => mret (s, Some err)
  | inl percentage =>
  match percentage with
  | [] => panic (IndexOutOfRange 0 0)
  | p0 :: _ =>
  let s := set_CPUUsagePercent p0 s in
  emit EvHostInfo;;
  match w_HostInfo w with
  | inr err => mret (s, Some err)
  | inl hostStat =>
  let s := set_Platform (hi_Platform hostStat) s in
  let s := set_Uptime (hi_Uptime hostStat) s in
  mret (s, None)
  end end end end end.

Definition collectStats : M (Stats * option error) :=
  emit EvNow;;
  let s := {| Version := "v1"; Timestamp := Format_RFC3339 (w_Now w);
              Node := NodeStats_zero; Host := HostStats_zero |} in
  '(hs, err) ← collectHostStats;
  match err with
  | Some err => emit (EvLog (LogText "err host stats:"));; mret (s, Some err)
  | None =>
  '(ns, err) ← collectNodeStats w;
  match err with
  | Some err => emit (EvLog (LogText "err node stats:"));; mret (s, Some err)
  | None =>
  let s := set_Host hs s in
  let s := set_Node ns s in
  emit (EvLog (LogStats s));;
  mret (s, None)
  end end.

(** [http.NewRequest]: nil and an error when [net/url] rejects the URL. *)
Definition http_NewRequest (method url : string) (body : option json)
  : option Request :=
  if w_URLParses w url
  then Some {| Method := method; URL := url; Header := []; ReqBody := body |}
  else None.

(** The error of a rejected report: [fmt.Sprintf("%d %s\n", code, body)]. *)
Definition rejection (code : Z) (body : string) : error :=
  errorString (itoa code +:+ " " +:+ body +:+ newline).

Definition sendStats (node key : string) (s : Stats) : M (option error) :=
  let url := getUrl node in
  match Marshal s with
  | inr err => mret (Some err)
  | inl data =>
  (* the error of NewRequest is dropped and req used as it is *)
  match http_NewRequest "POST" url (Some data) with
  | None => panic NilDereference
  | Some req =>
  let req := Header_Set "x-api-key" key req in
  let req := Header_Set "Content-Type" "application/json" req in
  r ← client_Do w req;
  match r with
  | inr err => mret (Some err)
  | inl resp =>
  if 399 <? StatusCode resp
  then mret (Some (rejection (StatusCode resp) (Body resp)))
  else mret None
  end end end.

Definition collectAndSend (node key : string) : M unit :=
  '(stats, err) ← collectStats;
  match err with
  | Some err => emit (EvLog (LogErr "Err collecting stats:" err))
  | None =>
  err ← sendStats node key stats;
  match err with
  | Some err => emit (EvLog (LogErr "Err sending stats:" err))
  | None => mret tt
  end end.

End Cycle.

(** ** The loop

    [start] blocks in [select] between cycles.  What wakes it is given as
    the list of the cases [select] takes, in order; the world of the n-th
    cycle is [ws n].  The result is the calls made before the first cycle,
    the calls of each cycle, and how the loop stands at the end of the
    list. *)

Inductive select_case := CtxDone | TickerC.

Inductive loop_end :=
  | Returned                       (* [return] on ctx.Done() *)
  | Crashed (p : panic_value)      (* a panic left the goroutine *)
  | Blocked.                       (* waiting in [select] *)

Fixpoint loop (ws : nat → World) (node key : string) (n : nat)
    (sel : list select_case) : list (list event) * loop_end :=
  match sel with
  | [] => ([], Blocked)
  | CtxDone :: _ => ([], Returned)
  | TickerC :: sel' =>
      match collectAndSend (ws n) node key with
      | (t, Done _) =>
          let '(ts, r) := loop ws node key (S n) sel' in (t :: ts, r)
      | (t, Panicked p) => ([t], Crashed p)
      end
  end.

(** Line 349 writes the first call as [collectAndSend()], without its
    arguments; it is taken here with [start]'s own [node] and [key], as in
    the ticker branch. *)
Definition start (ws : nat → World) (node key : string) (daemon : bool)
    (sel : list select_case) : list event * list (list event) * loop_end :=
  let banner := EvPrint ("Started monitoring node: " +:+ node +:+ newline +:+
    "You can view health status at https://lunar.dev/app" +:+ newline) in
  let prologue := [banner; EvNewTicker sleepTime] in
  match collectAndSend (ws 0%nat) node key with
  | (t, Done _) =>
      let '(ts, r) := loop ws node key 1%nat sel in (prologue, t :: ts, r)
  | (t, Panicked p) => (prologue, [t], Crashed p)
  end.

(** ** [json.Unmarshal] into a [Stats]

    A key selects the field whose name it equals, or else the first
    field whose name it equals up to letter case (of the letters beyond
    ASCII that Go also folds, none occurs in a field name here, and they
    are not modelled); other keys are skipped.  [null] leaves a scalar or
    a struct as it is and makes a slice nil.  The first value that does
    not fit its field is the error returned. *)

Definition lower_ascii (c : ascii) : ascii :=
  if in_range 65 90 c then ascii_of_N (N_of_ascii c + 32) else c.

Fixpoint lower (s : string) : string :=
  match s with
  | EmptyString => EmptyString
  | String c s' => String (lower_ascii c) (lower s')
  end.

Fixpoint assoc_by {T} (eq : string → string → bool) (k : string)
    (l : list (string * T)) : option T :=
  match l with
  | [] => None
  | (name, t) :: l' => if eq name k then Some t else assoc_by eq k l'
  end.

Definition find_field {T} (fields : list (string * T)) (k : string) : option T :=
  match assoc_by String.eqb k fields with
  | Some t => Some t
  | None => assoc_by (λ name k, String.eqb (lower name) (lower k)) k fields
  end.

Definition type_error (what : string) : error :=
  LibError "json" ("cannot unmarshal into Go value of type " +:+ what).

(** A field decoder reads a document into the field of a struct value. *)
Definition decoder (S : Type) : Type := json → S → S + error.

Fixpoint Unmarshal_object {S} (fields : list (string * decoder S))
    (kvs : list (string * json)) (s : S) : S + error :=
  match kvs with
  | [] => inl s
  | (k, j) :: kvs' =>
      match find_field fields k with
      | None => Unmarshal_object fields kvs' s
      | Some dec =>
          match dec j s with
          | inr e => inr e
          | inl s' => Unmarshal_object fields kvs' s'
          end
      end
  end.

Definition Unmarshal_struct {S} (what : string) (fields : list (string * decoder S))
    : decoder S :=
  λ j s, match j with
         | JNull => inl s
         | JObject kvs => Unmarshal_object fields kvs s
         | _ => inr (type_error what)
         end.

Definition dec_string {S} (set : string → S → S) : decoder S :=
  λ j s, match j with
         | JNull => inl s
         | JString v => inl (set v s)
         | _ => inr (type_error "string")
         end.

Definition dec_bool {S} (set : bool → S → S) : decoder S :=
  λ j s, match j with
         | JNull => inl s
         | JBool v => inl (set v s)
         | _ => inr (type_error "bool")
         end.

(** An integer field takes a token written for an integer that is within
    the range of its type.  What a token written for a [float64] gives
    here depends on the digits [strconv] chose for it, which this model
    does not have: it is refused. *)
Definition dec_int {S} (what : string) (lo hi : Z) (set : Z → S → S) : decoder S :=
  λ j s, match j with
         | JNull => inl s
         | JNumber (NInt z) =>
             if (lo <=? z) && (z <=? hi) then inl (set z s)
             else inr (type_error what)
         | _ => inr (type_error what)
         end.

Definition dec_float64 {S} (set : float64 → S → S) : decoder S :=
  λ j s, match j with
         | JNull => inl s
         | JNumber n =>
             match number_to_float64 n with
             | Some f => inl (set f s)
             | None => inr (type_error "float64")
             end
         | _ => inr (type_error "float64")
         end.

(** The elements of an array, read over the elements the slice had. *)
Fixpoint dec_elems (l : list json) (old : list string) : list string + error :=
  match l with
  | [] => inl []
  | j :: l' =>
      match dec_string (λ v _, v) j (hd "" old) with
      | inr e => inr e
      | inl v =>
          match dec_elems l' (tl old) with
          | inr e => inr e
          | inl vs => inl (v :: vs)
          end
      end
  end.

Definition dec_strings {S} (get : S → option (list string))
    (set : option (list string) → S → S) : decoder S :=
  λ j s, match j with
         | JNull => inl (set None s)
         | JArray l =>
             match dec_elems l (default [] (get s)) with
             | inr e => inr e
             | inl vs => inl (set (Some vs) s)
             end
         | _ => inr (type_error "[]string")
         end.

Definition NodeStats_fields : list (string * decoder NodeStats) := [
  ("chain", dec_string set_Chain);
  ("app_version", dec_string set_AppVersion);
  ("moniker", dec_string set_Moniker);
  ("height", dec_int "int64" int64_min int64_max set_Height);
  ("LatestBlockTime", dec_string set_LatestBlockTime);
  ("catching_up", dec_bool set_CatchingUp);
  ("balance", dec_float64 set_Balance);
  ("chains", dec_strings Chains set_Chains);
  ("jailed", dec_bool set_Jailed);
  ("service_url", dec_string set_ServiceUrl);
  ("address", dec_string set_Address);
  ("public_key", dec_string set_PublicKey)].

Definition HostStats_fields : list (string * decoder HostStats) := [
  ("MemoryTotal", dec_int "uint64" 0 uint64_max set_MemoryTotal);
  ("MemoryFree", dec_int "uint64" 0 uint64_max set_MemoryFree);
  ("DiskTotal", dec_int "uint64" 0 uint64_max set_DiskTotal);
  ("DiskFree", dec_int "uint64" 0 uint64_max set_DiskFree);
  ("Uptime", dec_int "uint64" 0 uint64_max set_Uptime);
  ("Platform", dec_string set_Platform);
  ("CPUUsagePercent", dec_float64 set_CPUUsagePercent)].

Definition Stats_fields : list (string * decoder Stats) := [
  ("version", dec_string set_Version);
  ("timestamp", dec_string set_Timestamp);
  ("node", λ j s,
     match Unmarshal_struct "NodeStats" NodeStats_fields j (Node s) with
     | inr e => inr e
     | inl n => inl (set_Node n s)
     end);
  ("host", λ j s,
     match Unmarshal_struct "HostStats" HostStats_fields j (Host s) with
     | inr e => inr e
     | inl h => inl (set_Host h s)
     end)].

Definition Unmarshal (j : json) (s : Stats) : Stats + error :=
  Unmarshal_struct "Stats" Stats_fields j s.

Definition Stats_zero : Stats :=
  {| Version := ""; Timestamp := ""; Node := NodeStats_zero; Host := HostStats_zero |}.

(** Serialising a report and decoding the document into a fresh [Stats]. *)
Definition roundtrip (s : Stats) : Stats + error :=
  match Marshal s with
  | inr e => inr e
  | inl doc => Unmarshal doc Stats_zero
  end.

(** ** Vocabulary of the properties *)

Definition version_url : string := "http://localhost:8082/v1".
Definition status_url : string := "http://localhost:26657/status".
Definition node_url : string := "http://localhost:8082/v1/query/node".
Definition balance_url : string := "http://localhost:8082/v1/query/balance".

Definition version_request : Request := local_request "GET" version_url None.
Definition status_request : Request := local_request "GET" status_url None.
Definition node_request (addr : string) : Request :=
  Header_Set "Content-Type" "application/json"
    (local_request "POST" node_url (Some (Marshal_address addr))).
Definition balance_request (addr : string) : Request :=
  Header_Set "Content-Type" "application/json"
    (local_request "POST" balance_url (Some (Marshal_address addr))).

(** The HTTP calls of a trace, by method and URL. *)
Definition call_of (e : event) : option (string * string) :=
  match e with
  | EvDo req _ => Some (Method req, URL req)
  | _ => None
  end.

Definition calls (t : list event) : list (string * string) := omap call_of t.

(** The four calls of the node-status read, as the code makes them. *)
Definition node_calls : list (string * string) :=
  [("GET", version_url); ("GET", status_url);
   ("POST", node_url); ("POST", balance_url)].

Definition is_inl {A B} (x : A + B) : bool :=
  match x with inl _ => true | inr _ => false end.

(** A call to the local node was answered when the round trip gave a
    response and the body decoded into the variable the caller decodes it
    into: a string for the version, a map for the other three. *)
Definition answered (url : string) (out : Response + error) : bool :=
  match out with
  | inr _ => false
  | inl r =>
      if String.eqb url version_url then is_inl (Decode decode_string r)
      else is_inl (Decode decode_map r)
  end.

(** A call to the remote collector. *)
Definition collector_call (e : event) : bool :=
  match e with
  | EvDo req _ => String.prefix endpoint (URL req)
  | _ => false
  end.

(** A call to the local node that failed in transport or in decoding. *)
Definition rpc_failed (e : event) : bool :=
  match e with
  | EvDo req out => negb (String.prefix endpoint (URL req)) && negb (answered (URL req) out)
  | _ => false
  end.

(** The map a reply decodes to (empty when there is none), and the value
    found in a decoded document along a path of keys. *)
Definition reply_map (w : World) (req : Request) : gmap string value :=
  match w_Do w req with
  | inl r => match Decode decode_map r with inl m => m | inr _ => ∅ end
  | inr _ => ∅
  end.

Fixpoint at_path (keys : list string) (v : value) : value :=
  match keys with
  | [] => v
  | k :: ks => match v with VMap m => at_path ks (index m k) | _ => VNil end
  end.

(** ** Sample worlds *)

Definition reply (code : Z) (text : string) (j : json) : Response + error :=
  inl {| StatusCode := code; Body := text; BodyJSON := Some j |}.

Definition f12_5 : float64 :=
  Eval vm_compute in f64_div (float64_of_Z 25) (float64_of_Z 2).
Definition f42_5 : float64 :=
  Eval vm_compute in f64_div (float64_of_Z 85) (float64_of_Z 2).

Definition node_info_doc (id moniker : string) : json :=
  JObject [("id", JString id); ("moniker", JString moniker)].

Definition sync_info_doc (height : string) : json :=
  JObject [("latest_block_height", JString height);
           ("latest_block_time", JString "2021-03-07T09:04:58Z");
           ("catching_up", JBool false)].

Definition status_doc (id moniker height : string) : json :=
  JObject [("result", JObject [("node_info", node_info_doc id moniker);
                               ("sync_info", sync_info_doc height)])].

(** A /status document whose result has no [sync_info]. *)
Definition status_doc_no_sync_info : json :=
  JObject [("result", JObject [("node_info", node_info_doc "abc123" "alice")])].

Definition node_doc (public_key : string) : json :=
  JObject [("public_key", JString public_key); ("jailed", JBool false);
           ("service_url", JString "https://node.example:443")].

Definition balance_doc : json := JObject [("balance", JNumber (NFloat f42_5))].

(** A world by the answers of its four node endpoints and of the collector. *)
Definition sample_world (version status node balance collector : Response + error)
    : World :=
  {| w_Now := {| t_year := 2021; t_month := 3; t_day := 7; t_hour := 9;
                 t_minute := 5; t_second := 0; t_offset := 0 |};
     w_GOOS := "linux";
     w_VirtualMemory := inl {| vm_Total := 16 * 2 ^ 30; vm_Available := 4 * 2 ^ 30 |};
     w_DiskUsage := λ _, inl {| du_Total := 100 * 10 ^ 9; du_Free := 40 * 10 ^ 9 |};
     w_CpuPercent := inl [f12_5];
     w_HostInfo := inl {| hi_Platform := "linux"; hi_Uptime := 86400 |};
     w_URLParses := λ _, true;
     w_Do := λ req,
       if String.eqb (URL req) version_url then version
       else if String.eqb (URL req) status_url then status
       else if String.eqb (URL req) node_url then node
       else if String.eqb (URL req) balance_url then balance
       else collector |}.

Definition accepted : Response + error :=
  inl {| StatusCode := 200; Body := "ok"; BodyJSON := None |}.

(** Every endpoint answers as the specification's scenario has it. *)
Definition healthy_world : World :=
  sample_world (reply 200 "<version>" (JString "RC-0.6.0"))
               (reply 200 "<status>" (status_doc "abc123" "alice" "1000000"))
               (reply 200 "<node>" (node_doc "pk01"))
               (reply 200 "<balance>" balance_doc)
               accepted.

(** The node answers /status without [sync_info]. *)
Definition world_no_sync_info : World :=
  sample_world (reply 200 "<version>" (JString "RC-0.6.0"))
               (reply 200 "<status>" status_doc_no_sync_info)
               (reply 200 "<node>" (node_doc "pk01"))
               (reply 200 "<balance>" balance_doc)
               accepted.

(** The node reports a negative height and empty identity strings. *)
Definition world_negative_height : World :=
  sample_world (reply 200 "<version>" (JString "RC-0.6.0"))
               (reply 200 "<status>" (status_doc "" "alice" "-1"))
               (reply 200 "<node>" (node_doc ""))
               (reply 200 "<balance>" balance_doc)
               accepted.

(** The node is unreachable from the second call on. *)
Definition world_node_down : World :=
  sample_world (reply 200 "<version>" (JString "RC-0.6.0"))
               (inr (LibError "net/http" "connection refused"))
               (inr (LibError "net/http" "connection refused"))
               (inr (LibError "net/http" "connection refused"))
               accepted.

(** The node answers every call with status 500 and a JSON body. *)
Definition world_node_500 : World :=
  sample_world (reply 500 "<version>" (JString "RC-0.6.0"))
               (reply 500 "<status>" (status_doc "abc123" "alice" "1000000"))
               (reply 500 "<node>" (node_doc "pk01"))
               (reply 500 "<balance>" balance_doc)
               accepted.

(** The collector rejects the report. *)
Definition world_rejected : World :=
  sample_world (reply 200 "<version>" (JString "RC-0.6.0"))
               (reply 200 "<status>" (status_doc "abc123" "alice" "1000000"))
               (reply 200 "<node>" (node_doc "pk01"))
               (reply 200 "<balance>" balance_doc)
               (inl {| StatusCode := 500; Body := "boom"; BodyJSON := None |}).

(** A report as the healthy world yields it. *)
Definition healthy_report : Stats :=
  {| Version := "v1"; Timestamp := "2021-03-07T09:05:00Z";
     Node := {| Chain := "pocket"; AppVersion := "RC-0.6.0"; Moniker := "alice";
                Height := 1000000; LatestBlockTime := "2021-03-07T09:04:58Z";
                CatchingUp := false; Balance := f42_5; Chains := None;
                Jailed := false; ServiceUrl := "https://node.example:443";
                Address := "abc123"; PublicKey := "pk01" |};
     Host := {| MemoryTotal := 16 * 2 ^ 30; MemoryFree := 4 * 2 ^ 30;
                DiskTotal := 100 * 10 ^ 9; DiskFree := 40 * 10 ^ 9;
                Uptime := 86400; Platform := "linux"; CPUUsagePercent := f12_5 |} |}.

(** A report whose platform name is the single byte 0xFF, and one whose
    balance is not a number. *)
Definition report_invalid_utf8 : Stats :=
  set_Host (set_Platform (String (ascii_of_N 255) "") (Host healthy_report))
           healthy_report.

Definition report_nan : Stats :=
  set_Node (set_Balance S754_nan (Node healthy_report)) healthy_report.

(** The node answers the second cycle's /status without [sync_info]. *)
Definition worlds_malformed_second (n : nat) : World :=
  match n with
  | 1%nat => world_no_sync_info
  | _ => healthy_world
  end.

(** ** Predicates on runs *)

(** The calls as claim C4 words them: the version query as a POST. *)
Definition node_calls_as_claimed : list (string * string) :=
  [("POST", version_url); ("GET", status_url);
   ("POST", node_url); ("POST", balance_url)].

(** The node-status read makes its calls in the fixed order, makes none
    after one that failed, and made all four without a failure when it
    returns no error. *)
Definition node_run_ok (m : M (NodeStats * option error)) : Prop :=
  calls (trace m) `prefix_of` node_calls ∧
  (∀ t1 e t2, trace m = t1 ++ e :: t2 → rpc_failed e = true → calls t2 = []) ∧
  (∀ s, outcome m = Done (s, None) →
        calls (trace m) = node_calls ∧ existsb rpc_failed (trace m) = false).

(** A cycle with a failed node call sends nothing and ends by logging the
    collection error. *)
Definition fails_fast (m : M unit) : Prop :=
  existsb rpc_failed (trace m) = true →
  existsb collector_call (trace m) = false ∧
  outcome m = Done tt ∧
  ∃ err, last (trace m) = Some (EvLog (LogErr "Err collecting stats:" err)).

(** The fields of a node record that was returned without error are the
    ones the node reported. *)
Definition node_fields_reported (w : World) (m : M (NodeStats * option error)) : Prop :=
  ∀ s, outcome m = Done (s, None) →
    let status := VMap (reply_map w status_request) in
    at_path ["result"; "node_info"; "id"] status = VString (Address s) ∧
    (∃ h, at_path ["result"; "sync_info"; "latest_block_height"] status = VString h ∧
          ParseInt h = (Height s, None)) ∧
    at_path ["public_key"] (VMap (reply_map w (node_request (Address s)))) =
      VString (PublicKey s) ∧
    int64_min ≤ Height s ≤ int64_max.

Definition no_calls {A} (m : M A) : Prop := calls (trace m) = [].

Definition returns {A} (m : M A) : Prop := ∃ a, outcome m = Done a.

(** The ticks [select] takes before the first cancellation, and whether a
    cancellation is taken at all. *)
Fixpoint ticks_before_done (sel : list select_case) : nat :=
  match sel with
  | TickerC :: sel' => S (ticks_before_done sel')
  | _ => 0%nat
  end.

Fixpoint cancelled (sel : list select_case) : bool :=
  match sel with
  | [] => false
  | CtxDone :: _ => true
  | TickerC :: sel' => cancelled sel'
  end.

Definition cycle_trace (ws : nat → World) (node key : string) (n : nat) : list event :=
  trace (collectAndSend (ws n) node key).

(** ** Reports that serialise *)

Definition in_uint64 (z : Z) : bool := (0 <=? z) && (z <=? uint64_max).
Definition in_int64 (z : Z) : bool := (int64_min <=? z) && (z <=? int64_max).

(** The integer fields hold values of their Go types. *)
Definition well_typed (s : Stats) : bool :=
  in_int64 (Height (Node s)) &&
  in_uint64 (MemoryTotal (Host s)) && in_uint64 (MemoryFree (Host s)) &&
  in_uint64 (DiskTotal (Host s)) && in_uint64 (DiskFree (Host s)) &&
  in_uint64 (Uptime (Host s)).

Definition valid_strings (l : option (list string)) : bool :=
  match l with
  | None => true
  | Some l => forallb utf8_ValidString l
  end.

(** Every string is valid UTF-8 and every [float64] is finite. *)
Definition serializable (s : Stats) : bool :=
  utf8_ValidString (Version s) && utf8_ValidString (Timestamp s) &&
  utf8_ValidString (Chain (Node s)) && utf8_ValidString (AppVersion (Node s)) &&
  utf8_ValidString (Moniker (Node s)) && utf8_ValidString (LatestBlockTime (Node s)) &&
  is_finite64 (Balance (Node s)) && valid_strings (Chains (Node s)) &&
  utf8_ValidString (ServiceUrl (Node s)) && utf8_ValidString (Address (Node s)) &&
  utf8_ValidString (PublicKey (Node s)) &&
  utf8_ValidString (Platform (Host s)) && is_finite64 (CPUUsagePercent (Host s)).

(** ** The value of a [float64]

    What is needed to speak of the number a [float64] stands for: the
    rational it denotes, comparison of dyadic values [m * 2 ^ e] by
    integers, and the integer rounding that [float64(n)] performs. *)

Definition SF2Q (f : float64) : option Q :=
  match f with
  | S754_zero _ => Some 0%Q
  | S754_finite s m e =>
      Some ((if s then -1 else 1) * inject_Z (Zpos m) * 2 ^ e)%Q
  | S754_infinity _ | S754_nan => None
  end.

(** A float that denotes a number of the interval [0, 100]. *)
Definition in_percent_range (f : float64) : Prop :=
  ∃ q, SF2Q f = Some q ∧ (0 <= q <= 100)%Q.

(** [dle m e j t]: the value [m * 2 ^ e] is at most [j * 2 ^ t]. *)
Definition dle (m e j t : Z) : Prop :=
  ∃ c, c ≤ e ∧ c ≤ t ∧ m * 2 ^ (e - c) ≤ j * 2 ^ (t - c).

(** A float that is not negative and whose value is at most the integer [j]. *)
Definition le_int (f : float64) (j : Z) : Prop :=
  match f with
  | S754_zero _ => 0 ≤ j
  | S754_finite false m e => dle (Zpos m) e j 0
  | _ => False
  end.

Definition fexp64 (e : Z) : Z := fexp prec64 emax64 e.

(** The location that a remainder [rem] below [2 * half] stands for. *)
Definition loc_of_rem (rem half : Z) : location :=
  if rem =? 0 then loc_Exact else loc_Inexact (rem ?= half).

(** The float that rounding ends in, by mantissa and exponent. *)
Definition finish (m e : Z) : float64 :=
  match m with
  | 0 => S754_zero false
  | Zpos p => if e <=? emax64 - prec64 then S754_finite false p e else S754_infinity false
  | Zneg _ => S754_nan
  end.

(** Rounding [a] to a multiple of [2 ^ n], ties to even, in units of
    [2 ^ n]; the shift that leaves 53 digits; the integer that
    [float64(a)] stands for. *)
Definition rne (a n : Z) : Z :=
  round_nearest_even (a / 2 ^ n) (loc_of_rem (a mod 2 ^ n) (2 ^ (n - 1))).
Definition shift64 (a : Z) : Z := Z.max (Zdigits2 a - 53) 0.
Definition R64 (a : Z) : Z := rne a (shift64 a) * 2 ^ shift64 a.

Definition f64_100 : float64 := Eval vm_compute in float64_of_Z 100.

(** The expression of [memP] and [diskP]. *)
Definition percent (part whole : Z) : float64 :=
  f64_mul (float64_of_Z 100) (f64_div (float64_of_Z part) (float64_of_Z whole)).

(** A host record that reports more free memory than there is memory. *)
Definition host_free_exceeds_total : HostStats :=
  {| MemoryTotal := 1; MemoryFree := 2; DiskTotal := 1; DiskFree := 1;
     Uptime := 0; Platform := "linux"; CPUUsagePercent := f64_zero |}.

(** ** Vocabulary of the host read and of the report request *)

(** The path whose usage [collectHostStats] asks for. *)
Definition disk_path (w : World) : string :=
  if String.eqb (w_GOOS w) "windows" then "\" else "/".

(** The four readings of the host read, as the code makes them. *)
Definition host_reads (w : World) : list event :=
  [EvVirtualMemory; EvDiskUsage (disk_path w); EvCpuPercent; EvHostInfo].

(** The error with which the world answers a reading, if it does. *)
Definition reading_error (w : World) (e : event) : option error :=
  match e with
  | EvVirtualMemory => match w_VirtualMemory w with inr err => Some err | inl _ => None end
  | EvDiskUsage path => match w_DiskUsage w path with inr err => Some err | inl _ => None end
  | EvCpuPercent => match w_CpuPercent w with inr err => Some err | inl _ => None end
  | EvHostInfo => match w_HostInfo w with inr err => Some err | inl _ => None end
  | _ => None
  end.

(** The host read makes its readings in the fixed order and none after one
    that failed; the error it returns is the one of its last reading; it
    made all four when it returns no error. *)
Definition host_run_ok (w : World) (m : M (HostStats * option error)) : Prop :=
  trace m `prefix_of` host_reads w ∧
  (∀ t1 e t2, trace m = t1 ++ e :: t2 → t2 ≠ [] → reading_error w e = None) ∧
  (∀ s err, outcome m = Done (s, Some err) →
     ∃ e, last (trace m) = Some e ∧ reading_error w e = Some err) ∧
  (∀ s, outcome m = Done (s, None) → trace m = host_reads w).

(** The HTTP requests of a trace. *)
Definition request_of (e : event) : option Request :=
  match e with
  | EvDo req _ => Some req
  | _ => None
  end.

Definition requests (t : list event) : list Request := omap request_of t.

(** The request that carries a report to the collector. *)
Definition report_request (node key : string) (data : json) : Request :=
  {| Method := "POST"; URL := "https://injest.lunar.dev/" +:+ node;
     Header := [("x-api-key", key); ("Content-Type", "application/json")];
     ReqBody := Some data |}.

(** A host whose CPU sample is empty. *)
Definition world_no_cpu_sample : World :=
  {| w_Now := w_Now healthy_world; w_GOOS := "windows";
     w_VirtualMemory := w_VirtualMemory healthy_world;
     w_DiskUsage := w_DiskUsage healthy_world;
     w_CpuPercent := inl [];
     w_HostInfo := w_HostInfo healthy_world;
     w_URLParses := w_URLParses healthy_world;
     w_Do := w_Do healthy_world |}.

(** ** Vocabulary of the node-status read *)

(** The version string that the node's reply decodes to, if it does. *)
Definition version_reply (w : World) : option string :=
  match w_Do w version_request with
  | inl r => match Decode decode_string r with inl v => Some v | inr _ => None end
  | inr _ => None
  end.

(** A node record is the one read off the replies when each of its fields
    is the value found at the field's place in the reply it comes from. *)
Definition read_off_replies (w : World) (s : NodeStats) : Prop :=
  let status := VMap (reply_map w status_request) in
  let node := VMap (reply_map w (node_request (Address s))) in
  let balance := VMap (reply_map w (balance_request (Address s))) in
  Chain s = "pocket" ∧ Chains s = None ∧
  version_reply w = Some (AppVersion s) ∧
  at_path ["result"; "node_info"; "id"] status = VString (Address s) ∧
  at_path ["result"; "node_info"; "moniker"] status = VString (Moniker s) ∧
  (∃ h, at_path ["result"; "sync_info"; "latest_block_height"] status = VString h ∧
        ParseInt h = (Height s, None)) ∧
  at_path ["result"; "sync_info"; "latest_block_time"] status =
    VString (LatestBlockTime s) ∧
  at_path ["result"; "sync_info"; "catching_up"] status = VBool (CatchingUp s) ∧
  at_path ["public_key"] node = VString (PublicKey s) ∧
  at_path ["jailed"] node = VBool (Jailed s) ∧
  at_path ["service_url"] node = VString (ServiceUrl s) ∧
  at_path ["balance"] balance = VFloat (Balance s).

Definition reads_off_replies (w : World) (m : M (NodeStats * option error)) : Prop :=
  ∀ s, outcome m = Done (s, None) → read_off_replies w s.

(** The node answers /status with the JSON value [null]. *)
Definition world_status_null : World :=
  sample_world (reply 200 "<version>" (JString "RC-0.6.0"))
               (reply 200 "null" JNull)
               (reply 200 "<node>" (node_doc "pk01"))
               (reply 200 "<balance>" balance_doc)
               accepted.

(** The node reports a height that is not a numeral. *)
Definition world_height_not_a_number : World :=
  sample_world (reply 200 "<version>" (JString "RC-0.6.0"))
               (reply 200 "<status>" (status_doc "abc123" "alice" "12a"))
               (reply 200 "<node>" (node_doc "pk01"))
               (reply 200 "<balance>" balance_doc)
               accepted.

(** ** Replies that hold what the read asserts *)

Definition is_string (v : value) : bool :=
  match v with VString _ => true | _ => false end.
Definition is_bool (v : value) : bool :=
  match v with VBool _ => true | _ => false end.
Definition is_float64 (v : value) : bool :=
  match v with VFloat _ => true | _ => false end.

(** The fields that the read takes from the result of /status hold values
    of the types it asserts.  The two fields that are read after the height
    count only when the height parses: when it does not, the read has
    returned before it comes to them. *)
Definition status_typed (status : gmap string value) : bool :=
  match index status "node_info" with
  | VMap nodeInfo =>
      is_string (index nodeInfo "id") && is_string (index nodeInfo "moniker") &&
      match index status "sync_info" with
      | VMap syncInfo =>
          match index syncInfo "latest_block_height" with
          | VString h =>
              match ParseInt h with
              | (_, Some _) => true
              | (_, None) =>
                  is_string (index syncInfo "latest_block_time") &&
                  is_bool (index syncInfo "catching_up")
              end
          | _ => false
          end
      | _ => false
      end
  | _ => false
  end.

(** The same for the map a reply decoded to, by the URL that was asked.  A
    /status reply without a result object is not read any further. *)
Definition reply_typed (url : string) (m : gmap string value) : bool :=
  if String.eqb url status_url then
    match index m "result" with
    | VMap status => status_typed status
    | _ => true
    end
  else if String.eqb url node_url then
    is_string (index m "public_key") && is_bool (index m "jailed") &&
    is_string (index m "service_url")
  else if String.eqb url balance_url then is_float64 (index m "balance")
  else true.

(** A reply that decoded into a map in which a field that the read asserts
    is missing or has another type. *)
Definition ill_typed_reply (e : event) : bool :=
  match e with
  | EvDo req (inl r) =>
      match Decode decode_map r with
      | inl m => negb (reply_typed (URL req) m)
      | inr _ => false
      end
  | _ => false
  end.

Definition panics_on_ill_typed {A} (m : M A) : Prop :=
  ((∃ p, outcome m = Panicked p) ↔ existsb ill_typed_reply (trace m) = true) ∧
  (∀ p, outcome m = Panicked p → ∃ T, p = TypeAssertionFailed T).

(** The error of a call to the local node: the one of the round trip, or
    the one of decoding the body into the variable of the caller. *)
Definition call_error (url : string) (out : Response + error) : option error :=
  match out with
  | inr err => Some err
  | inl r =>
      if String.eqb url version_url
      then match Decode decode_string r with inr err => Some err | inl _ => None end
      else match Decode decode_map r with inr err => Some err | inl _ => None end
  end.

(** Where the errors of the node-status read come from. *)
Definition node_errors_explained (w : World) (m : M (NodeStats * option error)) : Prop :=
  ∀ s e, outcome m = Done (s, Some e) →
    (∃ req out, last (trace m) = Some (EvDo req out) ∧
                call_error (URL req) out = Some e) ∨
    (e = errorString "Invalid data from /status call" ∧
     last (trace m) = Some (EvLog (LogMap (reply_map w status_request))) ∧
     ∀ status, index (reply_map w status_request) "result" ≠ VMap status) ∨
    (∃ h n, e = NumError "ParseInt" h n ∧
            at_path ["result"; "sync_info"; "latest_block_height"]
              (VMap (reply_map w status_request)) = VString h).

Definition posts_address (m : M (NodeStats * option error)) : Prop :=
  ∀ s, outcome m = Done (s, None) →
    requests (trace m) =
      [version_request; status_request;
       node_request (Address s); balance_request (Address s)].

(** ** Vocabulary of the cycle *)

(** A collection that succeeded made the four calls of the node read. *)
Definition calls_when_done (m : M (Stats * option error)) : Prop :=
  ∀ s, outcome m = Done (s, None) → calls (trace m) = node_calls.

(** A node identifier with a percent sign that starts no escape: [net/url]
    rejects the collector URL made from it. *)
Definition world_bad_node_id : World :=
  {| w_Now := w_Now healthy_world; w_GOOS := w_GOOS healthy_world;
     w_VirtualMemory := w_VirtualMemory healthy_world;
     w_DiskUsage := w_DiskUsage healthy_world;
     w_CpuPercent := w_CpuPercent healthy_world;
     w_HostInfo := w_HostInfo healthy_world;
     w_URLParses := λ url, negb (String.eqb url "https://injest.lunar.dev/%zz");
     w_Do := w_Do healthy_world |}.

(** A host whose CPU percentage is not a number. *)
Definition world_nan_cpu : World :=
  {| w_Now := w_Now healthy_world; w_GOOS := w_GOOS healthy_world;
     w_VirtualMemory := w_VirtualMemory healthy_world;
     w_DiskUsage := w_DiskUsage healthy_world;
     w_CpuPercent := inl [S754_nan];
     w_HostInfo := w_HostInfo healthy_world;
     w_URLParses := w_URLParses healthy_world;
     w_Do := w_Do healthy_world |}.

(** The first cycle is healthy, the second meets a host without CPU sample. *)
Definition worlds_no_cpu_second (n : nat) : World :=
  match n with
  | 1%nat => world_no_cpu_sample
  | _ => healthy_world
  end.

(** A computation that calls the collector nowhere. *)
Definition no_collector_call {A} (m : M A) : Prop :=
  existsb collector_call (trace m) = false.

(** ** Numbers of a decoded reply *)

(** The object loop of [to_interface], by name. *)
Fixpoint decode_fields (kvs : list (string * json)) (m : gmap string value)
    : option (gmap string value) :=
  match kvs with
  | [] => Some m
  | (k, j) :: kvs => v ← to_interface j; decode_fields kvs (<[k := v]> m)
  end.

(** Every number that a map holds at its top is finite. *)
Definition finite_floats (m : gmap string value) : Prop :=
  ∀ k f, m !! k = Some (VFloat f) → is_finite64 f = true.

(** ** fmt's verb %.<prec>f for a [float64]

    [strconv] converts the binary value to decimal exactly and rounds it to
    [prec] digits after the point, to nearest with ties to even; [fmt]
    prints NaN and the infinities by name. *)

(** [n / d] rounded to the nearest integer, ties to the even one, for
    [n] not negative and [d] positive. *)
Definition div_half_even (n d : Z) : Z :=
  let q := n / d in
  match 2 * (n mod d) ?= d with
  | Lt => q
  | Eq => if Z.even q then q else q + 1
  | Gt => q + 1
  end.

(** The magnitude [m * 2 ^ e] in units of [10 ^ - prec], rounded. *)
Definition fixed_units (prec : nat) (m : positive) (e : Z) : Z :=
  let scale := 10 ^ Z.of_nat prec in
  if 0 <=? e then Zpos m * 2 ^ e * scale
  else div_half_even (Zpos m * scale) (2 ^ (- e)).

(** The sign, the integer part, and the point with [prec] digits if any. *)
Definition fmt_fixed (prec : nat) (neg : bool) (units : Z) : string :=
  let scale := 10 ^ Z.of_nat prec in
  (if neg then "-" else "") +:+ itoa (units / scale) +:+
  match prec with
  | O => ""
  | S _ => "." +:+ pad_left prec (itoa (units mod scale))
  end.

Definition Sprintf_f (prec : nat) (f : float64) : string :=
  match f with
  | S754_nan => "NaN"
  | S754_infinity false => "+Inf"
  | S754_infinity true => "-Inf"
  | S754_zero neg => fmt_fixed prec neg 0
  | S754_finite neg m e => fmt_fixed prec neg (fixed_units prec m e)
  end.

(** ** The summaries: [String] of the three records *)

(** Multiplication of [int64] wraps around. *)
Definition wrap_int64 (z : Z) : Z := (z + 2 ^ 63) mod 2 ^ 64 - 2 ^ 63.

(** The loop of [bytesHumanize], run for at most [fuel] rounds: [n] is
    divided by 1000 as long as it is 1000 or more, [div] and [exp] keep
    count. *)
Fixpoint humanize_loop (fuel : nat) (n div exp : Z) : Z * Z * Z :=
  match fuel with
  | O => (n, div, exp)
  | S fuel' =>
      if 1000 <=? n
      then humanize_loop fuel' (n / 1000) (wrap_int64 (div * 1000)) (exp + 1)
      else (n, div, exp)
  end.

(** [b] is a uint64.  The loop is given as many rounds as [b] has binary
    digits, which is more than it takes.  Indexing ["kMGTPE"] beyond its
    end would panic. *)
Definition bytesHumanize (b : Z) : M string :=
  let unit := 1000 in
  if b <? unit then mret (itoa b +:+ " B")
  else
    let '(_, div, exp) := humanize_loop (Z.to_nat (Z.log2 b)) (b / unit) unit 0 in
    let quotient := f64_div (float64_of_Z b) (float64_of_Z div) in
    match String.get (Z.to_nat exp) "kMGTPE" with
    | None => panic (IndexOutOfRange exp 6)
    | Some c => mret (Sprintf_f 1 quotient +:+ " " +:+ String c "B")
    end.

Definition NodeStats_String (s : NodeStats) : string :=
  Chain s +:+ " (" +:+ AppVersion s +:+ "), height:" +:+ itoa (Height s).

Definition HostStats_String (s : HostStats) : M string :=
  let memP := memP s in
  let diskP := diskP s in
  mem ← bytesHumanize (MemoryFree s);
  disk ← bytesHumanize (DiskFree s);
  mret ("Mem Free:" +:+ mem +:+ "(" +:+ Sprintf_f 0 memP +:+ "%), Disk Free:" +:+
        disk +:+ "(" +:+ Sprintf_f 0 diskP +:+ "%), CPU Usage: " +:+
        Sprintf_f 0 (CPUUsagePercent s) +:+ "%").

Definition tab : string := String (ascii_of_N 9) "".

Definition Stats_String (s : Stats) : M string :=
  host ← HostStats_String (Host s);
  mret (newline +:+ tab +:+ "Host: " +:+ host +:+ newline +:+ tab +:+ "Node: " +:+
        NodeStats_String (Node s)).

(** ** Decimal numerals *)

(** The number that the digits [d] stand for after the digits of [acc]. *)
Fixpoint uint_value (d : Decimal.uint) (acc : Z) : Z :=
  match d with
  | Decimal.Nil => acc
  | Decimal.D0 d => uint_value d (10 * acc)
  | Decimal.D1 d => uint_value d (10 * acc + 1)
  | Decimal.D2 d => uint_value d (10 * acc + 2)
  | Decimal.D3 d => uint_value d (10 * acc + 3)
  | Decimal.D4 d => uint_value d (10 * acc + 4)
  | Decimal.D5 d => uint_value d (10 * acc + 5)
  | Decimal.D6 d => uint_value d (10 * acc + 6)
  | Decimal.D7 d => uint_value d (10 * acc + 7)
  | Decimal.D8 d => uint_value d (10 * acc + 8)
  | Decimal.D9 d => uint_value d (10 * acc + 9)
  end.

(** What [ParseInt] returns for a numeral beyond the range of int64. *)
Definition out_of_range (s : string) (z : Z) : Z * option error :=
  (if 0 <? z then int64_max else int64_min, Some (NumError "ParseInt" s ErrRange)).

(** ** Documents whose strings are valid UTF-8 *)

Fixpoint valid_document (j : json) : bool :=
  match j with
  | JNull | JBool _ | JNumber _ => true
  | JString s => utf8_ValidString s
  | JArray l => forallb valid_document l
  | JObject kvs =>
      (fix go (kvs : list (string * json)) : bool :=
         match kvs with
         | [] => true
         | (k, j) :: kvs => utf8_ValidString k && valid_document j && go kvs
         end) kvs
  end.

(** ** Clock readings *)

(** A reading with a year of four digits, the other fields within their
    calendar ranges, and a zone less than a day from UTC. *)
Definition calendar_time (t : Time) : bool :=
  (0 <=? t_year t) && (t_year t <=? 9999) &&
  (1 <=? t_month t) && (t_month t <=? 12) &&
  (1 <=? t_day t) && (t_day t <=? 31) &&
  (0 <=? t_hour t) && (t_hour t <=? 23) &&
  (0 <=? t_minute t) && (t_minute t <=? 59) &&
  (0 <=? t_second t) && (t_second t <=? 59) &&
  (-86400 <? t_offset t) && (t_offset t <? 86400).

(** ** Reading a document *)

(** The keys of an object in the order written, and the member under a key. *)
Definition keys (j : json) : list string :=
  match j with
  | JObject kvs => fst <$> kvs
  | _ => []
  end.

Definition member (k : string) (j : json) : option json :=
  match j with
  | JObject kvs => assoc_by String.eqb k kvs
  | _ => None
  end.

(** * Properties of the [float64] operations

    [binary_round_aux] shifts the mantissa right until it has 53 digits,
    rounds to nearest with ties to even, and shifts once more when the
    rounding carried.  The lemmas below follow it through these steps for
    a value that is not negative, and bound what conversion, division and
    multiplication return. *)

Lemma iter_pos_nat {A} (f : A → A) (p : positive) (x : A) :
  SpecFloat.iter_pos f p x = Nat.iter (Pos.to_nat p) f x.
Proof.
  revert x; induction p as [p IH|p IH|]; intros x; cbn [SpecFloat.iter_pos].
  - rewrite !IH, Pos2Nat.inj_xI, <- Nat.iter_add.
    replace (Pos.to_nat p + Pos.to_nat p)%nat with (2 * Pos.to_nat p)%nat by lia.
    now rewrite <- Nat.iter_succ_r.
  - rewrite !IH, Pos2Nat.inj_xO, <- Nat.iter_add.
    now replace (Pos.to_nat p + Pos.to_nat p)%nat with (2 * Pos.to_nat p)%nat by lia.
  - reflexivity.
Qed.

Lemma shr_1_nonneg (m : Z) (r s : bool) :
  0 ≤ m →
  shr_1 {| shr_m := m; shr_r := r; shr_s := s |} =
  {| shr_m := m / 2; shr_r := Z.odd m; shr_s := r || s |}.
Proof.
  intros Hm. rewrite <- Z.div2_div.
  destruct m as [|[p|p|]|p]; try reflexivity; lia.
Qed.

Lemma shr_iter_m (n : nat) (m : Z) (r s : bool) :
  0 ≤ m →
  shr_m (Nat.iter n shr_1 {| shr_m := m; shr_r := r; shr_s := s |}) =
  m / 2 ^ Z.of_nat n.
Proof.
  intros Hm. revert r s; induction n as [|n IH]; intros r s.
  - cbn. now rewrite Z.div_1_r.
  - rewrite Nat.iter_succ.
    destruct (Nat.iter n shr_1 _) as [m' r' s'] eqn:E.
    specialize (IH r s). rewrite E in IH. cbn [shr_m] in IH. subst m'.
    rewrite shr_1_nonneg by (apply Z.div_pos; lia). cbn [shr_m].
    rewrite Nat2Z.inj_succ, Z.pow_succ_r by lia.
    rewrite Z.div_div by lia. f_equal. lia.
Qed.

Lemma shr_iter_exact (n : nat) (m : Z) :
  0 ≤ m →
  loc_of_shr_record
    (Nat.iter n shr_1 {| shr_m := m; shr_r := false; shr_s := false |}) =
  loc_of_rem (m mod 2 ^ Z.of_nat n) (2 ^ (Z.of_nat n - 1)).
Proof.
  intros Hm. induction n as [|n IH].
  - cbn. now rewrite Z.mod_1_r.
  - rewrite Nat.iter_succ.
    pose proof (shr_iter_m n m false false Hm) as Hq.
    destruct (Nat.iter n shr_1 _) as [m' r' s'] eqn:E.
    cbn [shr_m] in Hq. subst m'.
    rewrite shr_1_nonneg by (apply Z.div_pos; lia).
    rewrite Nat2Z.inj_succ, Z.pow_succ_r by lia.
    replace (Z.succ (Z.of_nat n) - 1) with (Z.of_nat n) by lia.
    set (k := Z.of_nat n) in *.
    assert (Hk : 0 < 2 ^ k) by (apply Z.pow_pos_nonneg; lia).
    rewrite (Z.mul_comm 2), Z.rem_mul_r by lia.
    pose proof (Z.mod_pos_bound m (2 ^ k) Hk) as Hrho.
    rewrite Zmod_odd.
    assert (Hrs : r' || s' = negb (m mod 2 ^ k =? 0)).
    { unfold loc_of_rem in IH. destruct (m mod 2 ^ k =? 0), r', s'; cbn in *;
        congruence. }
    rewrite Hrs. unfold loc_of_rem.
    destruct (Z.odd (m / 2 ^ k)), (m mod 2 ^ k =? 0) eqn:H0; cbn [negb loc_of_shr_record];
      (apply Z.eqb_eq in H0 || apply Z.eqb_neq in H0).
    + rewrite H0. replace (0 + 2 ^ k * 1) with (2 ^ k) by lia.
      destruct (2 ^ k =? 0) eqn:H1; [apply Z.eqb_eq in H1; lia|].
      now rewrite Z.compare_refl.
    + destruct (_ =? 0) eqn:H1; [apply Z.eqb_eq in H1; lia|].
      f_equal. symmetry. apply Z.compare_gt_iff. lia.
    + rewrite H0. now replace (0 + 2 ^ k * 0) with 0 by lia.
    + replace (m mod 2 ^ k + 2 ^ k * 0) with (m mod 2 ^ k) by lia.
      destruct (_ =? 0) eqn:H1; [apply Z.eqb_eq in H1; lia|].
      f_equal. symmetry. apply Z.compare_lt_iff. lia.
Qed.

Lemma shr_spec (m e n : Z) (l : location) :
  0 ≤ m →
  let N := Z.max n 0 in
  ∃ rec, shr (shr_record_of_loc m l) e n = (rec, e + N) ∧
         shr_m rec = m / 2 ^ N ∧
         (l = loc_Exact →
          loc_of_shr_record rec = loc_of_rem (m mod 2 ^ N) (2 ^ (N - 1))) ∧
         (N = 0 → loc_of_shr_record rec = l).
Proof.
  intros Hm N. unfold shr.
  destruct n as [|p|p].
  - exists (shr_record_of_loc m l). subst N. cbn [Z.max Z.compare].
    rewrite Z.add_0_r, Z.div_1_r, Z.mod_1_r.
    repeat split; try (intros ->; reflexivity).
    + now destruct l as [|[]].
    + intros _. now destruct l as [|[]].
  - exists (SpecFloat.iter_pos shr_1 p (shr_record_of_loc m l)).
    assert (HN : N = Z.of_nat (Pos.to_nat p)) by (subst N; lia).
    rewrite iter_pos_nat. split; [f_equal; lia|]. rewrite HN.
    split; [|split].
    + destruct l as [|[]]; cbn [shr_record_of_loc]; now apply shr_iter_m.
    + intros ->. now apply shr_iter_exact.
    + lia.
  - exists (shr_record_of_loc m l). subst N. cbn [Z.max Z.compare].
    rewrite Z.add_0_r, Z.div_1_r, Z.mod_1_r.
    repeat split.
    + now destruct l as [|[]].
    + intros ->; reflexivity.
    + intros _. now destruct l as [|[]].
Qed.

Lemma round_aux_decomp (mx ex : Z) (lx : location) :
  0 ≤ mx →
  let N := Z.max (fexp64 (Zdigits2 mx + ex) - ex) 0 in
  let e1 := ex + N in
  let m1 := mx / 2 ^ N in
  ∃ loc1,
    (lx = loc_Exact → loc1 = loc_of_rem (mx mod 2 ^ N) (2 ^ (N - 1))) ∧
    (N = 0 → loc1 = lx) ∧
    let m2 := round_nearest_even m1 loc1 in
    let N2 := Z.max (fexp64 (Zdigits2 m2 + e1) - e1) 0 in
    binary_round_aux prec64 emax64 false mx ex lx = finish (m2 / 2 ^ N2) (e1 + N2).
Proof.
  intros Hmx. cbv zeta. unfold fexp64.
  unfold binary_round_aux, shr_fexp.
  destruct (shr_spec mx ex (fexp prec64 emax64 (Zdigits2 mx + ex) - ex) lx Hmx)
    as (rec1 & -> & Hm1 & Hex & Hno).
  cbv beta iota zeta.
  exists (loc_of_shr_record rec1). split; [exact Hex|]. split; [exact Hno|].
  rewrite Hm1.
  set (N := Z.max (fexp prec64 emax64 (Zdigits2 mx + ex) - ex) 0).
  set (m2 := round_nearest_even (mx / 2 ^ N) (loc_of_shr_record rec1)).
  assert (Hm1' : 0 ≤ mx / 2 ^ N) by (apply Z.div_pos; [lia|apply Z.pow_pos_nonneg; lia]).
  assert (Hm2 : 0 ≤ m2).
  { unfold m2, round_nearest_even. destruct (loc_of_shr_record rec1) as [|[]];
      try destruct (Z.even (mx / 2 ^ N)); lia. }
  destruct (shr_spec m2 (ex + N) (fexp prec64 emax64 (Zdigits2 m2 + (ex + N)) - (ex + N))
              loc_Exact Hm2) as (rec2 & -> & Hm3 & _ & _).
  cbv beta iota zeta.
  rewrite Hm3. reflexivity.
Qed.

(** ** Digits *)

Lemma digits2_pos_bounds (p : positive) :
  2 ^ (Zpos (digits2_pos p) - 1) ≤ Zpos p < 2 ^ Zpos (digits2_pos p).
Proof.
  induction p as [p IH|p IH|]; cbn [digits2_pos].
  - rewrite Pos2Z.inj_succ. replace (Z.succ (Zpos (digits2_pos p)) - 1)
      with (Z.succ (Zpos (digits2_pos p) - 1)) by lia.
    rewrite !Z.pow_succ_r by lia. lia.
  - rewrite Pos2Z.inj_succ. replace (Z.succ (Zpos (digits2_pos p)) - 1)
      with (Z.succ (Zpos (digits2_pos p) - 1)) by lia.
    rewrite !Z.pow_succ_r by lia. lia.
  - cbn. lia.
Qed.

Lemma Zdigits2_bounds (m : Z) :
  0 < m → 0 < Zdigits2 m ∧ 2 ^ (Zdigits2 m - 1) ≤ m < 2 ^ Zdigits2 m.
Proof.
  destruct m as [|p|p]; try lia. intros _. cbn [Zdigits2].
  split; [lia|apply digits2_pos_bounds].
Qed.

Lemma Zdigits2_nonneg (m : Z) : 0 ≤ Zdigits2 m.
Proof. destruct m; cbn; lia. Qed.

Lemma Zdigits2_unique (m d : Z) :
  2 ^ (d - 1) ≤ m < 2 ^ d → 0 < m → Zdigits2 m = d.
Proof.
  intros Hd Hm. destruct (Zdigits2_bounds m Hm) as [Hpos Hb].
  assert (0 < d).
  { destruct (Z.le_gt_cases d 0) as [H|H]; [|exact H].
    assert (2 ^ d ≤ 2 ^ 0) by (apply Z.pow_le_mono_r; lia). cbn in *. lia. }
  assert (Zdigits2 m - 1 < d).
  { apply (Z.pow_lt_mono_r_iff 2); lia. }
  assert (d - 1 < Zdigits2 m).
  { apply (Z.pow_lt_mono_r_iff 2); lia. }
  lia.
Qed.

Lemma Zdigits2_le (m d : Z) : 0 ≤ d → 0 ≤ m < 2 ^ d → Zdigits2 m ≤ d.
Proof.
  intros Hd [H0 Hm]. destruct (Z.eq_dec m 0) as [->|Hne]; [cbn; lia|].
  destruct (Zdigits2_bounds m ltac:(lia)) as [Hpos Hb].
  assert (Zdigits2 m - 1 < d); [|lia].
  apply (Z.pow_lt_mono_r_iff 2); lia.
Qed.

(** ** Comparing dyadic values *)

Lemma dle_at (m e j t c : Z) :
  dle m e j t → c ≤ e → c ≤ t → m * 2 ^ (e - c) ≤ j * 2 ^ (t - c).
Proof.
  intros (c0 & He & Ht & H) Hce Hct.
  destruct (Z.le_gt_cases c c0) as [Hc|Hc].
  - replace (e - c) with ((e - c0) + (c0 - c)) by lia.
    replace (t - c) with ((t - c0) + (c0 - c)) by lia.
    rewrite !Z.pow_add_r, !Z.mul_assoc by lia.
    apply Z.mul_le_mono_nonneg_r; [apply Z.pow_nonneg; lia|exact H].
  - replace (e - c0) with ((e - c) + (c - c0)) in H by lia.
    replace (t - c0) with ((t - c) + (c - c0)) in H by lia.
    rewrite !Z.pow_add_r, !Z.mul_assoc in H by lia.
    eapply Z.mul_le_mono_pos_r; [|exact H]. apply Z.pow_pos_nonneg; lia.
Qed.

Lemma dle_trans (m e j t k u : Z) : dle m e j t → dle j t k u → dle m e k u.
Proof.
  intros H1 H2. set (c := Z.min e (Z.min t u)).
  exists c. split; [lia|]. split; [lia|].
  etransitivity; [apply (dle_at _ _ _ _ c H1); lia|apply (dle_at _ _ _ _ c H2); lia].
Qed.

Lemma fexp64_eq (x : Z) : fexp64 x = Z.max (x - 53) (-1074).
Proof. reflexivity. Qed.

Lemma round_nearest_even_bounds (m : Z) (l : location) :
  m ≤ round_nearest_even m l ≤ m + 1 ∧
  (l = loc_Exact → round_nearest_even m l = m).
Proof.
  unfold round_nearest_even. destruct l as [|[]]; try destruct (Z.even m);
    split; try lia; try reflexivity; discriminate.
Qed.

(** ** Rounding below an integer bound *)

Lemma pow2_pos (k : Z) : 0 ≤ k → 0 < 2 ^ k.
Proof. intros. apply Z.pow_pos_nonneg; lia. Qed.

Lemma round_aux_le_int (mx ex j : Z) (lx : location) :
  0 ≤ mx → ex ≤ 0 → fexp64 (Zdigits2 mx + ex) ≤ 0 →
  0 ≤ j < 2 ^ 64 →
  mx ≤ j * 2 ^ (- ex) →
  (lx ≠ loc_Exact → mx < j * 2 ^ (- ex)) →
  le_int (binary_round_aux prec64 emax64 false mx ex lx) j.
Proof.
  intros Hmx Hex Hfexp Hj Hle Hstrict.
  destruct (round_aux_decomp mx ex lx Hmx) as (loc1 & Hexact & Hnoshift & ->).
  cbv zeta in *.
  set (N := Z.max (fexp64 (Zdigits2 mx + ex) - ex) 0) in *.
  set (e1 := ex + N) in *.
  set (m1 := mx / 2 ^ N) in *.
  set (m2 := round_nearest_even m1 loc1) in *.
  set (N2 := Z.max (fexp64 (Zdigits2 m2 + e1) - e1) 0) in *.
  assert (HN : 0 ≤ N) by (subst N; lia).
  assert (He1 : e1 ≤ 0) by (subst e1 N; lia).
  assert (HpN := pow2_pos N HN).
  assert (Hpe1 := pow2_pos (- e1) ltac:(lia)).
  assert (Hsplit : 2 ^ (- ex) = 2 ^ (- e1) * 2 ^ N).
  { rewrite <- Z.pow_add_r by lia. f_equal. subst e1. lia. }
  assert (Hm1 : 0 ≤ m1 ≤ j * 2 ^ (- e1)).
  { split; [apply Z.div_pos; lia|].
    subst m1. apply Z.div_le_upper_bound; [lia|]. rewrite Hsplit in Hle. lia. }
  destruct (round_nearest_even_bounds m1 loc1) as [Hb Hbx]. fold m2 in Hb, Hbx.
  assert (Hm2 : 0 ≤ m2 ≤ j * 2 ^ (- e1)).
  { split; [lia|].
    destruct (Z.eq_dec m1 (j * 2 ^ (- e1))) as [Heq|Hne]; [|lia].
    assert (Hmod : mx = 2 ^ N * m1 + mx mod 2 ^ N) by (apply Z.div_mod; lia).
    pose proof (Z.mod_pos_bound mx (2 ^ N) HpN) as Hrem.
    assert (Hmx' : mx = j * 2 ^ (- ex)).
    { rewrite Hsplit in *. nia. }
    assert (Hlx : lx = loc_Exact).
    { destruct lx as [|c]; [reflexivity|]. exfalso.
      assert (mx < j * 2 ^ (- ex)) by (apply Hstrict; discriminate). lia. }
    assert (Hr0 : mx mod 2 ^ N = 0).
    { rewrite Hsplit in Hmx'. nia. }
    rewrite Hbx; [lia|]. rewrite (Hexact Hlx), Hr0. reflexivity. }
  assert (HN2 : 0 ≤ N2) by (subst N2; lia).
  assert (HpN2 := pow2_pos N2 HN2).
  assert (Hm3 : 0 ≤ m2 / 2 ^ N2 ∧ m2 / 2 ^ N2 * 2 ^ N2 ≤ m2).
  { split; [apply Z.div_pos; lia|].
    pose proof (Z.div_mod m2 (2 ^ N2) ltac:(lia)).
    pose proof (Z.mod_pos_bound m2 (2 ^ N2) HpN2). lia. }
  unfold finish.
  destruct (m2 / 2 ^ N2) as [|p|p] eqn:Em3; cbn [le_int]; [lia| |lia].
  assert (Hm2pos : 0 < m2) by nia.
  assert (He3 : e1 + N2 ≤ 11).
  { destruct (Z.eq_dec N2 0) as [->|Hnz]; [lia|].
    assert (Hd2 : Zdigits2 m2 ≤ 64 - e1).
    { apply Zdigits2_le; [lia|]. split; [lia|].
      replace (64 - e1) with (64 + - e1) by lia. rewrite Z.pow_add_r by lia.
      nia. }
    subst N2. rewrite fexp64_eq in *. lia. }
  replace (e1 + N2 <=? emax64 - prec64) with true
    by (symmetry; apply Z.leb_le; unfold emax64, prec64; lia).
  exists e1. split; [lia|]. split; [lia|].
  replace (e1 + N2 - e1) with N2 by lia. replace (0 - e1) with (- e1) by lia.
  lia.
Qed.

(** ** Division and multiplication *)

Lemma dle_digits (mx ex my ey : Z) :
  0 < mx → 0 < my → dle mx ex my ey →
  Zdigits2 mx + ex ≤ Zdigits2 my + ey.
Proof.
  intros Hx Hy H.
  destruct (Zdigits2_bounds mx Hx) as [Hdx Hbx].
  destruct (Zdigits2_bounds my Hy) as [Hdy Hby].
  set (c := Z.min ex ey).
  pose proof (dle_at _ _ _ _ c H ltac:(lia) ltac:(lia)) as Hc.
  assert (Hp1 := pow2_pos (ex - c) ltac:(lia)).
  assert (Hp2 := pow2_pos (ey - c) ltac:(lia)).
  assert (Hlt : 2 ^ (Zdigits2 mx - 1 + (ex - c)) < 2 ^ (Zdigits2 my + (ey - c))).
  { rewrite !Z.pow_add_r by lia. nia. }
  apply Z.pow_lt_mono_r_iff in Hlt; lia.
Qed.

Lemma new_location_zero (d : Z) : new_location d 0 = loc_Exact.
Proof.
  unfold new_location, new_location_even, new_location_odd.
  now destruct (Z.even d).
Qed.

Lemma div_le_one (mx my : positive) (ex ey : Z) :
  dle (Zpos mx) ex (Zpos my) ey →
  le_int (f64_div (S754_finite false mx ex) (S754_finite false my ey)) 1.
Proof.
  intros H. unfold f64_div, SFdiv, SFdiv_core_binary. cbn [xorb].
  pose proof (dle_digits (Zpos mx) ex (Zpos my) ey ltac:(lia) ltac:(lia) H) as Hdig.
  fold (fexp64 (Zdigits2 (Zpos mx) + ex - (Zdigits2 (Zpos my) + ey))).
  set (e' := Z.min (fexp64 (Zdigits2 (Zpos mx) + ex - (Zdigits2 (Zpos my) + ey))) (ex - ey)).
  assert (He' : e' ≤ -53) by (subst e'; rewrite fexp64_eq; lia).
  assert (Hs : 0 ≤ ex - ey - e') by (subst e'; lia).
  set (m' := match ex - ey - e' with
             | 0 => Zpos mx
             | Zpos _ => Z.shiftl (Zpos mx) (ex - ey - e')
             | Zneg _ => 0
             end).
  assert (Hm' : m' = Zpos mx * 2 ^ (ex - ey - e')).
  { subst m'. destruct (ex - ey - e') as [|s|s] eqn:E; [cbn; lia| |lia].
    rewrite Z.shiftl_mul_pow2 by lia. reflexivity. }
  pose proof (dle_at _ _ _ _ (ey + e') H ltac:(lia) ltac:(lia)) as Hc.
  replace (ex - (ey + e')) with (ex - ey - e') in Hc by lia.
  replace (ey - (ey + e')) with (- e') in Hc by lia.
  rewrite <- Hm' in Hc.
  assert (Hpe := pow2_pos (- e') ltac:(lia)).
  assert (Hm'0 : 0 ≤ m') by (rewrite Hm'; pose proof (pow2_pos _ Hs); lia).
  pose proof (Z_div_mod m' (Zpos my) ltac:(lia)) as Hdm.
  destruct (Z.div_eucl m' (Zpos my)) as [q r].
  destruct Hdm as [Hdm Hr].
  assert (Hq : 0 ≤ q ≤ 2 ^ (- e')) by nia.
  apply round_aux_le_int.
  - lia.
  - lia.
  - rewrite fexp64_eq.
    assert (Zdigits2 q ≤ - e' + 1); [|lia].
    apply Zdigits2_le; [lia|]. split; [lia|]. rewrite Z.pow_add_r by lia. lia.
  - cbn; lia.
  - lia.
  - intros Hl. destruct (Z.eq_dec q (2 ^ (- e'))) as [Heq|Hne]; [|lia].
    exfalso. apply Hl.
    assert (r = 0) by nia. subst r. apply new_location_zero.
Qed.

Lemma le_int_exponent (m : positive) (e : Z) :
  dle (Zpos m) e 1 0 → e ≤ 0 ∧ Zpos m ≤ 2 ^ (- e).
Proof.
  intros H.
  assert (He : e ≤ 0).
  { destruct (Z.le_gt_cases e 0) as [|Hgt]; [assumption|].
    pose proof (dle_at _ _ _ _ 0 H ltac:(lia) ltac:(lia)) as H0.
    rewrite !Z.sub_0_r in H0. cbn in H0.
    assert (2 ^ 1 ≤ 2 ^ e) by (apply Z.pow_le_mono_r; lia). cbn in *. nia. }
  split; [exact He|].
  pose proof (dle_at _ _ _ _ e H ltac:(lia) ltac:(lia)) as H0.
  rewrite Z.sub_diag in H0. replace (0 - e) with (- e) in H0 by lia. cbn in H0. lia.
Qed.

Lemma mul_100_le (q : float64) :
  le_int q 1 → le_int (f64_mul (float64_of_Z 100) q) 100.
Proof.
  change (float64_of_Z 100) with f64_100. unfold f64_100, f64_mul, SFmul.
  destruct q as [s| | |[] m e]; cbn [le_int]; try contradiction; [lia|].
  intros H. apply le_int_exponent in H as [He Hm]. cbn [xorb].
  set (m100 := 7036874417766400).
  change (Zpos (7036874417766400 * m)) with (m100 * Zpos m).
  assert (Hpe := pow2_pos (- e) ltac:(lia)).
  assert (Hle : m100 * Zpos m ≤ 100 * 2 ^ (- (-46 + e))).
  { replace (- (-46 + e)) with (46 + - e) by lia. rewrite Z.pow_add_r by lia.
    subst m100. change (2 ^ 46) with 70368744177664. nia. }
  apply round_aux_le_int.
  - subst m100; lia.
  - lia.
  - rewrite fexp64_eq.
    assert (Zdigits2 (m100 * Zpos m) ≤ 7 - (-46 + e)); [|lia].
    apply Zdigits2_le; [lia|]. split; [subst m100; lia|].
    replace (7 - (-46 + e)) with (7 + - (-46 + e)) by lia.
    rewrite Z.pow_add_r by lia. change (2 ^ 7) with 128.
    pose proof (pow2_pos (- (-46 + e)) ltac:(lia)). lia.
  - cbn; lia.
  - exact Hle.
  - intros Hl. now contradiction Hl.
Qed.

(** ** Converting an integer *)

Lemma rne_0 (a : Z) : rne a 0 = a.
Proof. unfold rne. cbn [Z.pow]. now rewrite Z.div_1_r, Z.mod_1_r. Qed.

Lemma Pos_iter_xO (p k : positive) : Zpos (Pos.iter xO p k) = Zpos p * 2 ^ Zpos k.
Proof.
  rewrite Pos2Nat.inj_iter, <- (positive_nat_Z k).
  induction (Pos.to_nat k) as [|n IH]; [cbn; lia|].
  cbn [nat_rect]. rewrite Pos2Z.inj_xO, IH, Nat2Z.inj_succ, Z.pow_succ_r by lia. lia.
Qed.

Lemma float64_of_Z_value (a : Z) :
  0 < a < 2 ^ 64 →
  ∃ m e, float64_of_Z a = S754_finite false m e ∧ -52 ≤ e ∧
         Zpos m * 2 ^ (e + 52) = R64 a * 2 ^ 52.
Proof.
  intros [Ha Ha64]. destruct a as [|p|p]; try lia.
  destruct (Zdigits2_bounds (Zpos p) Ha) as [Hd Hb].
  assert (Hd64 : Zdigits2 (Zpos p) ≤ 64) by (apply Zdigits2_le; lia).
  unfold float64_of_Z, binary_normalize, binary_round, shl_align.
  fold (fexp64 (Zpos (digits2_pos p) + 0)).
  change (Zpos (digits2_pos p)) with (Zdigits2 (Zpos p)) in *.
  set (a := Zpos p) in *. set (d := Zdigits2 a) in *.
  rewrite Z.add_0_r, fexp64_eq, Z.sub_0_r.
  replace (Z.max (d - 53) (-1074)) with (d - 53) by lia.
  unfold R64, shift64. fold d.
  destruct (Z.le_gt_cases d 53) as [Hsmall|Hlarge].
  - (* at most 53 digits: the conversion is exact *)
    replace (Z.max (d - 53) 0) with 0 by lia. rewrite rne_0.
    assert (Hpd := pow2_pos (53 - d) ltac:(lia)).
    assert (E : ∃ mz, (match d - 53 with
                       | Zneg k => (Pos.iter xO p k, d - 53)
                       | _ => (p, 0)
                       end) = (mz, d - 53) ∧ Zpos mz = a * 2 ^ (53 - d)).
    { destruct (d - 53) as [|k|k] eqn:Ek; try lia.
      - exists p. split; [reflexivity|]. replace (53 - d) with 0 by lia. subst a; lia.
      - exists (Pos.iter xO p k). split; [reflexivity|].
        rewrite Pos_iter_xO. replace (53 - d) with (Zpos k) by lia. reflexivity. }
    destruct E as (mz & -> & Hmz).
    assert (Hdz : Zdigits2 (Zpos mz) = 53).
    { apply Zdigits2_unique; [|lia]. rewrite Hmz.
      assert (H52 : 2 ^ (53 - 1) = 2 ^ (d - 1) * 2 ^ (53 - d))
        by (rewrite <- Z.pow_add_r by lia; f_equal; lia).
      assert (H53 : 2 ^ 53 = 2 ^ d * 2 ^ (53 - d))
        by (rewrite <- Z.pow_add_r by lia; f_equal; lia).
      rewrite H52, H53. nia. }
    destruct (round_aux_decomp (Zpos mz) (d - 53) loc_Exact ltac:(lia))
      as (loc1 & _ & Hloc & ->).
    cbv zeta in *.
    assert (N0 : Z.max (fexp64 (Zdigits2 (Zpos mz) + (d - 53)) - (d - 53)) 0 = 0)
      by (rewrite Hdz, fexp64_eq; lia).
    rewrite N0 in *. rewrite (Hloc eq_refl). cbn [round_nearest_even Z.pow].
    rewrite Z.div_1_r, Z.add_0_r, N0.
    cbn [Z.pow]. rewrite Z.div_1_r, Z.add_0_r. unfold finish.
    replace (d - 53 <=? emax64 - prec64) with true
      by (symmetry; apply Z.leb_le; unfold emax64, prec64; lia).
    exists mz, (d - 53). split; [reflexivity|]. split; [lia|].
    rewrite Hmz, Z.mul_1_r, <- Z.mul_assoc, <- Z.pow_add_r by lia.
    f_equal. f_equal. lia.
  - (* more digits: shift right and round *)
    set (N := d - 53).
    replace (Z.max (d - 53) 0) with N by lia.
    assert (E : (match N with
                 | Zneg k => (Pos.iter xO p k, N)
                 | _ => (p, 0)
                 end) = (p, 0)) by (destruct N eqn:EN; try reflexivity; lia).
    subst N. rewrite E. set (N := d - 53) in *. fold a.
    destruct (round_aux_decomp a 0 loc_Exact ltac:(lia))
      as (loc1 & Hloc & _ & ->).
    cbv zeta in *. fold d in Hloc |- *. rewrite Z.add_0_r, !fexp64_eq, Z.sub_0_r in *.
    replace (Z.max (Z.max (d - 53) (-1074)) 0) with N in * by lia.
    rewrite (Hloc eq_refl). fold (rne a N). rewrite Z.add_0_l.
    assert (HpN := pow2_pos N ltac:(lia)).
    assert (Hm1 : 2 ^ 52 ≤ a / 2 ^ N < 2 ^ 53).
    { split.
      - apply Z.div_le_lower_bound; [lia|]. rewrite <- Z.pow_add_r by lia.
        replace (N + 52) with (d - 1) by lia. lia.
      - apply Z.div_lt_upper_bound; [lia|]. rewrite <- Z.pow_add_r by lia.
        replace (N + 53) with d by lia. lia. }
    destruct (round_nearest_even_bounds (a / 2 ^ N)
                (loc_of_rem (a mod 2 ^ N) (2 ^ (N - 1)))) as [Hr _].
    fold (rne a N) in Hr. set (m2 := rne a N) in *.
    destruct (Z.eq_dec m2 (2 ^ 53)) as [Htop|Hnt].
    + assert (Hd2 : Zdigits2 m2 = 54) by (rewrite Htop; reflexivity).
      rewrite Hd2. replace (Z.max (Z.max (54 + N - 53) (-1074) - N) 0) with 1 by lia.
      rewrite Htop. change (2 ^ 53 / 2 ^ 1) with (2 ^ 52). unfold finish.
      change (2 ^ 52) with (Zpos 4503599627370496) at 1.
      replace (N + 1 <=? emax64 - prec64) with true
        by (symmetry; apply Z.leb_le; unfold emax64, prec64; lia).
      eexists _, _. split; [reflexivity|]. split; [lia|].
      replace (N + 1 + 52) with (N + 53) by lia.
      rewrite Z.pow_add_r by lia.
      replace (Z.max N 0) with N by lia. fold m2. rewrite Htop.
      change (2 ^ 53) with (4503599627370496 * 2). change (2 ^ 52) with 4503599627370496.
      ring.
    + assert (Hd2 : Zdigits2 m2 = 53) by (apply Zdigits2_unique; lia).
      rewrite Hd2. replace (Z.max (Z.max (53 + N - 53) (-1074) - N) 0) with 0 by lia.
      cbn [Z.pow]. rewrite Z.div_1_r, Z.add_0_r. unfold finish.
      destruct m2 as [|m|m] eqn:Em2; try lia.
      replace (N <=? emax64 - prec64) with true
        by (symmetry; apply Z.leb_le; unfold emax64, prec64; lia).
      eexists _, _. split; [reflexivity|]. split; [lia|].
      rewrite Z.pow_add_r by lia.
      replace (Z.max N 0) with N by lia. fold m2. rewrite Em2. ring.
Qed.

(** ** Conversion is monotone *)

Lemma rne_bounds (a n : Z) : a / 2 ^ n ≤ rne a n ≤ a / 2 ^ n + 1.
Proof. apply round_nearest_even_bounds. Qed.

Lemma rne_mono (a b n : Z) : 0 ≤ n → 0 ≤ a ≤ b → rne a n ≤ rne b n.
Proof.
  intros Hn Hab. assert (Hp := pow2_pos n Hn).
  assert (Hq : a / 2 ^ n ≤ b / 2 ^ n) by (apply Z.div_le_mono; lia).
  destruct (Z.eq_dec (a / 2 ^ n) (b / 2 ^ n)) as [Heq|Hne].
  - assert (Hr : a mod 2 ^ n ≤ b mod 2 ^ n).
    { rewrite !Z.mod_eq by lia. rewrite Heq. lia. }
    unfold rne, round_nearest_even, loc_of_rem. rewrite Heq.
    set (q := b / 2 ^ n). set (ra := a mod 2 ^ n) in *. set (rb := b mod 2 ^ n) in *.
    pose proof (Z.mod_pos_bound a (2 ^ n) Hp) as Hra. fold ra in Hra.
    destruct (Z.eqb_spec ra 0), (Z.eqb_spec rb 0),
      (Z.compare_spec ra (2 ^ (n - 1))), (Z.compare_spec rb (2 ^ (n - 1)));
      destruct (Z.even q); lia.
  - pose proof (rne_bounds a n). pose proof (rne_bounds b n). lia.
Qed.

Lemma Zdigits2_mono (a b : Z) : 0 < a ≤ b → Zdigits2 a ≤ Zdigits2 b.
Proof.
  intros [Ha Hab].
  destruct (Zdigits2_bounds a Ha) as [Hda Hba].
  destruct (Zdigits2_bounds b ltac:(lia)) as [Hdb Hbb].
  assert (Zdigits2 a - 1 < Zdigits2 b); [|lia].
  apply (Z.pow_lt_mono_r_iff 2); lia.
Qed.

Lemma R64_mono (a b : Z) : 0 < a ≤ b → R64 a ≤ R64 b.
Proof.
  intros [Ha Hab].
  pose proof (Zdigits2_mono a b (conj Ha Hab)) as Hd.
  destruct (Zdigits2_bounds a Ha) as [Hda Hba].
  destruct (Zdigits2_bounds b ltac:(lia)) as [Hdb Hbb].
  unfold R64, shift64.
  set (na := Z.max (Zdigits2 a - 53) 0). set (nb := Z.max (Zdigits2 b - 53) 0).
  assert (Hna : 0 ≤ na ≤ nb) by (subst na nb; lia).
  assert (Hpa := pow2_pos na ltac:(lia)). assert (Hpb := pow2_pos nb ltac:(lia)).
  destruct (Z.eq_dec na nb) as [Heq|Hne].
  - rewrite Heq. apply Z.mul_le_mono_nonneg_r; [lia|]. apply rne_mono; lia.
  - (* fewer digits: a stays below a power of two that b reaches *)
    assert (Hua : rne a na * 2 ^ na ≤ 2 ^ (na + 53)).
    { rewrite Z.pow_add_r by lia.
      destruct (Z.eq_dec na 0) as [H0|H0].
      - rewrite H0, rne_0. cbn [Z.pow Z.add].
        assert (2 ^ Zdigits2 a ≤ 2 ^ 53) by (apply Z.pow_le_mono_r; lia). lia.
      - assert (a / 2 ^ na < 2 ^ 53).
        { apply Z.div_lt_upper_bound; [lia|]. rewrite <- Z.pow_add_r by lia.
          replace (na + 53) with (Zdigits2 a) by lia. lia. }
        pose proof (rne_bounds a na). nia. }
    assert (Hlb : 2 ^ (nb + 52) ≤ rne b nb * 2 ^ nb).
    { rewrite Z.pow_add_r by lia.
      assert (2 ^ 52 ≤ b / 2 ^ nb).
      { apply Z.div_le_lower_bound; [lia|]. rewrite <- Z.pow_add_r by lia.
        replace (nb + 52) with (Zdigits2 b - 1) by lia. lia. }
      pose proof (rne_bounds b nb). nia. }
    assert (2 ^ (na + 53) ≤ 2 ^ (nb + 52)) by (apply Z.pow_le_mono_r; lia).
    lia.
Qed.

Lemma float64_of_Z_mono (a b : Z) :
  0 < a ≤ b → b < 2 ^ 64 →
  ∃ mx ex my ey,
    float64_of_Z a = S754_finite false mx ex ∧
    float64_of_Z b = S754_finite false my ey ∧
    dle (Zpos mx) ex (Zpos my) ey.
Proof.
  intros Hab Hb.
  destruct (float64_of_Z_value a ltac:(lia)) as (mx & ex & Hx & Hex & Hvx).
  destruct (float64_of_Z_value b ltac:(lia)) as (my & ey & Hy & Hey & Hvy).
  exists mx, ex, my, ey. split; [exact Hx|]. split; [exact Hy|].
  exists (-52). split; [lia|]. split; [lia|].
  replace (ex - -52) with (ex + 52) by lia. replace (ey - -52) with (ey + 52) by lia.
  rewrite Hvx, Hvy. apply Z.mul_le_mono_nonneg_r; [lia|]. now apply R64_mono.
Qed.

(** ** The percentage *)

Lemma percent_le_100 (part whole : Z) :
  0 ≤ part ≤ whole → 0 < whole < 2 ^ 64 → le_int (percent part whole) 100.
Proof.
  intros Hp Hw. unfold percent. apply mul_100_le.
  destruct (Z.eq_dec part 0) as [->|Hne].
  - destruct (float64_of_Z_value whole Hw) as (my & ey & -> & _).
    cbn. lia.
  - destruct (float64_of_Z_mono part whole ltac:(lia) ltac:(lia))
      as (mx & ex & my & ey & -> & -> & Hle).
    now apply div_le_one.
Qed.

(** ** Values as rationals *)

Lemma Qpow2_nonneg (k : Z) : 0 ≤ k → ((2 ^ k)%Q == inject_Z (2 ^ k))%Q.
Proof. intros Hk. symmetry. apply (Zpower_Qpower 2 k Hk). Qed.

Lemma le_int_Q (f : float64) (j : Z) :
  le_int f j → ∃ q, SF2Q f = Some q ∧ (0 <= q <= inject_Z j)%Q.
Proof.
  destruct f as [s| | |[] m e]; cbn [le_int SF2Q]; try contradiction.
  - intros Hj. exists 0%Q. split; [reflexivity|]. split; [apply Qle_refl|].
    change (inject_Z 0 <= inject_Z j)%Q. now rewrite <- Zle_Qle.
  - intros H. eexists. split; [reflexivity|].
    assert (Hpos : (0 < 2 ^ e)%Q) by (apply Qpower_0_lt; reflexivity).
    split.
    + rewrite Qmult_1_l. apply Qmult_le_0_compat; [|apply Qlt_le_weak, Hpos].
      change (inject_Z 0 <= inject_Z (Zpos m))%Q. now rewrite <- Zle_Qle.
    + rewrite Qmult_1_l.
      set (c := Z.min e 0).
      pose proof (dle_at _ _ _ _ c H ltac:(lia) ltac:(lia)) as Hc.
      assert (Hpc : (0 < 2 ^ (- c))%Q) by (apply Qpower_0_lt; reflexivity).
      apply (Qmult_le_r _ _ _ Hpc).
      rewrite <- Qmult_assoc, <- Qpower_plus by discriminate.
      rewrite !Qpow2_nonneg by lia.
      rewrite <- !inject_Z_mult, <- Zle_Qle.
      replace (e + - c) with (e - c) by lia. replace (- c) with (0 - c) by lia.
      exact Hc.
Qed.

(** C9 (amended): for every HostStats whose MemoryFree and DiskFree are at
    most MemoryTotal and DiskTotal, the totals being positive uint64
    values, the percentages [memP] and [diskP] that [HostStats.String]
    computes in [float64] denote numbers of the interval [0, 100]. *)
Theorem free_percent_in_range (s : HostStats) :
  0 ≤ MemoryFree s ≤ MemoryTotal s → 0 < MemoryTotal s ≤ uint64_max →
  0 ≤ DiskFree s ≤ DiskTotal s → 0 < DiskTotal s ≤ uint64_max →
  in_percent_range (memP s) ∧ in_percent_range (diskP s).
Proof.
  unfold uint64_max. intros Hmf Hmt Hdf Hdt.
  split; apply (le_int_Q _ 100); apply percent_le_100; lia.
Qed.

(** C9 as stated fails: with totals above zero, 2 bytes free of 1 give
    the percentage 200. *)
Lemma free_percent_above_100 :
  0 < MemoryTotal host_free_exceeds_total ∧ 0 < DiskTotal host_free_exceeds_total ∧
  memP host_free_exceeds_total = float64_of_Z 200 ∧
  ¬ in_percent_range (memP host_free_exceeds_total).
Proof.
  split; [reflexivity|]. split; [reflexivity|]. split; [vm_compute; reflexivity|].
  intros (q & Hq & _ & Hle). vm_compute in Hq. injection Hq as <-.
  vm_compute in Hle. apply Hle. reflexivity.
Qed.

Lemma free_percent_in_range_witness :
  in_percent_range (memP (Host healthy_report)) ∧
  in_percent_range (diskP (Host healthy_report)).
Proof. apply free_percent_in_range; vm_compute; split; congruence. Defined.

(** * Properties of the program *)

(** ** Running a computation *)

Lemma trace_bind {A B} (m : M A) (k : A → M B) :
  trace (m ≫= k) =
  trace m ++ match outcome m with Done a => trace (k a) | Panicked _ => [] end.
Proof.
  destruct m as [t [a|p]]; cbn; [destruct (k a); reflexivity|].
  symmetry; apply app_nil_r.
Qed.

Lemma outcome_bind {A B} (m : M A) (k : A → M B) :
  outcome (m ≫= k) =
  match outcome m with Done a => outcome (k a) | Panicked p => Panicked p end.
Proof. destruct m as [t [a|p]]; cbn; [destruct (k a)|]; reflexivity. Qed.

(** The scrutinee on which a computation waits: the next answer of the
    world, or the next value whose shape decides the run. *)
Ltac find_stuck t :=
  lazymatch t with
  | match ?x with _ => _ end => find_stuck x
  | ?m ≫= _ => find_stuck m
  | _ => t
  end.

Ltac run_step :=
  lazymatch goal with
  | |- ?P ?m =>
      let x := find_stuck m in
      lazymatch x with
      | (_, _) => fail
      | _ => destruct x eqn:?
      end
  end.

Ltac run_simpl :=
  cbn [mbind mret M_bind M_ret emit panic trace outcome fst snd app negb].

(** Case analysis along the run, in program order. *)
Ltac run_cases := run_simpl; repeat (run_step; run_simpl).

Ltac unfold_node :=
  unfold collectNodeStats, queryVersion, queryStatus, queryNode, queryBalance,
    client_Get, client_Do, assert_map, assert_string, assert_bool,
    assert_float64, assert_map_ok.

Ltac unfold_cycle :=
  unfold collectAndSend, collectStats, collectHostStats, sendStats, http_NewRequest;
  unfold_node.

Ltac use_answers :=
  repeat match goal with
  | E : Decode _ _ = _ |- _ => rewrite E in *; clear E
  end.

Ltac use_eqs :=
  repeat match goal with
  | E : w_Do _ _ = _ |- _ => rewrite E; clear E
  | E : Decode _ _ = _ |- _ => rewrite E; clear E
  | E : index _ _ = _ |- _ => rewrite E; clear E
  end.

(** ** The local queries *)

(** C10: queryStatus, queryNode and queryBalance never look at the status
    code: whatever the code of the response, a body that decodes into the
    map is returned as a success. *)
Theorem query_ignores_status_code (w : World) (addr : string) (code : Z)
    (text : string) (j : json) (m : gmap string value) :
  decode_map j = inl m →
  let r := {| StatusCode := code; Body := text; BodyJSON := Some j |} in
  (w_Do w status_request = inl r → outcome (queryStatus w) = Done (m, None)) ∧
  (w_Do w (node_request addr) = inl r → outcome (queryNode w addr) = Done (m, None)) ∧
  (w_Do w (balance_request addr) = inl r → outcome (queryBalance w addr) = Done (m, None)).
Proof.
  intros Hj r.
  unfold queryStatus, queryNode, queryBalance, client_Get, client_Do.
  fold status_url node_url balance_url.
  fold status_request (node_request addr) (balance_request addr).
  repeat split; intros ->; cbn; rewrite Hj; reflexivity.
Qed.

(** A node that answers 500 with JSON bodies is read as healthy. *)
Lemma query_ignores_status_code_witness :
  outcome (queryStatus world_node_500) =
    Done (reply_map world_node_500 status_request, None) ∧
  outcome (queryNode world_node_500 "abc123") =
    Done (reply_map world_node_500 (node_request "abc123"), None) ∧
  outcome (queryBalance world_node_500 "abc123") =
    Done (reply_map world_node_500 (balance_request "abc123"), None).
Proof.
  split; [|split].
  - refine (proj1 (query_ignores_status_code world_node_500 "abc123" 500 "<status>"
      (status_doc "abc123" "alice" "1000000") _ _) _); reflexivity.
  - refine (proj1 (proj2 (query_ignores_status_code world_node_500 "abc123" 500 "<node>"
      (node_doc "pk01") _ _)) _); reflexivity.
  - refine (proj2 (proj2 (query_ignores_status_code world_node_500 "abc123" 500 "<balance>"
      balance_doc _ _)) _); reflexivity.
Defined.

(** ** The node-status read *)

(** Whenever the /status document has a result with a well-formed
    [node_info] and no [sync_info], the read ends in a panic: the type
    assertion on [status["sync_info"]] is unchecked. *)
Lemma missing_sync_info_panics (w : World) (r1 r2 : Response) (ver : string)
    (resp status nodeInfo : gmap string value) (id moniker : string) :
  w_Do w version_request = inl r1 → Decode decode_string r1 = inl ver →
  w_Do w status_request = inl r2 → Decode decode_map r2 = inl resp →
  resp !! "result" = Some (VMap status) →
  status !! "node_info" = Some (VMap nodeInfo) →
  nodeInfo !! "id" = Some (VString id) →
  nodeInfo !! "moniker" = Some (VString moniker) →
  status !! "sync_info" = None →
  outcome (collectNodeStats w) = Panicked (TypeAssertionFailed "map[string]interface {}").
Proof.
  intros H1 D1 H2 D2 Hres Hni Hid Hmon Hsync.
  unfold_node. fold version_url status_url. fold version_request status_request.
  rewrite H1, H2. run_simpl. rewrite D1, D2. run_simpl.
  unfold index. rewrite Hres. run_simpl.
  rewrite Hni. run_simpl. rewrite Hid, Hmon, Hsync. reflexivity.
Qed.

(** C1 (the code departs from the claim): on a /status payload without
    [sync_info], collectNodeStats makes its first two calls and then
    panics on the type assertion; it returns no error. *)
Theorem status_without_sync_info_panics :
  collectNodeStats world_no_sync_info =
    ([EvDo version_request (reply 200 "<version>" (JString "RC-0.6.0"));
      EvDo status_request (reply 200 "<status>" status_doc_no_sync_info)],
     Panicked (TypeAssertionFailed "map[string]interface {}")).
Proof. vm_compute. reflexivity. Qed.

Lemma split_cons_inv {A} (x : A) (l t1 t2 : list A) (e : A) :
  x :: l = t1 ++ e :: t2 →
  (t1 = [] ∧ e = x ∧ t2 = l) ∨ ∃ t1', t1 = x :: t1' ∧ l = t1' ++ e :: t2.
Proof.
  destruct t1 as [|y t1]; cbn; intros H; injection H as -> ->; eauto.
Qed.

Ltac split_trace H :=
  repeat match type of H with
  | _ :: _ = _ ++ _ :: _ =>
      apply split_cons_inv in H; destruct H as [(-> & -> & ->)|(? & -> & H)]
  | [] = _ ++ _ :: _ => destruct (app_cons_not_nil _ _ _ H)
  end.

(** C4 (amended): the node-status read makes its calls in the fixed order
    version, status, node-info, balance, none after a call that failed,
    and all four when it succeeds; the version and status calls are GETs,
    the node-info and balance calls are POSTs. *)
Theorem node_read_calls (w : World) :
  calls (trace (collectNodeStats w)) `prefix_of` node_calls ∧
  (∀ t1 e t2, trace (collectNodeStats w) = t1 ++ e :: t2 →
              rpc_failed e = true → calls t2 = []) ∧
  (∀ s, outcome (collectNodeStats w) = Done (s, None) →
        calls (trace (collectNodeStats w)) = node_calls ∧
        existsb rpc_failed (trace (collectNodeStats w)) = false).
Proof.
  change (node_run_ok (collectNodeStats w)).
  unfold_node. run_cases.
  all: unfold node_run_ok; run_simpl.
  all: split; [cbn; try (eexists; reflexivity)|].
  all: split; [|intros ?; try discriminate].
  all: try (intros ? ? ? Ht Hf; split_trace Ht; try reflexivity; cbn in Hf;
            use_answers; discriminate).
  all: intros _; split; [reflexivity|cbn; use_answers; reflexivity].
Qed.

Lemma node_read_calls_witness :
  calls (trace (collectNodeStats healthy_world)) = node_calls ∧
  existsb rpc_failed (trace (collectNodeStats healthy_world)) = false.
Proof.
  refine (proj2 (proj2 (node_read_calls healthy_world)) _ _).
  vm_compute. reflexivity.
Defined.

(** C4 as stated fails: in a read that succeeds, the version query is a
    GET, so the calls are not the ones the claim lists. *)
Lemma version_query_is_a_GET :
  (∃ s, outcome (collectNodeStats healthy_world) = Done (s, None)) ∧
  hd_error (calls (trace (collectNodeStats healthy_world))) = Some ("GET", version_url) ∧
  calls (trace (collectNodeStats healthy_world)) ≠ node_calls_as_claimed.
Proof.
  split; [eexists; vm_compute; reflexivity|].
  split; [vm_compute; reflexivity|].
  vm_compute. intros H. inversion H.
Qed.

Lemma ParseUint_loop_bounds (s : string) (n z : Z) :
  0 ≤ n → ParseUint_loop s n = inl z → 0 ≤ z.
Proof.
  revert n; induction s as [|c s IH]; cbn; intros n Hn.
  - intros [= <-]; exact Hn.
  - unfold digit_of.
    destruct (in_range 48 57 c) eqn:Hd; [|discriminate].
    unfold in_range in Hd.
    apply andb_true_iff in Hd as [Hlo _]. apply Z.leb_le in Hlo.
    destruct (uint64_max / 10 + 1 <=? n); [discriminate|].
    destruct (uint64_max <? n * 10 + (byte_of c - 48)); [discriminate|].
    apply IH. lia.
Qed.

Lemma ParseUint_nonneg (s : string) (z : Z) : ParseUint s = inl z → 0 ≤ z.
Proof.
  destruct s; [discriminate|]. unfold ParseUint. now apply ParseUint_loop_bounds.
Qed.

(** What [ParseInt] returns without error is an int64. *)
Lemma ParseInt_range (s : string) (z : Z) :
  ParseInt s = (z, None) → int64_min ≤ z ≤ int64_max.
Proof.
  unfold ParseInt. destruct s as [|c s]; [discriminate|].
  set (digits := if Ascii.eqb c "+" || Ascii.eqb c "-" then s else String c s).
  cbv zeta.
  destruct (ParseUint digits) as [un|[|]] eqn:Hu; [|discriminate|].
  - apply ParseUint_nonneg in Hu.
    destruct (Ascii.eqb c "-"); cbn [negb andb].
    + destruct (2 ^ 63 <? un) eqn:Hc; [discriminate|].
      apply Z.ltb_ge in Hc. intros [= <-]. unfold int64_min, int64_max. lia.
    + destruct (2 ^ 63 <=? un) eqn:Hc; [discriminate|].
      apply Z.leb_gt in Hc. intros [= <-]. unfold int64_min, int64_max. lia.
  - assert (H1 : (2 ^ 63 <=? uint64_max) = true) by reflexivity.
    assert (H2 : (2 ^ 63 <? uint64_max) = true) by reflexivity.
    rewrite H1, H2.
    destruct (Ascii.eqb c "-"); cbn [negb andb]; discriminate.
Qed.

(** C5 (amended): a NodeStats returned without error carries the fields
    the node reported: its address is [result.node_info.id] of the
    /status reply, its height is what ParseInt reads from
    [result.sync_info.latest_block_height] (an int64, negative when the
    string is), and its public key is [public_key] of the node reply;
    none of them is checked further. *)
Theorem node_read_fields (w : World) (s : NodeStats) :
  outcome (collectNodeStats w) = Done (s, None) →
  let status := VMap (reply_map w status_request) in
  at_path ["result"; "node_info"; "id"] status = VString (Address s) ∧
  (∃ h, at_path ["result"; "sync_info"; "latest_block_height"] status = VString h ∧
        ParseInt h = (Height s, None)) ∧
  at_path ["public_key"] (VMap (reply_map w (node_request (Address s)))) =
    VString (PublicKey s) ∧
  int64_min ≤ Height s ≤ int64_max.
Proof.
  revert s. change (node_fields_reported w (collectNodeStats w)).
  unfold_node. run_cases.
  all: unfold node_fields_reported; run_simpl; intros ?; try discriminate.
  intros [= <-]. cbn [Address Height PublicKey set_Balance set_ServiceUrl set_Jailed
    set_PublicKey set_CatchingUp set_LatestBlockTime set_Height set_Moniker
    set_Address set_AppVersion set_Chain NodeStats_zero] in *.
  unfold reply_map, status_request, node_request, status_url, node_url; cbn [at_path].
  use_eqs. cbn [at_path]. use_eqs.
  repeat split; try reflexivity.
  - eexists; split; [reflexivity|eassumption].
  - eapply ParseInt_range; eassumption.
  - eapply ParseInt_range; eassumption.
Qed.

Lemma node_read_fields_witness :
  ∃ s, outcome (collectNodeStats healthy_world) = Done (s, None) ∧
       Address s = "abc123" ∧ int64_min ≤ Height s ≤ int64_max.
Proof.
  eexists. split; [vm_compute; reflexivity|]. split; [reflexivity|].
  refine (proj2 (proj2 (proj2 (node_read_fields healthy_world _ _)))).
  vm_compute. reflexivity.
Defined.

(** C5 as stated fails: a node that reports height "-1" and empty id and
    public key yields a NodeStats with a negative height and empty
    address and public key, without error. *)
Lemma negative_height_accepted :
  ∃ s, outcome (collectNodeStats world_negative_height) = Done (s, None) ∧
       Height s = -1 ∧ Address s = "" ∧ PublicKey s = "".
Proof. eexists. vm_compute. repeat split; reflexivity. Qed.

(** ** The cycle *)

(** C2: a cycle in which a call to the local node failed, in transport or
    in decoding, makes no call to the collector: collectAndSend logs the
    collection error and returns. *)
Theorem failed_rpc_sends_nothing (w : World) (node key : string) :
  existsb rpc_failed (trace (collectAndSend w node key)) = true →
  existsb collector_call (trace (collectAndSend w node key)) = false ∧
  outcome (collectAndSend w node key) = Done tt ∧
  ∃ err, last (trace (collectAndSend w node key)) =
           Some (EvLog (LogErr "Err collecting stats:" err)).
Proof.
  change (fails_fast (collectAndSend w node key)).
  unfold_cycle. run_cases.
  all: unfold fails_fast; run_simpl; intros Hf; cbn in Hf; use_answers;
       try discriminate Hf.
  all: split; [reflexivity|split; [reflexivity|eexists; reflexivity]].
Qed.

Lemma failed_rpc_sends_nothing_witness :
  existsb rpc_failed (trace (collectAndSend world_node_down "node-1" "key-1")) = true ∧
  existsb collector_call (trace (collectAndSend world_node_down "node-1" "key-1")) = false.
Proof.
  split; [vm_compute; reflexivity|].
  refine (proj1 (failed_rpc_sends_nothing world_node_down "node-1" "key-1" _)).
  vm_compute. reflexivity.
Defined.

(** C3: once sendStats received a response, it succeeds exactly when the
    status code is below 400; from 400 on it returns the error whose text
    is the status code, a space, the body and a newline. *)
Theorem sendStats_by_status_code (w : World) (node key : string) (s : Stats)
    (req : Request) (resp : Response) :
  In (EvDo req (inl resp)) (trace (sendStats w node key s)) →
  (outcome (sendStats w node key s) = Done None ↔ StatusCode resp < 400) ∧
  (400 ≤ StatusCode resp →
   outcome (sendStats w node key s) =
     Done (Some (errorString
       (itoa (StatusCode resp) +:+ " " +:+ Body resp +:+ newline)))).
Proof.
  unfold sendStats, http_NewRequest, client_Do.
  destruct (Marshal s) as [data|e]; [|intros []].
  destruct (w_URLParses w (getUrl node)); [|intros []].
  run_simpl.
  match goal with |- context [w_Do w ?r] => destruct (w_Do w r) as [r0|e] end;
    run_simpl.
  - destruct (399 <? StatusCode r0) eqn:Hc; run_simpl; cbn [In];
      (intros [H|[]]); injection H as _ ->;
      [apply Z.ltb_lt in Hc|apply Z.ltb_ge in Hc].
    + split; [split; [discriminate|intros; lia]|reflexivity].
    + split; [split; [intros _; lia|reflexivity]|intros; lia].
  - cbn [In]. intros [H|[]]. discriminate H.
Qed.

Lemma sendStats_by_status_code_witness :
  outcome (sendStats world_rejected "node-1" "key-1" healthy_report) =
    Done (Some (rejection 500 "boom")) ∧
  outcome (sendStats healthy_world "node-1" "key-1" healthy_report) = Done None.
Proof.
  split.
  - refine (proj2 (sendStats_by_status_code world_rejected "node-1" "key-1"
      healthy_report _ {| StatusCode := 500; Body := "boom"; BodyJSON := None |} _) _).
    + left. vm_compute. reflexivity.
    + vm_compute. discriminate.
  - refine (proj2 (proj1 (sendStats_by_status_code healthy_world "node-1" "key-1"
      healthy_report _ {| StatusCode := 200; Body := "ok"; BodyJSON := None |} _)) _).
    + left. vm_compute. reflexivity.
    + vm_compute. reflexivity.
Defined.

Lemma collectHostStats_no_calls (w : World) : no_calls (collectHostStats w).
Proof. unfold collectHostStats. run_cases; reflexivity. Qed.

(** C7: collectStats reads the clock first; whatever it returns has
    version "v1" and the clock reading in RFC3339 as timestamp; the host
    read runs before the node read; an error of the host read is returned
    without any call to the node, an error of the node read is returned
    as it is, and on success the report holds both results. *)
Theorem collectStats_assembles (w : World) :
  hd_error (trace (collectStats w)) = Some EvNow ∧
  (∀ s err, outcome (collectStats w) = Done (s, err) →
     Version s = "v1" ∧ Timestamp s = Format_RFC3339 (w_Now w)) ∧
  (∃ rest, trace (collectStats w) = EvNow :: trace (collectHostStats w) ++ rest ∧
     ∀ hs, outcome (collectHostStats w) = Done (hs, None) →
       ∃ log, rest = trace (collectNodeStats w) ++ log ∧ calls log = []) ∧
  (∀ hs e, outcome (collectHostStats w) = Done (hs, Some e) →
     (∃ s, outcome (collectStats w) = Done (s, Some e)) ∧
     calls (trace (collectStats w)) = []) ∧
  (∀ hs ns e, outcome (collectHostStats w) = Done (hs, None) →
     outcome (collectNodeStats w) = Done (ns, Some e) →
     ∃ s, outcome (collectStats w) = Done (s, Some e)) ∧
  (∀ hs ns, outcome (collectHostStats w) = Done (hs, None) →
     outcome (collectNodeStats w) = Done (ns, None) →
     ∃ s, outcome (collectStats w) = Done (s, None) ∧ Host s = hs ∧ Node s = ns).
Proof.
  pose proof (collectHostStats_no_calls w) as Hhost. unfold no_calls in Hhost.
  unfold collectStats. run_simpl.
  destruct (collectHostStats w) as [th [[hs [eh|]]|ph]]; run_simpl.
  - cbn [trace fst] in Hhost.
    split; [reflexivity|]. split; [intros s err [= <- <-]; split; reflexivity|].
    split; [eexists; split; [reflexivity|intros ? [=]]|].
    split; [intros ? ? [= <- <-]; split; [eexists; reflexivity|]|].
    { unfold calls in *. cbn. rewrite omap_app, Hhost. reflexivity. }
    split; intros; discriminate.
  - destruct (collectNodeStats w) as [tn [[ns [en|]]|pn]]; run_simpl.
    + split; [reflexivity|]. split; [intros s err [= <- <-]; split; reflexivity|].
      split; [eexists; split; [reflexivity|intros ? _; eexists; split; [reflexivity|reflexivity]]|].
      split; [intros ? ? [=]|].
      split; [intros ? ? ? _ [= <- <-]; eexists; reflexivity|intros ? ? _ [=]].
    + split; [reflexivity|]. split; [intros s err [= <- <-]; split; reflexivity|].
      split; [eexists; split; [reflexivity|intros ? _; eexists; split; [reflexivity|reflexivity]]|].
      split; [intros ? ? [=]|].
      split; [intros ? ? ? _ [=]|intros ? ? [= <-] [= <-]; eexists; repeat split; reflexivity].
    + split; [reflexivity|]. split; [intros s err [=]|].
      split; [eexists; split; [reflexivity|intros ? _; exists []; split; [|reflexivity]]|].
      { symmetry; apply app_nil_r. }
      split; [intros ? ? [=]|].
      split; intros; discriminate.
  - split; [reflexivity|]. split; [intros s err [=]|].
    split; [exists []; split; [rewrite app_nil_r; reflexivity|intros ? [=]]|].
    split; [intros ? ? [=]|]. split; intros; discriminate.
Qed.

Lemma collectStats_assembles_witness :
  ∃ s, outcome (collectStats healthy_world) = Done (s, None) ∧
       Version s = "v1" ∧ Timestamp s = "2021-03-07T09:05:00Z".
Proof.
  eexists. split; [vm_compute; reflexivity|].
  refine (proj1 (proj2 (collectStats_assembles healthy_world)) _ None _).
  vm_compute. reflexivity.
Defined.

(** ** The loop *)

(** As long as no cycle panics, the loop runs one cycle per tick taken and
    stops only on cancellation. *)
Lemma loop_without_panic (ws : nat → World) (node key : string)
    (sel : list select_case) (n : nat) :
  (∀ i, returns (collectAndSend (ws i) node key)) →
  loop ws node key n sel =
    (cycle_trace ws node key <$> seq n (ticks_before_done sel),
     if cancelled sel then Returned else Blocked).
Proof.
  intros Hret. revert n; induction sel as [|[|] sel IH]; intros n;
    cbn [loop ticks_before_done cancelled seq fmap list_fmap]; try reflexivity.
  destruct (Hret n) as [a Ha]. unfold cycle_trace at 1.
  destruct (collectAndSend (ws n) node key) as [t [[]|p]]; [|discriminate Ha].
  rewrite IH. reflexivity.
Qed.

(** As long as no cycle panics, [start] runs one cycle before any tick and
    one more per tick, after setting the ticker to three minutes. *)
Lemma start_without_panic (ws : nat → World) (node key : string) (daemon : bool)
    (sel : list select_case) :
  (∀ i, returns (collectAndSend (ws i) node key)) →
  snd (start ws node key daemon sel) = (if cancelled sel then Returned else Blocked) ∧
  snd (fst (start ws node key daemon sel)) =
    cycle_trace ws node key <$> seq 0 (1 + ticks_before_done sel) ∧
  In (EvNewTicker (3 * 60 * 10 ^ 9)) (fst (fst (start ws node key daemon sel))).
Proof.
  intros Hret. unfold start.
  destruct (Hret 0%nat) as [a Ha]. cbn [seq Nat.add fmap list_fmap]. unfold cycle_trace at 1.
  destruct (collectAndSend (ws 0%nat) node key) as [t [[]|p]]; [|discriminate Ha].
  rewrite loop_without_panic by assumption. cbn [fst snd].
  repeat split. right. left. reflexivity.
Qed.

(** C8 (the code departs from the claim): the first cycle runs before any
    tick and the next on the first tick; when the node then answers
    /status without [sync_info] that cycle panics, and the loop is over
    with two ticks pending and no cancellation. *)
Theorem loop_ends_on_malformed_status :
  let run := start worlds_malformed_second "node-1" "key-1" false
               [TickerC; TickerC; TickerC] in
  snd run = Crashed (TypeAssertionFailed "map[string]interface {}") ∧
  length (snd (fst run)) = 2%nat ∧
  cancelled [TickerC; TickerC; TickerC] = false.
Proof. vm_compute. repeat split; reflexivity. Qed.

(** ** Serialisation *)

Lemma coerce_valid (s : string) (skip : nat) :
  valid_from skip s = true → coerce_from skip s = s.
Proof.
  revert skip; induction s as [|c s IH]; intros skip; cbn; [reflexivity|].
  destruct skip as [|k].
  - destruct (rune_size c s) as [n|]; [|discriminate].
    intros H. now rewrite IH.
  - intros H. now rewrite IH.
Qed.

(** The encoder leaves valid UTF-8 as it is. *)
Lemma toValidUTF8_valid (s : string) :
  utf8_ValidString s = true → toValidUTF8 s = s.
Proof. apply coerce_valid. Qed.

Lemma dec_elems_Marshal (l old : list string) :
  forallb utf8_ValidString l = true →
  dec_elems (Marshal_string <$> l) old = inl l.
Proof.
  revert old; induction l as [|x l IH]; intros old; cbn; [reflexivity|].
  intros H. apply andb_true_iff in H as [Hx Hl].
  unfold Marshal_string. rewrite (toValidUTF8_valid x Hx), (IH _ Hl). reflexivity.
Qed.

(** C6 (amended): for every report whose integer fields hold values of
    their Go types (int64 for the height, uint64 for the host counters),
    whose strings are valid UTF-8 and whose float64 fields are finite,
    serialising it and decoding the document into a fresh Stats gives back
    the same report, field by field. *)
Theorem report_roundtrip (s : Stats) :
  well_typed s = true → serializable s = true → roundtrip s = inl s.
Proof.
  destruct s as [version timestamp
    [chain app moniker height lbt cu balance chains jailed surl addr pk]
    [mt mf dt df up platform cpu]].
  unfold well_typed, serializable, in_uint64, in_int64.
  cbn [Version Timestamp Node Host Chain AppVersion Moniker Height LatestBlockTime
       CatchingUp Balance Chains Jailed ServiceUrl Address PublicKey MemoryTotal
       MemoryFree DiskTotal DiskFree Uptime Platform CPUUsagePercent].
  intros Ht Hs.
  repeat match goal with
  | H : _ && _ = true |- _ => apply andb_true_iff in H as [? ?]
  end.
  unfold roundtrip, Marshal, Marshal_NodeStats, Marshal_HostStats, Marshal_float64,
    Marshal_string, Marshal_int.
  cbn [Version Timestamp Node Host Chain AppVersion Moniker Height LatestBlockTime
       CatchingUp Balance Chains Jailed ServiceUrl Address PublicKey MemoryTotal
       MemoryFree DiskTotal DiskFree Uptime Platform CPUUsagePercent].
  repeat match goal with
  | H : is_finite64 _ = true |- _ => rewrite H
  | H : utf8_ValidString _ = true |- _ => rewrite (toValidUTF8_valid _ H); clear H
  end.
  unfold Unmarshal, Unmarshal_struct, Stats_fields, NodeStats_fields, HostStats_fields,
    Stats_zero.
  destruct chains as [l|]; cbn [valid_strings] in *; cbn;
    unfold number_to_float64;
    repeat match goal with
    | H : (_ <=? _) = true |- _ => rewrite H; clear H
    | H : is_finite64 _ = true |- _ => rewrite H; clear H
    end; cbn; rewrite ?dec_elems_Marshal by assumption; reflexivity.
Qed.

Lemma report_roundtrip_witness : roundtrip healthy_report = inl healthy_report.
Proof. apply report_roundtrip; reflexivity. Defined.

(** C6 as stated fails: a platform name that is the byte 0xFF comes back
    as U+FFFD, and a report whose balance is NaN does not serialise. *)
Lemma roundtrip_changes_invalid_utf8 :
  well_typed report_invalid_utf8 = true ∧
  (∃ s, roundtrip report_invalid_utf8 = inl s ∧
        Platform (Host s) = replacement ∧
        Platform (Host s) ≠ Platform (Host report_invalid_utf8)) ∧
  (∃ e, roundtrip report_nan = inr e).
Proof.
  split; [reflexivity|]. split.
  - eexists. split; [vm_compute; reflexivity|]. split; [reflexivity|discriminate].
  - eexists. vm_compute. reflexivity.
Qed.

(** * Further properties of the program *)

(** ** The host read *)

(** X1: the host read asks gopsutil for the virtual memory, the usage of
    the root path ("\" on windows, "/" elsewhere), the CPU percentage and
    the host information, in this order, and asks nothing more once a
    reading failed; an error that it returns is the one of its last
    reading, and it has made all four readings when it returns no error. *)
Theorem host_read_order (w : World) :
  trace (collectHostStats w) `prefix_of` host_reads w ∧
  (∀ t1 e t2, trace (collectHostStats w) = t1 ++ e :: t2 → t2 ≠ [] →
              reading_error w e = None) ∧
  (∀ s err, outcome (collectHostStats w) = Done (s, Some err) →
     ∃ e, last (trace (collectHostStats w)) = Some e ∧ reading_error w e = Some err) ∧
  (∀ s, outcome (collectHostStats w) = Done (s, None) →
     trace (collectHostStats w) = host_reads w).
Proof.
  change (host_run_ok w (collectHostStats w)).
  unfold collectHostStats. fold (disk_path w). run_cases.
  all: unfold host_run_ok, host_reads; run_simpl.
  all: split; [cbn; try (eexists; reflexivity)|].
  all: split; [intros ? ? ? Ht Hn; split_trace Ht; try (cbn [reading_error];
         repeat match goal with E : _ = _ |- _ => rewrite E end; reflexivity);
         try (exfalso; apply Hn; reflexivity)|].
  all: split; [intros ? ? [= <- <-] || (intros ? ? ?; discriminate)|].
  all: try (intros ? [=]; fail).
  all: try reflexivity.
  all: try (eexists; split; [reflexivity|cbn [reading_error];
         repeat match goal with E : _ = _ |- _ => rewrite E end; reflexivity]).
  all: try (intros ? ?; discriminate).
Qed.

Lemma host_read_order_witness :
  trace (collectHostStats healthy_world) = host_reads healthy_world.
Proof.
  refine (proj2 (proj2 (proj2 (host_read_order healthy_world))) (Host healthy_report) _).
  vm_compute. reflexivity.
Defined.

(** X2: the host read returns a record without error exactly when the four
    readings succeed and the CPU sample is not empty; the record then holds
    the total and the available memory, the total and the free space of the
    root path, the first CPU percentage, the platform and the uptime. *)
Theorem host_read_success (w : World) (s : HostStats) :
  outcome (collectHostStats w) = Done (s, None) ↔
  ∃ vm du p ps hi,
    w_VirtualMemory w = inl vm ∧ w_DiskUsage w (disk_path w) = inl du ∧
    w_CpuPercent w = inl (p :: ps) ∧ w_HostInfo w = inl hi ∧
    s = {| MemoryTotal := vm_Total vm; MemoryFree := vm_Available vm;
           DiskTotal := du_Total du; DiskFree := du_Free du;
           Uptime := hi_Uptime hi; Platform := hi_Platform hi;
           CPUUsagePercent := p |}.
Proof.
  unfold collectHostStats. fold (disk_path w). split.
  - destruct (w_VirtualMemory w) as [vm|]; run_simpl; [|discriminate].
    destruct (w_DiskUsage w (disk_path w)) as [du|]; run_simpl; [|discriminate].
    destruct (w_CpuPercent w) as [[|p ps]|]; run_simpl; try discriminate.
    destruct (w_HostInfo w) as [hi|]; run_simpl; [|discriminate].
    intros [= <-]. exists vm, du, p, ps, hi. repeat split; reflexivity.
  - intros (vm & du & p & ps & hi & -> & -> & -> & -> & ->). reflexivity.
Qed.

Lemma host_read_success_witness :
  outcome (collectHostStats healthy_world) = Done (Host healthy_report, None).
Proof.
  apply host_read_success. eexists _, _, _, _, _. repeat split; reflexivity.
Defined.

(** X3: when the CPU reading succeeds with an empty sample, the host read
    panics on [percentage[0]]; the cycle panics with it, before any call to
    the node or to the collector. *)
Theorem empty_cpu_sample_panics (w : World) (vm : VirtualMemoryStat) (du : UsageStat)
    (node key : string) :
  w_VirtualMemory w = inl vm → w_DiskUsage w (disk_path w) = inl du →
  w_CpuPercent w = inl [] →
  outcome (collectHostStats w) = Panicked (IndexOutOfRange 0 0) ∧
  outcome (collectAndSend w node key) = Panicked (IndexOutOfRange 0 0) ∧
  calls (trace (collectAndSend w node key)) = [].
Proof.
  intros Hvm Hdu Hcpu.
  unfold collectAndSend, collectStats, collectHostStats. fold (disk_path w).
  rewrite Hvm, Hdu, Hcpu. repeat split; reflexivity.
Qed.

Lemma empty_cpu_sample_panics_witness :
  outcome (collectAndSend world_no_cpu_sample "node-1" "key-1") =
    Panicked (IndexOutOfRange 0 0).
Proof.
  refine (proj1 (proj2 (empty_cpu_sample_panics world_no_cpu_sample
    {| vm_Total := 16 * 2 ^ 30; vm_Available := 4 * 2 ^ 30 |}
    {| du_Total := 100 * 10 ^ 9; du_Free := 40 * 10 ^ 9 |} "node-1" "key-1" _ _ _)));
    reflexivity.
Defined.

(** ** The node-status read, field by field *)

Lemma index_empty (k : string) : index ∅ k = VNil.
Proof. unfold index. rewrite lookup_empty. reflexivity. Qed.

Lemma read_off_replies_run (w : World) : reads_off_replies w (collectNodeStats w).
Proof.
  unfold_node. run_cases.
  all: unfold reads_off_replies; run_simpl; intros ?; try discriminate.
  intros [= <-]. unfold read_off_replies.
  cbn [Chain AppVersion Moniker Height LatestBlockTime CatchingUp Balance Chains
    Jailed ServiceUrl Address PublicKey set_Balance set_ServiceUrl set_Jailed
    set_PublicKey set_CatchingUp set_LatestBlockTime set_Height set_Moniker
    set_Address set_AppVersion set_Chain NodeStats_zero] in *.
  unfold version_reply, reply_map, version_request, status_request, node_request,
    balance_request, version_url, status_url, node_url, balance_url; cbn [at_path].
  use_eqs. cbn [at_path]. use_eqs. cbn [at_path]. use_eqs.
  repeat split; try reflexivity.
  eexists; split; [reflexivity|eassumption].
Qed.

Lemma at_path_map (k : string) (ks : list string) (m : gmap string value) :
  at_path (k :: ks) (VMap m) = at_path ks (index m k).
Proof. reflexivity. Qed.

Lemma read_off_replies_returns (w : World) (s : NodeStats) :
  read_off_replies w s → outcome (collectNodeStats w) = Done (s, None).
Proof.
  destruct s as [chain app moniker height lbt cu balance chains jailed surl addr pk].
  unfold read_off_replies.
  cbn [Chain AppVersion Moniker Height LatestBlockTime CatchingUp Balance Chains
    Jailed ServiceUrl Address PublicKey].
  intros (-> & -> & Hv & Hid & Hmon & (h & Hh & Hp) & Hlbt & Hcu & Hpk & Hj & Hsu & Hbal).
  unfold version_reply in Hv. unfold reply_map in *.
  destruct (w_Do w version_request) as [r1|] eqn:E1; [|discriminate].
  destruct (Decode decode_string r1) as [v|] eqn:D1; [|discriminate].
  injection Hv as ->.
  destruct (w_Do w status_request) as [r2|] eqn:E2;
    [|rewrite at_path_map, index_empty in Hid; discriminate].
  destruct (Decode decode_map r2) as [resp|] eqn:D2;
    [|rewrite at_path_map, index_empty in Hid; discriminate].
  rewrite at_path_map in Hid, Hmon, Hh, Hlbt, Hcu.
  destruct (index resp "result") as [| | | | |status] eqn:Hres; try discriminate.
  rewrite at_path_map in Hid, Hmon, Hh, Hlbt, Hcu.
  destruct (index status "node_info") as [| | | | |nodeInfo] eqn:Hni; try discriminate.
  destruct (index status "sync_info") as [| | | | |syncInfo] eqn:Hsi; try discriminate.
  cbn [at_path] in Hid, Hmon, Hh, Hlbt, Hcu.
  destruct (w_Do w (node_request addr)) as [r3|] eqn:E3;
    [|rewrite at_path_map, index_empty in Hpk; discriminate].
  destruct (Decode decode_map r3) as [nresp|] eqn:D3;
    [|rewrite at_path_map, index_empty in Hpk; discriminate].
  cbn [at_path] in Hpk, Hj, Hsu.
  destruct (w_Do w (balance_request addr)) as [r4|] eqn:E4;
    [|rewrite at_path_map, index_empty in Hbal; discriminate].
  destruct (Decode decode_map r4) as [bresp|] eqn:D4;
    [|rewrite at_path_map, index_empty in Hbal; discriminate].
  cbn [at_path] in Hbal.
  unfold_node. fold version_url status_url node_url balance_url.
  fold version_request status_request.
  rewrite E1, E2. run_simpl. rewrite D1, D2. run_simpl.
  rewrite Hres. run_simpl. rewrite Hni. run_simpl. rewrite Hid, Hmon, Hsi. run_simpl.
  rewrite Hh. run_simpl. rewrite Hp, Hlbt, Hcu. run_simpl.
  cbn [Address set_CatchingUp set_LatestBlockTime set_Height set_Moniker set_Address
    set_AppVersion set_Chain NodeStats_zero].
  fold (node_request addr). rewrite E3. run_simpl. rewrite D3. run_simpl.
  rewrite Hpk, Hj, Hsu. run_simpl.
  cbn [Address set_ServiceUrl set_Jailed set_PublicKey set_CatchingUp
    set_LatestBlockTime set_Height set_Moniker set_Address set_AppVersion set_Chain
    NodeStats_zero].
  fold (balance_request addr). rewrite E4. run_simpl. rewrite D4. run_simpl.
  rewrite Hbal. reflexivity.
Qed.

(** X4: the node-status read returns a record without error exactly when
    every field of the record is found, with its type, at its place in the
    replies of the node: the version in the reply to /v1, address, moniker,
    height (as an int64 numeral), block time and catching-up flag in the
    result of /status, public key, jailed flag and service URL in the reply
    of the node query, the balance in the reply of the balance query; the
    chain is always "pocket" and the list of chains always nil. *)
Theorem node_read_success (w : World) (s : NodeStats) :
  outcome (collectNodeStats w) = Done (s, None) ↔ read_off_replies w s.
Proof.
  split; [apply read_off_replies_run|apply read_off_replies_returns].
Qed.

Lemma node_read_success_witness :
  outcome (collectNodeStats healthy_world) = Done (Node healthy_report, None).
Proof.
  apply node_read_success. unfold read_off_replies.
  repeat split; try (vm_compute; reflexivity).
  eexists. split; vm_compute; reflexivity.
Defined.

(** X5: when the body of /status decodes to a map whose "result" is missing
    or is not an object (a body of [null] or of an empty object included),
    the read logs the decoded map and returns the error "Invalid data from
    /status call" with a record that holds the chain and the version only;
    it made its first two calls and makes no other. *)
Theorem status_without_result_is_an_error (w : World) (r1 r2 : Response)
    (ver : string) (resp : gmap string value) :
  w_Do w version_request = inl r1 → Decode decode_string r1 = inl ver →
  w_Do w status_request = inl r2 → Decode decode_map r2 = inl resp →
  (∀ status, resp !! "result" ≠ Some (VMap status)) →
  collectNodeStats w =
    ([EvDo version_request (inl r1); EvDo status_request (inl r2); EvLog (LogMap resp)],
     Done (set_AppVersion ver (set_Chain "pocket" NodeStats_zero),
           Some (errorString "Invalid data from /status call"))).
Proof.
  intros H1 D1 H2 D2 Hres.
  unfold_node. fold version_url status_url. fold version_request status_request.
  rewrite H1, H2. run_simpl. rewrite D1, D2. run_simpl.
  unfold index. destruct (resp !! "result") as [[| | | | |status]|] eqn:E;
    try reflexivity.
  destruct (Hres status eq_refl).
Qed.

Lemma status_without_result_is_an_error_witness :
  outcome (collectNodeStats world_status_null) =
    Done (set_AppVersion "RC-0.6.0" (set_Chain "pocket" NodeStats_zero),
          Some (errorString "Invalid data from /status call")).
Proof.
  rewrite (status_without_result_is_an_error world_status_null
    {| StatusCode := 200; Body := "<version>"; BodyJSON := Some (JString "RC-0.6.0") |}
    {| StatusCode := 200; Body := "null"; BodyJSON := Some JNull |}
    "RC-0.6.0" ∅); try reflexivity.
  intros status. rewrite lookup_empty. discriminate.
Defined.

(** The errors of [ParseInt] name the function and the string it was given. *)
Lemma ParseInt_error (h : string) (z : Z) (e : error) :
  ParseInt h = (z, Some e) → ∃ n, e = NumError "ParseInt" h n.
Proof.
  unfold ParseInt. intros Hp.
  repeat case_match; simplify_eq; eauto.
Qed.

(** X6: when the result of /status is well formed up to the height and the
    height string is not the numeral of an int64, the read returns the
    error of strconv.ParseInt, after its first two calls and without
    querying the node or the balance. *)
Theorem unparsable_height_is_an_error (w : World) (r1 r2 : Response) (ver : string)
    (resp status nodeInfo syncInfo : gmap string value) (id moniker h : string)
    (z : Z) (e : error) :
  w_Do w version_request = inl r1 → Decode decode_string r1 = inl ver →
  w_Do w status_request = inl r2 → Decode decode_map r2 = inl resp →
  resp !! "result" = Some (VMap status) →
  status !! "node_info" = Some (VMap nodeInfo) →
  nodeInfo !! "id" = Some (VString id) →
  nodeInfo !! "moniker" = Some (VString moniker) →
  status !! "sync_info" = Some (VMap syncInfo) →
  syncInfo !! "latest_block_height" = Some (VString h) →
  ParseInt h = (z, Some e) →
  (∃ n, e = NumError "ParseInt" h n) ∧
  (∃ s, outcome (collectNodeStats w) = Done (s, Some e)) ∧
  calls (trace (collectNodeStats w)) = [("GET", version_url); ("GET", status_url)].
Proof.
  intros H1 D1 H2 D2 Hres Hni Hid Hmon Hsi Hh Hp. split.
  - eapply ParseInt_error; eassumption.
  - unfold_node. fold version_url status_url. fold version_request status_request.
    rewrite H1, H2. run_simpl. rewrite D1, D2. run_simpl.
    unfold index. rewrite Hres. run_simpl.
    rewrite Hni. run_simpl. rewrite Hid, Hmon, Hsi. run_simpl. rewrite Hh. run_simpl.
    rewrite Hp. run_simpl. split; [eexists; reflexivity|reflexivity].
Qed.

Lemma unparsable_height_is_an_error_witness :
  ∃ s, outcome (collectNodeStats world_height_not_a_number) =
         Done (s, Some (NumError "ParseInt" "12a" ErrSyntax)).
Proof.
  refine (proj1 (proj2 (unparsable_height_is_an_error world_height_not_a_number
    {| StatusCode := 200; Body := "<version>"; BodyJSON := Some (JString "RC-0.6.0") |}
    {| StatusCode := 200; Body := "<status>";
       BodyJSON := Some (status_doc "abc123" "alice" "12a") |}
    "RC-0.6.0" _ _ _ _ "abc123" "alice" "12a" 0 _ _ _ _ _ _ _ _ _ _ _ _)));
    try reflexivity; vm_compute; reflexivity.
Defined.

Ltac use_goal_eqs :=
  repeat match goal with
  | E : w_Do _ _ = _ |- _ => rewrite E; clear E
  | E : Decode _ _ = _ |- _ => rewrite E; clear E
  | E : index _ _ = _ |- _ => rewrite E; clear E
  | E : ParseInt _ = _ |- _ => rewrite E; clear E
  end.

(** X7: the node-status read panics exactly when a reply that it received
    and decoded lacks a field that it reads, or holds it with another type:
    node_info, id, moniker, sync_info or latest_block_height in the result
    of /status (and latest_block_time or catching_up when the height
    parses), public_key, jailed or service_url in the node reply, balance
    in the balance reply.  The panic is that of a failed type assertion; a
    /status reply without a result object is an error, not a panic. *)
Theorem node_read_panics (w : World) :
  ((∃ p, outcome (collectNodeStats w) = Panicked p) ↔
   existsb ill_typed_reply (trace (collectNodeStats w)) = true) ∧
  (∀ p, outcome (collectNodeStats w) = Panicked p → ∃ T, p = TypeAssertionFailed T).
Proof.
  change (panics_on_ill_typed (collectNodeStats w)).
  unfold_node. run_cases.
  all: unfold panics_on_ill_typed; run_simpl.
  all: cbn [existsb ill_typed_reply URL local_request Header_Set].
  all: unfold reply_typed, status_typed, status_url, node_url, balance_url.
  all: cbn [String.eqb Ascii.eqb Bool.eqb].
  all: use_goal_eqs.
  all: repeat match goal with
       | |- context [Decode decode_map ?r] => destruct (Decode decode_map r)
       end.
  all: cbn [negb orb andb is_string is_bool is_float64].
  all: (split; [split; [intros [? [=]]|discriminate]|intros ? [=]]) ||
       (split; [split; [reflexivity|eexists; reflexivity]|intros ? [= <-]; eexists; reflexivity]).
Qed.

Lemma node_read_panics_witness :
  ∃ p, outcome (collectNodeStats world_no_sync_info) = Panicked p.
Proof.
  apply (proj1 (node_read_panics world_no_sync_info)). vm_compute. reflexivity.
Defined.

(** X8: an error that the node-status read returns is the transport or
    decoding error of the call it made last, or the error "Invalid data
    from /status call" for a reply without a result object (logged just
    before), or the error of strconv.ParseInt on the reported height. *)
Theorem node_read_errors (w : World) (s : NodeStats) (e : error) :
  outcome (collectNodeStats w) = Done (s, Some e) →
  (∃ req out, last (trace (collectNodeStats w)) = Some (EvDo req out) ∧
              call_error (URL req) out = Some e) ∨
  (e = errorString "Invalid data from /status call" ∧
   last (trace (collectNodeStats w)) =
     Some (EvLog (LogMap (reply_map w status_request))) ∧
   ∀ status, index (reply_map w status_request) "result" ≠ VMap status) ∨
  (∃ h n, e = NumError "ParseInt" h n ∧
          at_path ["result"; "sync_info"; "latest_block_height"]
            (VMap (reply_map w status_request)) = VString h).
Proof.
  revert s e. change (node_errors_explained w (collectNodeStats w)).
  unfold_node. run_cases.
  all: unfold node_errors_explained; run_simpl; intros ? ?; try discriminate.
  all: intros [= <- <-].
  all: try (left; eexists _, _; split; [reflexivity|];
            cbn [call_error URL local_request Header_Set String.eqb Ascii.eqb Bool.eqb];
            unfold version_url; cbn [String.eqb Ascii.eqb Bool.eqb];
            use_goal_eqs; reflexivity).
  all: try (right; left;
            unfold reply_map, status_request, status_url; use_goal_eqs;
            split; [reflexivity|]; split; [reflexivity|]; intros ?; discriminate).
  all: right; right;
       match goal with E : ParseInt _ = _ |- _ =>
         destruct (ParseInt_error _ _ _ E) as [n ->] end;
       eexists _, _;
       unfold reply_map, status_request, status_url; cbn [at_path];
       use_goal_eqs; cbn [at_path]; use_goal_eqs; split; reflexivity.
Qed.

Lemma node_read_errors_witness :
  (∃ req out, last (trace (collectNodeStats world_node_down)) = Some (EvDo req out) ∧
     call_error (URL req) out = Some (LibError "net/http" "connection refused")) ∨
  (LibError "net/http" "connection refused" =
     errorString "Invalid data from /status call" ∧
   last (trace (collectNodeStats world_node_down)) =
     Some (EvLog (LogMap (reply_map world_node_down status_request))) ∧
   ∀ status, index (reply_map world_node_down status_request) "result" ≠ VMap status) ∨
  (∃ h n, LibError "net/http" "connection refused" = NumError "ParseInt" h n ∧
          at_path ["result"; "sync_info"; "latest_block_height"]
            (VMap (reply_map world_node_down status_request)) = VString h).
Proof.
  refine (node_read_errors world_node_down
    (set_AppVersion "RC-0.6.0" (set_Chain "pocket" NodeStats_zero)) _ _).
  vm_compute. reflexivity.
Defined.

(** X9: in a read that succeeds, the node query and the balance query are
    POSTs with the header Content-Type: application/json whose body is the
    object {"address": a}, where a is the address that the record holds
    (the node_info.id of /status); the version and status queries are GETs
    without header or body. *)
Theorem node_queries_post_the_address (w : World) (s : NodeStats) :
  outcome (collectNodeStats w) = Done (s, None) →
  requests (trace (collectNodeStats w)) =
    [version_request; status_request;
     node_request (Address s); balance_request (Address s)].
Proof.
  revert s. change (posts_address (collectNodeStats w)).
  unfold_node. run_cases.
  all: unfold posts_address; run_simpl; intros ?; try discriminate.
  intros [= <-]. reflexivity.
Qed.

Lemma node_queries_post_the_address_witness :
  requests (trace (collectNodeStats healthy_world)) =
    [version_request; status_request;
     node_request "abc123"; balance_request "abc123"].
Proof.
  refine (node_queries_post_the_address healthy_world
    (Node healthy_report) _).
  vm_compute. reflexivity.
Defined.

(** ** Sending a report *)

Lemma collectStats_no_collector_call (w : World) : no_collector_call (collectStats w).
Proof. unfold collectStats, collectHostStats. unfold_node. run_cases; reflexivity. Qed.


Lemma sendStats_shape (w : World) (node key : string) (s : Stats)
    (req : Request) (out : Response + error) :
  In (EvDo req out) (trace (sendStats w node key s)) →
  (∃ data, Marshal s = inl data ∧ req = report_request node key data) ∧
  out = w_Do w req ∧
  trace (sendStats w node key s) = [EvDo req out].
Proof.
  unfold sendStats, http_NewRequest, client_Do.
  destruct (Marshal s) as [data|e]; [|intros []].
  destruct (w_URLParses w (getUrl node)); [|intros []].
  run_simpl.
  match goal with |- context [w_Do w ?r] => destruct (w_Do w r) as [r0|e] eqn:E end;
    run_simpl; [destruct (399 <? StatusCode r0); run_simpl|];
    cbn [In]; (intros [H|[]]); injection H as <- <-;
    (split; [exists data; split; reflexivity|split; [symmetry; exact E|reflexivity]]).
Qed.

(** X10: sendStats makes at most one request, and none when json.Marshal
    fails or when net/url rejects the URL: a POST to
    https://injest.lunar.dev/<node> with the two headers x-api-key: <key>
    and Content-Type: application/json, whose body is the JSON document of
    the report. *)
Theorem sendStats_request (w : World) (node key : string) (s : Stats) :
  trace (sendStats w node key s) =
    match Marshal s with
    | inr _ => []
    | inl data =>
        if w_URLParses w (getUrl node)
        then [EvDo (report_request node key data)
                   (w_Do w (report_request node key data))]
        else []
    end.
Proof.
  unfold sendStats, http_NewRequest, client_Do.
  destruct (Marshal s) as [data|e]; [|reflexivity].
  destruct (w_URLParses w (getUrl node)); [|reflexivity].
  run_simpl.
  change (Header_Set "Content-Type" "application/json"
            (Header_Set "x-api-key" key
               {| Method := "POST"; URL := getUrl node; Header := [];
                  ReqBody := Some data |})) with (report_request node key data).
  destruct (w_Do w (report_request node key data)) as [resp|e]; run_simpl;
    [destruct (399 <? StatusCode resp)|]; reflexivity.
Qed.

Lemma sendStats_request_witness :
  trace (sendStats healthy_world "node-1" "key-1" healthy_report) =
    [EvDo (report_request "node-1" "key-1"
             match Marshal healthy_report with inl d => d | inr _ => JNull end)
          accepted].
Proof. rewrite sendStats_request. vm_compute. reflexivity. Defined.

(** X11: a report whose balance or CPU usage is NaN or infinite is not
    sent: json.Marshal fails, and sendStats returns its error without
    making a request.  A cycle that collected such a report (the CPU
    percentage of gopsutil was not finite) calls the collector nowhere, logs
    "Err sending stats:" with that error, and returns. *)
Theorem unsupported_float_sends_nothing (w : World) (node key : string) (s : Stats) :
  is_finite64 (Balance (Node s)) && is_finite64 (CPUUsagePercent (Host s)) = false →
  sendStats w node key s = ([], Done (Some (LibError "json" "unsupported value"))) ∧
  (outcome (collectStats w) = Done (s, None) →
   no_collector_call (collectAndSend w node key) ∧
   outcome (collectAndSend w node key) = Done tt ∧
   last (trace (collectAndSend w node key)) =
     Some (EvLog (LogErr "Err sending stats:" (LibError "json" "unsupported value")))).
Proof.
  intros Hf.
  assert (Hs : sendStats w node key s =
               ([], Done (Some (LibError "json" "unsupported value")))).
  { unfold sendStats, Marshal, Marshal_NodeStats, Marshal_HostStats, Marshal_float64.
    destruct (is_finite64 (Balance (Node s))); [|reflexivity].
    destruct (is_finite64 (CPUUsagePercent (Host s))); [discriminate|reflexivity]. }
  split; [exact Hs|]. intros Hc.
  pose proof (collectStats_no_collector_call w) as Hn.
  unfold no_collector_call, collectAndSend in *.
  destruct (collectStats w) as [t [[s' e]|p]]; [|discriminate Hc].
  cbn [outcome snd] in Hc. injection Hc as -> ->. run_simpl. rewrite Hs. run_simpl.
  cbn [trace fst] in *. split; [|split; [reflexivity|apply last_snoc]].
  rewrite existsb_app, Hn. reflexivity.
Qed.

Lemma unsupported_float_sends_nothing_witness :
  no_collector_call (collectAndSend world_nan_cpu "node-1" "key-1") ∧
  outcome (collectAndSend world_nan_cpu "node-1" "key-1") = Done tt ∧
  last (trace (collectAndSend world_nan_cpu "node-1" "key-1")) =
    Some (EvLog (LogErr "Err sending stats:" (LibError "json" "unsupported value"))).
Proof.
  refine (proj2 (unsupported_float_sends_nothing world_nan_cpu "node-1" "key-1"
    (set_Host (set_CPUUsagePercent S754_nan (Host healthy_report)) healthy_report) _) _);
    vm_compute; reflexivity.
Defined.

(** X12: the error of http.NewRequest is dropped: when net/url rejects the
    URL made from the node identifier, sendStats sets a header on the nil
    request and panics, before any request is made; a cycle that collected
    its report panics with it. *)
Theorem rejected_url_panics (w : World) (node key : string) (s : Stats) (data : json) :
  Marshal s = inl data → w_URLParses w (getUrl node) = false →
  sendStats w node key s = ([], Panicked NilDereference) ∧
  (outcome (collectStats w) = Done (s, None) →
   outcome (collectAndSend w node key) = Panicked NilDereference ∧
   no_collector_call (collectAndSend w node key)).
Proof.
  intros Hm Hu.
  assert (Hs : sendStats w node key s = ([], Panicked NilDereference)).
  { unfold sendStats, http_NewRequest. rewrite Hm, Hu. reflexivity. }
  split; [exact Hs|]. intros Hc.
  pose proof (collectStats_no_collector_call w) as Hn.
  unfold no_collector_call, collectAndSend in *.
  destruct (collectStats w) as [t [[s' e]|p]]; [|discriminate Hc].
  cbn [outcome snd] in Hc. injection Hc as -> ->. run_simpl. rewrite Hs. run_simpl.
  split; [reflexivity|]. rewrite app_nil_r. exact Hn.
Qed.

Lemma rejected_url_panics_witness :
  outcome (collectAndSend world_bad_node_id "%zz" "key-1") = Panicked NilDereference.
Proof.
  refine (proj1 (proj2 (rejected_url_panics world_bad_node_id "%zz" "key-1"
    healthy_report _ _ _) _)); vm_compute; reflexivity.
Defined.

(** ** The cycle and its report *)

Lemma collectStats_calls (w : World) (s : Stats) :
  outcome (collectStats w) = Done (s, None) →
  calls (trace (collectStats w)) = node_calls.
Proof.
  revert s. change (calls_when_done (collectStats w)).
  unfold collectStats, collectHostStats. unfold_node. run_cases.
  all: unfold calls_when_done; run_simpl; intros ?; try discriminate.
  intros _. reflexivity.
Qed.

(** X13: a call to the collector is made only in a cycle whose collection
    succeeded, after all the calls of the collection, and once: it is the
    POST of the collected report to https://injest.lunar.dev/<node> with
    the API key in the header x-api-key; nothing but a log line follows. *)
Theorem report_follows_collection (w : World) (node key : string)
    (req : Request) (out : Response + error) :
  In (EvDo req out) (trace (collectAndSend w node key)) →
  collector_call (EvDo req out) = true →
  ∃ s data log,
    outcome (collectStats w) = Done (s, None) ∧ Marshal s = inl data ∧
    req = report_request node key data ∧
    trace (collectAndSend w node key) =
      trace (collectStats w) ++ EvDo req out :: log ∧
    calls log = [] ∧
    calls (trace (collectAndSend w node key)) = node_calls ++ [("POST", getUrl node)].
Proof.
  intros Hin Hc.
  pose proof (collectStats_no_collector_call w) as Hn. unfold no_collector_call in Hn.
  assert (Hnot : ¬ In (EvDo req out) (trace (collectStats w))).
  { intros H. apply not_true_iff_false in Hn. apply Hn.
    apply existsb_exists. exists (EvDo req out). split; assumption. }
  pose proof (collectStats_calls w) as Hcalls.
  revert Hin. unfold collectAndSend.
  destruct (collectStats w) as [t [[s [e|]]|p]]; run_simpl; cbn [trace fst] in *.
  - intros Hin. apply in_app_or in Hin as [H|[H|[]]]; [destruct (Hnot H)|discriminate H].
  - pose proof (sendStats_shape w node key s req out) as Hs.
    destruct (sendStats w node key s) as [ts [[e|]|p]]; run_simpl;
      cbn [trace fst] in *; intros Hin.
    all: apply in_app_or in Hin as [H|Hin]; [destruct (Hnot H)|].
    all: assert (Hts : In (EvDo req out) ts)
           by (try (apply in_app_or in Hin as [H|[H|[]]]; [exact H|discriminate H]);
               try rewrite app_nil_r in Hin; exact Hin).
    all: destruct (Hs Hts) as ((data & Hm & ->) & _ & ->).
    all: exists s, data; eexists; split; [reflexivity|]; split; [exact Hm|];
         split; [reflexivity|]; split; [cbn; reflexivity|]; split; [reflexivity|].
    all: unfold calls in *; rewrite omap_app; rewrite (Hcalls s eq_refl); reflexivity.
  - intros Hin. destruct (Hnot Hin).
Qed.

Lemma report_follows_collection_witness :
  ∃ s data log,
    outcome (collectStats healthy_world) = Done (s, None) ∧ Marshal s = inl data ∧
    report_request "node-1" "key-1"
      match Marshal healthy_report with inl d => d | inr _ => JNull end =
      report_request "node-1" "key-1" data ∧
    trace (collectAndSend healthy_world "node-1" "key-1") =
      trace (collectStats healthy_world) ++
      EvDo (report_request "node-1" "key-1"
              match Marshal healthy_report with inl d => d | inr _ => JNull end)
           accepted :: log ∧
    calls log = [] ∧
    calls (trace (collectAndSend healthy_world "node-1" "key-1")) =
      node_calls ++ [("POST", getUrl "node-1")].
Proof.
  apply report_follows_collection; [|reflexivity].
  vm_compute. do 10 right. left. reflexivity.
Defined.

(** ** What a collected report holds *)

Lemma to_interface_object (kvs : list (string * json)) :
  to_interface (JObject kvs) = VMap <$> decode_fields kvs ∅.
Proof. reflexivity. Qed.

Lemma to_interface_float (j : json) (f : float64) :
  to_interface j = Some (VFloat f) → is_finite64 f = true.
Proof.
  destruct j as [|b|n|s|l|kvs]; try discriminate.
  - cbn. unfold number_to_float64.
    destruct (is_finite64 _) eqn:E; [|discriminate]. intros [= <-]. exact E.
  - cbn. destruct (_ l); discriminate.
  - rewrite to_interface_object. destruct (decode_fields kvs ∅); discriminate.
Qed.

Lemma decode_fields_finite (kvs : list (string * json)) (acc m : gmap string value) :
  decode_fields kvs acc = Some m → finite_floats acc → finite_floats m.
Proof.
  revert acc; induction kvs as [|[k j] kvs IH]; intros acc; cbn [decode_fields].
  - intros [= <-] H. exact H.
  - destruct (to_interface j) as [v|] eqn:Ej; [|discriminate]. cbn.
    intros Hd Hacc. apply (IH _ Hd). intros k' f.
    rewrite lookup_insert. destruct (decide (k = k')) as [<-|Hne].
    + intros [= ->]. eapply to_interface_float; eassumption.
    + apply Hacc.
Qed.

Lemma decode_map_finite (j : json) (m : gmap string value) :
  decode_map j = inl m → finite_floats m.
Proof.
  destruct j as [|b|n|s|l|kvs]; try discriminate.
  - intros [= <-] k f. rewrite lookup_empty. discriminate.
  - unfold decode_map. rewrite to_interface_object.
    destruct (decode_fields kvs ∅) as [m'|] eqn:E; [|discriminate].
    cbn. intros [= <-]. apply (decode_fields_finite _ _ _ E).
    intros k f. rewrite lookup_empty. discriminate.
Qed.

Lemma reply_map_finite (w : World) (req : Request) : finite_floats (reply_map w req).
Proof.
  unfold reply_map. destruct (w_Do w req) as [r|];
    [|intros k f; rewrite lookup_empty; discriminate].
  unfold Decode. destruct (BodyJSON r) as [j|];
    [|intros k f; rewrite lookup_empty; discriminate].
  destruct (decode_map j) as [m|] eqn:E;
    [|intros k f; rewrite lookup_empty; discriminate].
  eapply decode_map_finite; eassumption.
Qed.

(** X14: the balance of a node record that was read without error is a
    finite number, since it was decoded from JSON; so the report of a
    collection that succeeded serialises exactly when the CPU percentage
    that gopsutil gave is finite, and a NaN or an infinity there is the one
    way for json.Marshal to fail in sendStats. *)
Theorem collected_report_serialises (w : World) (s : Stats) :
  outcome (collectStats w) = Done (s, None) →
  is_finite64 (Balance (Node s)) = true ∧
  ((∃ data, Marshal s = inl data) ↔ is_finite64 (CPUUsagePercent (Host s)) = true).
Proof.
  intros Hc.
  assert (Hb : is_finite64 (Balance (Node s)) = true).
  { revert Hc. unfold collectStats. run_simpl.
    destruct (collectHostStats w) as [th [[hs [eh|]]|ph]]; run_simpl; try discriminate.
    pose proof (read_off_replies_run w) as Hr. unfold reads_off_replies in Hr.
    destruct (collectNodeStats w) as [tn [[ns [en|]]|pn]]; run_simpl; try discriminate.
    intros [= <-]. cbn [Node set_Node set_Host].
    destruct (Hr ns eq_refl) as (_ & _ & _ & _ & _ & _ & _ & _ & _ & _ & _ & Hbal).
    cbn [at_path] in Hbal. unfold index in Hbal.
    destruct (reply_map w _ !! "balance") as [v|] eqn:E; [|discriminate]. subst v.
    exact (reply_map_finite _ _ _ _ E). }
  split; [exact Hb|].
  unfold Marshal, Marshal_NodeStats, Marshal_HostStats, Marshal_float64. rewrite Hb.
  destruct (is_finite64 (CPUUsagePercent (Host s))); split; eauto; try discriminate.
  intros [data [=]].
Qed.

Lemma collected_report_serialises_witness :
  is_finite64 (Balance (Node healthy_report)) = true ∧
  ((∃ data, Marshal healthy_report = inl data) ↔
   is_finite64 (CPUUsagePercent (Host healthy_report)) = true).
Proof. apply (collected_report_serialises healthy_world). vm_compute. reflexivity. Defined.

(** X15: a cycle whose collection succeeded, whose report serialises and
    whose collector URL parses makes, after the calls of the collection,
    exactly one more call, the POST of the report; it logs nothing more
    when the collector answers with a status code of at most 399, and logs
    "Err sending stats:" with the error otherwise (a transport error, or
    the rejection that carries the code and the body); either way it
    returns. *)
Theorem collected_report_is_sent (w : World) (node key : string) (s : Stats)
    (data : json) :
  outcome (collectStats w) = Done (s, None) → Marshal s = inl data →
  w_URLParses w (getUrl node) = true →
  let req := report_request node key data in
  outcome (collectAndSend w node key) = Done tt ∧
  trace (collectAndSend w node key) =
    trace (collectStats w) ++ EvDo req (w_Do w req) ::
    match w_Do w req with
    | inl resp =>
        if 399 <? StatusCode resp
        then [EvLog (LogErr "Err sending stats:"
                       (rejection (StatusCode resp) (Body resp)))]
        else []
    | inr e => [EvLog (LogErr "Err sending stats:" e)]
    end.
Proof.
  intros Hc Hm Hu req. unfold collectAndSend.
  destruct (collectStats w) as [t [[s' e]|p]]; [|discriminate Hc].
  cbn [outcome snd] in Hc. injection Hc as -> ->. run_simpl.
  unfold sendStats, http_NewRequest, client_Do. rewrite Hm, Hu. run_simpl.
  change (Header_Set "Content-Type" "application/json"
            (Header_Set "x-api-key" key
               {| Method := "POST"; URL := getUrl node; Header := [];
                  ReqBody := Some data |})) with req.
  destruct (w_Do w req) as [resp|e]; run_simpl.
  - destruct (399 <? StatusCode resp); run_simpl; split; reflexivity.
  - split; reflexivity.
Qed.

Lemma collected_report_is_sent_witness :
  outcome (collectAndSend world_rejected "node-1" "key-1") = Done tt ∧
  trace (collectAndSend world_rejected "node-1" "key-1") =
    trace (collectStats world_rejected) ++
    [EvDo (report_request "node-1" "key-1"
             match Marshal healthy_report with inl d => d | inr _ => JNull end)
          (inl {| StatusCode := 500; Body := "boom"; BodyJSON := None |});
     EvLog (LogErr "Err sending stats:" (rejection 500 "boom"))].
Proof.
  refine (collected_report_is_sent world_rejected "node-1" "key-1" healthy_report
    _ _ _ _); vm_compute; reflexivity.
Defined.

(** ** What collectStats logs *)

(** X16: collectStats ends by logging one line.  When it returns a report
    without error the line is the summary of that report.  When it returns
    an error the line names the read that failed, "err host stats:" for
    an error of the host read and "err node stats:" for an error of the
    node read, and the report it returns holds the version and the
    timestamp only: what the host read gave is dropped when the node read
    fails after it. *)
Theorem collectStats_logs (w : World) (s : Stats) (err : option error) :
  outcome (collectStats w) = Done (s, err) →
  match err with
  | None => last (trace (collectStats w)) = Some (EvLog (LogStats s))
  | Some e =>
      Host s = HostStats_zero ∧ Node s = NodeStats_zero ∧
      ((∃ hs, outcome (collectHostStats w) = Done (hs, Some e) ∧
              last (trace (collectStats w)) = Some (EvLog (LogText "err host stats:"))) ∨
       (∃ hs ns, outcome (collectHostStats w) = Done (hs, None) ∧
                 outcome (collectNodeStats w) = Done (ns, Some e) ∧
                 last (trace (collectStats w)) = Some (EvLog (LogText "err node stats:"))))
  end.
Proof.
  unfold collectStats. run_simpl.
  destruct (collectHostStats w) as [th [[hs [eh|]]|ph]]; run_simpl.
  - intros [= <- <-]. split; [reflexivity|]. split; [reflexivity|].
    left. exists hs. split; [reflexivity|]. cbn. rewrite app_comm_cons. apply last_snoc.
  - destruct (collectNodeStats w) as [tn [[ns [en|]]|pn]]; run_simpl.
    + intros [= <- <-]. split; [reflexivity|]. split; [reflexivity|].
      right. exists hs, ns. split; [reflexivity|]. split; [reflexivity|].
      cbn. rewrite app_assoc, app_comm_cons. apply last_snoc.
    + intros [= <- <-]. cbn. rewrite app_assoc, app_comm_cons. apply last_snoc.
    + discriminate.
  - discriminate.
Qed.

Lemma collectStats_logs_witness :
  last (trace (collectStats healthy_world)) = Some (EvLog (LogStats healthy_report)).
Proof.
  apply (collectStats_logs healthy_world healthy_report None).
  vm_compute. reflexivity.
Defined.

(** ** The document of a collected report *)

Lemma collectStats_success (w : World) (s : Stats) :
  outcome (collectStats w) = Done (s, None) →
  Version s = "v1" ∧ Timestamp s = Format_RFC3339 (w_Now w) ∧
  outcome (collectHostStats w) = Done (Host s, None) ∧
  outcome (collectNodeStats w) = Done (Node s, None).
Proof.
  unfold collectStats. run_simpl.
  destruct (collectHostStats w) as [th [[hs [eh|]]|ph]]; run_simpl; try discriminate.
  destruct (collectNodeStats w) as [tn [[ns [en|]]|pn]]; run_simpl; try discriminate.
  intros [= <-]. repeat split; reflexivity.
Qed.

(** X17: the JSON document of a collected report is an object with the
    keys version, timestamp, node, host; version is "v1"; the node object
    has the keys of the struct tags, except that the block time goes under
    LatestBlockTime (the tag of line 36 has no quotes around its value, so
    there is no key latest_block_time); chain is "pocket" and chains is
    always null (the assignment of line 254 is commented out); the host
    object goes by the Go field names, HostStats having no tags. *)
Theorem collected_report_document (w : World) (s : Stats) (data : json) :
  outcome (collectStats w) = Done (s, None) → Marshal s = inl data →
  keys data = ["version"; "timestamp"; "node"; "host"] ∧
  member "version" data = Some (JString "v1") ∧
  ∃ node host,
    member "node" data = Some node ∧ member "host" data = Some host ∧
    keys node = ["chain"; "app_version"; "moniker"; "height"; "LatestBlockTime";
                 "catching_up"; "balance"; "chains"; "jailed"; "service_url";
                 "address"; "public_key"] ∧
    keys host = ["MemoryTotal"; "MemoryFree"; "DiskTotal"; "DiskFree"; "Uptime";
                 "Platform"; "CPUUsagePercent"] ∧
    member "chain" node = Some (JString "pocket") ∧
    member "chains" node = Some JNull ∧
    member "LatestBlockTime" node =
      Some (JString (toValidUTF8 (LatestBlockTime (Node s)))) ∧
    member "latest_block_time" node = None.
Proof.
  intros Hc Hm.
  destruct (collectStats_success w s Hc) as (Hv & _ & _ & Hn).
  destruct (read_off_replies_run w _ Hn) as (Hchain & Hchains & _).
  revert Hm. unfold Marshal, Marshal_NodeStats, Marshal_HostStats, Marshal_float64.
  destruct (is_finite64 (Balance (Node s))); [|discriminate].
  destruct (is_finite64 (CPUUsagePercent (Host s))); [|discriminate].
  intros [= <-]. rewrite Hv, Hchain, Hchains.
  split; [reflexivity|]. split; [reflexivity|].
  eexists _, _. repeat split; reflexivity.
Qed.

Lemma collected_report_document_witness :
  ∃ data, Marshal healthy_report = inl data ∧
          keys data = ["version"; "timestamp"; "node"; "host"].
Proof.
  eexists. split; [vm_compute; reflexivity|].
  refine (proj1 (collected_report_document healthy_world healthy_report _ _ _));
    vm_compute; reflexivity.
Defined.

(** ** The loop, when a cycle panics *)

Lemma loop_first_panic (ws : nat → World) (node key : string)
    (sel : list select_case) (n k : nat) (p : panic_value) :
  (k < ticks_before_done sel)%nat →
  (∀ i, (i < k)%nat → returns (collectAndSend (ws (n + i)%nat) node key)) →
  outcome (collectAndSend (ws (n + k)%nat) node key) = Panicked p →
  loop ws node key n sel = (cycle_trace ws node key <$> seq n (S k), Crashed p).
Proof.
  revert n k; induction sel as [|[|] sel IH]; intros n k;
    cbn [loop ticks_before_done]; try lia.
  intros Hk Hret Hp. destruct k as [|k].
  - rewrite Nat.add_0_r in Hp. cbn [seq fmap list_fmap]. unfold cycle_trace.
    destruct (collectAndSend (ws n) node key) as [t [[]|q]]; [discriminate Hp|].
    cbn in Hp. injection Hp as ->. reflexivity.
  - destruct (Hret 0%nat ltac:(lia)) as [a Ha]. rewrite Nat.add_0_r in Ha.
    change (seq n (S (S k))) with (n :: seq (S n) (S k)).
    cbn [fmap list_fmap]. unfold cycle_trace at 1.
    destruct (collectAndSend (ws n) node key) as [t [[]|q]]; [|discriminate Ha].
    rewrite (IH (S n) k).
    + reflexivity.
    + lia.
    + intros i Hi. replace (S n + i)%nat with (n + S i)%nat by lia. apply Hret. lia.
    + replace (S n + k)%nat with (n + S k)%nat by lia. exact Hp.
Qed.

(** X18: nothing in the loop recovers a panic: when the cycles before the
    k-th return and the k-th panics (the cycle before any tick being the
    0-th, and at least k ticks coming before a cancellation), start ends
    with that panic right after the k-th cycle, whatever ticks or
    cancellation would follow. *)
Theorem first_panic_ends_loop (ws : nat → World) (node key : string) (daemon : bool)
    (sel : list select_case) (k : nat) (p : panic_value) :
  (k ≤ ticks_before_done sel)%nat →
  (∀ i, (i < k)%nat → returns (collectAndSend (ws i) node key)) →
  outcome (collectAndSend (ws k) node key) = Panicked p →
  snd (start ws node key daemon sel) = Crashed p ∧
  snd (fst (start ws node key daemon sel)) =
    cycle_trace ws node key <$> seq 0 (S k).
Proof.
  intros Hk Hret Hp. unfold start. destruct k as [|k].
  - cbn [seq fmap list_fmap]. unfold cycle_trace.
    destruct (collectAndSend (ws 0%nat) node key) as [t [[]|q]]; [discriminate Hp|].
    cbn in Hp. injection Hp as ->. split; reflexivity.
  - destruct (Hret 0%nat ltac:(lia)) as [a Ha].
    change (seq 0 (S (S k))) with (0%nat :: seq 1 (S k)).
    cbn [fmap list_fmap]. unfold cycle_trace at 1.
    destruct (collectAndSend (ws 0%nat) node key) as [t [[]|q]]; [|discriminate Ha].
    rewrite (loop_first_panic ws node key sel 1 k p).
    + split; reflexivity.
    + lia.
    + intros i Hi. apply Hret. lia.
    + exact Hp.
Qed.

Lemma first_panic_ends_loop_witness :
  snd (start worlds_no_cpu_second "node-1" "key-1" false [TickerC; TickerC; CtxDone]) =
    Crashed (IndexOutOfRange 0 0) ∧
  snd (fst (start worlds_no_cpu_second "node-1" "key-1" false [TickerC; TickerC; CtxDone])) =
    cycle_trace worlds_no_cpu_second "node-1" "key-1" <$> seq 0 2.
Proof.
  apply first_panic_ends_loop.
  - vm_compute. lia.
  - intros i Hi. assert (i = 0%nat) as -> by lia. eexists. vm_compute. reflexivity.
  - vm_compute. reflexivity.
Defined.

(** * Properties of the summaries *)

Lemma pow1000_pos (j : Z) : 0 ≤ j → 0 < 1000 ^ j.
Proof. intros. apply Z.pow_pos_nonneg; lia. Qed.

Lemma pow1000_uint64 (j : Z) : 0 ≤ j → 1000 ^ j ≤ uint64_max → j ≤ 6.
Proof.
  intros Hj Hle. destruct (Z_le_gt_dec j 6) as [|Hgt]; [assumption|exfalso].
  assert (1000 ^ 7 ≤ 1000 ^ j) by (apply Z.pow_le_mono_r; lia).
  assert (uint64_max < 1000 ^ 7) by reflexivity. lia.
Qed.

Lemma wrap_int64_small (z : Z) : 0 ≤ z < 2 ^ 63 → wrap_int64 z = z.
Proof.
  intros Hz. unfold wrap_int64. rewrite Z.mod_small; lia.
Qed.

Lemma pow1000_le_6 (j : Z) : 0 ≤ j ≤ 6 → 1000 ^ j < 2 ^ 63.
Proof.
  intros Hj. assert (1000 ^ j ≤ 1000 ^ 6) by (apply Z.pow_le_mono_r; lia).
  assert (1000 ^ 6 < 2 ^ 63) by reflexivity. lia.
Qed.

(** The loop ends within the rounds it is given, with [div] the largest
    power of 1000 that is not above [b]. *)
Lemma humanize_loop_spec (b : Z) (fuel : nat) (n j : Z) :
  0 ≤ b ≤ uint64_max → 0 ≤ j → 0 ≤ n < 2 ^ Z.of_nat fuel →
  n = b / 1000 ^ (j + 1) → 1000 ^ (j + 1) ≤ b →
  ∃ k, j ≤ k ∧
    humanize_loop fuel n (1000 ^ (j + 1)) j = (b / 1000 ^ (k + 1), 1000 ^ (k + 1), k) ∧
    1000 ^ (k + 1) ≤ b < 1000 ^ (k + 2).
Proof.
  intros Hb. revert n j; induction fuel as [|fuel IH]; intros n j Hj Hn -> Hle.
  - cbn [humanize_loop]. exists j. split; [lia|]. split; [reflexivity|].
    split; [assumption|]. change (2 ^ Z.of_nat 0) with 1 in Hn.
    pose proof (pow1000_pos (j + 1) ltac:(lia)) as Hp.
    replace (j + 2) with (j + 1 + 1) by lia. rewrite (Z.pow_succ_r _ (j + 1)) by lia.
    pose proof (Z.div_mod b (1000 ^ (j + 1)) ltac:(lia)).
    pose proof (Z.mod_pos_bound b (1000 ^ (j + 1)) Hp). nia.
  - cbn [humanize_loop].
    pose proof (pow1000_pos (j + 1) ltac:(lia)) as Hp.
    pose proof (Z.div_mod b (1000 ^ (j + 1)) ltac:(lia)) as Hdm.
    pose proof (Z.mod_pos_bound b (1000 ^ (j + 1)) Hp) as Hmod.
    destruct (1000 <=? b / 1000 ^ (j + 1)) eqn:Hc.
    + apply Z.leb_le in Hc.
      assert (Hnext : 1000 ^ (j + 1 + 1) ≤ b).
      { rewrite (Z.pow_succ_r _ (j + 1)) by lia. nia. }
      assert (Hj6 : j + 1 + 1 ≤ 6) by (apply pow1000_uint64; lia).
      replace (1000 ^ (j + 1) * 1000) with (1000 ^ (j + 1 + 1))
        by (rewrite (Z.pow_succ_r _ (j + 1)) by lia; ring).
      rewrite wrap_int64_small
        by (split; [apply Z.lt_le_incl, pow1000_pos; lia|apply pow1000_le_6; lia]).
      destruct (IH (b / 1000 ^ (j + 1) / 1000) (j + 1)) as (k & Hk & Hl & Hr).
      * lia.
      * split; [apply Z.div_pos; lia|].
        apply Z.div_lt_upper_bound; [lia|].
        rewrite Nat2Z.inj_succ, Z.pow_succ_r in Hn by lia. lia.
      * rewrite Z.div_div by lia. rewrite (Z.pow_succ_r _ (j + 1)) by lia.
        f_equal. ring.
      * assumption.
      * exists k. split; [lia|]. split; [exact Hl|exact Hr].
    + apply Z.leb_gt in Hc. exists j. split; [lia|]. split; [reflexivity|].
      split; [assumption|].
      replace (j + 2) with (j + 1 + 1) by lia. rewrite (Z.pow_succ_r _ (j + 1)) by lia.
      nia.
Qed.

Lemma bytesHumanize_large (b : Z) :
  1000 ≤ b ≤ uint64_max →
  ∃ k c, 0 ≤ k ≤ 5 ∧ 1000 ^ (k + 1) ≤ b < 1000 ^ (k + 2) ∧
    String.get (Z.to_nat k) "kMGTPE" = Some c ∧
    bytesHumanize b =
      ([], Done (Sprintf_f 1 (f64_div (float64_of_Z b) (float64_of_Z (1000 ^ (k + 1))))
                 +:+ " " +:+ String c "B")).
Proof.
  intros Hb. unfold bytesHumanize.
  assert (Hc : (b <? 1000) = false) by (apply Z.ltb_ge; lia). rewrite Hc.
  destruct (humanize_loop_spec b (Z.to_nat (Z.log2 b)) (b / 1000) 0)
    as (k & Hk & Hl & Hr); try lia.
  - split; [apply Z.div_pos; lia|].
    rewrite Z2Nat.id by (apply Z.log2_nonneg).
    apply Z.div_lt_upper_bound; [lia|].
    pose proof (Z.log2_spec b ltac:(lia)) as [_ Hs].
    rewrite Z.pow_succ_r in Hs by (apply Z.log2_nonneg).
    pose proof (pow2_pos (Z.log2 b) (Z.log2_nonneg b)). lia.
  - reflexivity.
  - change (1000 ^ (0 + 1)) with 1000 in Hl. rewrite Hl.
    assert (Hk5 : k + 1 ≤ 6) by (apply pow1000_uint64; lia).
    assert (Hcases : k = 0 ∨ k = 1 ∨ k = 2 ∨ k = 3 ∨ k = 4 ∨ k = 5) by lia.
    exists k.
    destruct Hcases as [->|[->|[->|[->|[->| ->] ] ] ] ]; cbn [Z.to_nat Pos.to_nat
      Pos.iter_op Nat.add String.get]; eexists; (split; [lia|]);
      (split; [exact Hr|]); (split; [reflexivity|]); reflexivity.
Qed.

Lemma bytesHumanize_returns (b : Z) :
  0 ≤ b ≤ uint64_max → ∃ text, bytesHumanize b = ([], Done text).
Proof.
  intros Hb. destruct (Z_lt_ge_dec b 1000) as [Hlt|Hge].
  - unfold bytesHumanize. apply Z.ltb_lt in Hlt. rewrite Hlt. eexists; reflexivity.
  - destruct (bytesHumanize_large b ltac:(lia)) as (k & c & _ & _ & _ & ->).
    eexists; reflexivity.
Qed.

(** X19: bytesHumanize never panics on a uint64.  Below 1000 it prints the
    number and " B"; from 1000 on it divides by the largest power of 1000
    that is not above the number, 1000 ^ (k + 1) with k at most 5, prints
    the quotient of the two conversions to float64 with one decimal, and the
    k-th letter of kMGTPE before the B. *)
Theorem bytesHumanize_spec (b : Z) :
  0 ≤ b ≤ uint64_max →
  (b < 1000 → bytesHumanize b = ([], Done (itoa b +:+ " B"))) ∧
  (1000 ≤ b →
   ∃ k c, 0 ≤ k ≤ 5 ∧ 1000 ^ (k + 1) ≤ b < 1000 ^ (k + 2) ∧
     String.get (Z.to_nat k) "kMGTPE" = Some c ∧
     bytesHumanize b =
       ([], Done (Sprintf_f 1 (f64_div (float64_of_Z b) (float64_of_Z (1000 ^ (k + 1))))
                  +:+ " " +:+ String c "B"))).
Proof.
  intros Hb. split.
  - intros Hlt. unfold bytesHumanize. apply Z.ltb_lt in Hlt. rewrite Hlt. reflexivity.
  - intros Hge. apply bytesHumanize_large. lia.
Qed.

Lemma bytesHumanize_spec_witness :
  bytesHumanize 999 = ([], Done "999 B") ∧
  ∃ k c, 0 ≤ k ≤ 5 ∧ 1000 ^ (k + 1) ≤ 1234567 < 1000 ^ (k + 2) ∧
    String.get (Z.to_nat k) "kMGTPE" = Some c ∧
    bytesHumanize 1234567 =
      ([], Done (Sprintf_f 1 (f64_div (float64_of_Z 1234567)
                                      (float64_of_Z (1000 ^ (k + 1))))
                 +:+ " " +:+ String c "B")).
Proof.
  split.
  - apply (bytesHumanize_spec 999); vm_compute; split; congruence.
  - apply (bytesHumanize_spec 1234567); vm_compute; try split; congruence.
Defined.

(** ** Percentages as the summary prints them *)

Lemma finish_sign (m e : Z) : finish m e ≠ S754_zero true.
Proof. unfold finish. destruct m; [|destruct (_ <=? _)|]; discriminate. Qed.

Lemma round_aux_finish (mx ex : Z) (lx : location) :
  0 ≤ mx → ∃ m e, binary_round_aux prec64 emax64 false mx ex lx = finish m e.
Proof.
  intros Hmx. destruct (round_aux_decomp mx ex lx Hmx) as (loc1 & _ & _ & ->).
  eauto.
Qed.

Lemma f64_div_finish (mx my : positive) (ex ey : Z) :
  ∃ m e, f64_div (S754_finite false mx ex) (S754_finite false my ey) = finish m e.
Proof.
  unfold f64_div, SFdiv, SFdiv_core_binary. cbn [xorb].
  set (e' := Z.min _ _).
  set (m' := match ex - ey - e' with
             | 0 => Zpos mx
             | Zpos _ => Z.shiftl (Zpos mx) (ex - ey - e')
             | Zneg _ => 0
             end).
  assert (Hm'0 : 0 ≤ m').
  { subst m'. destruct (ex - ey - e') as [|s|s] eqn:E; [lia| |lia].
    rewrite Z.shiftl_mul_pow2 by lia. pose proof (pow2_pos (Zpos s) ltac:(lia)). lia. }
  pose proof (Z_div_mod m' (Zpos my) ltac:(lia)) as Hdm.
  destruct (Z.div_eucl m' (Zpos my)) as [q r]. destruct Hdm as [Hdm Hr].
  apply round_aux_finish. nia.
Qed.

Lemma f64_mul_100_finish (m e : Z) :
  f64_mul (float64_of_Z 100) (finish m e) ≠ S754_zero true.
Proof.
  change (float64_of_Z 100) with f64_100. unfold f64_100, f64_mul, SFmul, finish.
  destruct m as [|p|p]; [discriminate| |discriminate].
  destruct (e <=? emax64 - prec64); [|discriminate].
  cbn [xorb]. destruct (round_aux_finish (Zpos (7036874417766400 * p)) (-46 + e)
    loc_Exact ltac:(lia)) as (m1 & e1 & ->). apply finish_sign.
Qed.

Lemma float64_of_Z_0 : float64_of_Z 0 = S754_zero false.
Proof. reflexivity. Qed.

(** A percentage of a part that is not negative is not the negative zero. *)
Lemma percent_sign (part whole : Z) :
  0 ≤ part < 2 ^ 64 → 0 < whole < 2 ^ 64 → percent part whole ≠ S754_zero true.
Proof.
  intros Hp Hw. unfold percent.
  destruct (float64_of_Z_value whole Hw) as (my & ey & -> & _).
  destruct (Z.eq_dec part 0) as [->|Hne].
  - rewrite float64_of_Z_0. vm_compute. discriminate.
  - destruct (float64_of_Z_value part ltac:(lia)) as (mx & ex & -> & _).
    destruct (f64_div_finish mx my ex ey) as (m & e & ->).
    apply f64_mul_100_finish.
Qed.

Lemma div_half_even_bounds (n d : Z) :
  0 ≤ n → 0 < d → n / d ≤ div_half_even n d ≤ n / d + 1 ∧
  (n mod d = 0 → div_half_even n d = n / d).
Proof.
  intros Hn Hd. unfold div_half_even. cbv zeta.
  destruct (2 * (n mod d) ?= d) eqn:E; [destruct (Z.even (n / d))| |].
  all: split; [lia|]; intros H0; rewrite H0 in E; cbn in E;
    destruct d; try discriminate; try lia; try reflexivity.
Qed.

Lemma append_empty_r (s : string) : s +:+ "" = s.
Proof.
  induction s as [|c s IH]; [reflexivity|].
  change (String c (s +:+ "") = String c s). f_equal. exact IH.
Qed.

(** What %.0f prints for a float of [0, j]: the numeral of an integer of
    [0, j]. *)
Lemma Sprintf_f_0_le (f : float64) (j : Z) :
  le_int f j → f ≠ S754_zero true →
  ∃ k, 0 ≤ k ≤ j ∧ Sprintf_f 0 f = itoa k.
Proof.
  destruct f as [[]|[]| |[] m e]; cbn [le_int]; try contradiction.
  - intros Hj _. exists 0. split; [lia|]. reflexivity.
  - intros (c & Hce & Hc0 & Hle) _.
    unfold Sprintf_f, fmt_fixed, fixed_units.
    change (10 ^ Z.of_nat 0) with 1. rewrite !Z.mul_1_r.
    assert (Hpc := pow2_pos (e - c) ltac:(lia)).
    assert (Hp0 := pow2_pos (0 - c) ltac:(lia)).
    destruct (0 <=? e) eqn:He; [apply Z.leb_le in He|apply Z.leb_gt in He].
    + exists (Zpos m * 2 ^ e). rewrite Z.div_1_r. cbn [String.append]. rewrite append_empty_r.
      assert (Hpe := pow2_pos e He).
      split; [|reflexivity]. split; [lia|].
      replace (e - c) with (e + (0 - c)) in Hle by lia.
      rewrite Z.pow_add_r in Hle by lia. nia.
    + assert (Hpe := pow2_pos (- e) ltac:(lia)).
      destruct (div_half_even_bounds (Zpos m) (2 ^ (- e)) ltac:(lia) Hpe) as [Hb Hx].
      exists (div_half_even (Zpos m) (2 ^ (- e))). rewrite Z.div_1_r.
      cbn [String.append]. rewrite append_empty_r.
      split; [|reflexivity].
      assert (Hm : Zpos m ≤ j * 2 ^ (- e)).
      { pose proof (dle_at _ _ _ _ e (ex_intro _ c (conj Hce (conj Hc0 Hle)))
          ltac:(lia) ltac:(lia)) as H0.
        rewrite Z.sub_diag in H0. replace (0 - e) with (- e) in H0 by lia.
        cbn in H0. lia. }
      pose proof (Z.div_mod (Zpos m) (2 ^ (- e)) ltac:(lia)) as Hdm.
      pose proof (Z.mod_pos_bound (Zpos m) (2 ^ (- e)) Hpe) as Hmod.
      assert (0 ≤ Zpos m / 2 ^ (- e)) by (apply Z.div_pos; lia).
      split; [lia|].
      destruct (Z.eq_dec (Zpos m mod 2 ^ (- e)) 0) as [H0|Hne].
      * rewrite (Hx H0). apply Z.div_le_upper_bound; lia.
      * assert (Zpos m / 2 ^ (- e) < j); [|lia].
        apply Z.div_lt_upper_bound; [lia|].
        assert (Zpos m ≠ j * 2 ^ (- e))
          by (intros Heq; apply Hne; rewrite Heq; apply Z.mod_mul; lia).
        lia.
Qed.

(** X20: for a host whose free memory and free disk space are at most the
    totals, the totals being positive uint64 values, the summary line is
    produced without panic, and the two percentages in it are printed as
    decimal numerals of integers between 0 and 100. *)
Theorem summary_percentages (s : HostStats) :
  0 ≤ MemoryFree s ≤ MemoryTotal s → 0 < MemoryTotal s ≤ uint64_max →
  0 ≤ DiskFree s ≤ DiskTotal s → 0 < DiskTotal s ≤ uint64_max →
  ∃ mem disk pmem pdisk,
    bytesHumanize (MemoryFree s) = ([], Done mem) ∧
    bytesHumanize (DiskFree s) = ([], Done disk) ∧
    0 ≤ pmem ≤ 100 ∧ 0 ≤ pdisk ≤ 100 ∧
    HostStats_String s =
      ([], Done ("Mem Free:" +:+ mem +:+ "(" +:+ itoa pmem +:+ "%), Disk Free:" +:+
                 disk +:+ "(" +:+ itoa pdisk +:+ "%), CPU Usage: " +:+
                 Sprintf_f 0 (CPUUsagePercent s) +:+ "%")).
Proof.
  unfold uint64_max. intros Hmf Hmt Hdf Hdt.
  destruct (bytesHumanize_returns (MemoryFree s)) as [mem Hmem]; [unfold uint64_max; lia|].
  destruct (bytesHumanize_returns (DiskFree s)) as [disk Hdisk]; [unfold uint64_max; lia|].
  destruct (Sprintf_f_0_le (memP s) 100) as (pmem & Hpm & Em).
  { apply percent_le_100; lia. }
  { apply percent_sign; lia. }
  destruct (Sprintf_f_0_le (diskP s) 100) as (pdisk & Hpd & Ed).
  { apply percent_le_100; lia. }
  { apply percent_sign; lia. }
  exists mem, disk, pmem, pdisk.
  split; [exact Hmem|]. split; [exact Hdisk|]. split; [exact Hpm|]. split; [exact Hpd|].
  unfold HostStats_String. rewrite Hmem, Hdisk, Em, Ed. reflexivity.
Qed.

Lemma summary_percentages_witness :
  ∃ mem disk pmem pdisk,
    bytesHumanize (MemoryFree (Host healthy_report)) = ([], Done mem) ∧
    bytesHumanize (DiskFree (Host healthy_report)) = ([], Done disk) ∧
    0 ≤ pmem ≤ 100 ∧ 0 ≤ pdisk ≤ 100 ∧
    HostStats_String (Host healthy_report) =
      ([], Done ("Mem Free:" +:+ mem +:+ "(" +:+ itoa pmem +:+ "%), Disk Free:" +:+
                 disk +:+ "(" +:+ itoa pdisk +:+ "%), CPU Usage: " +:+
                 Sprintf_f 0 (CPUUsagePercent (Host healthy_report)) +:+ "%")).
Proof. apply summary_percentages; vm_compute; split; congruence. Defined.

(** X21: division by a total of zero does not panic: for a host that
    reports no memory at all, the percentage of the summary is NaN when the
    free memory is zero too and +Inf otherwise, and is printed by these
    names; the same holds for the disk. *)
Theorem zero_total_percentage (s : HostStats) :
  (MemoryTotal s = 0 → 0 ≤ MemoryFree s ≤ uint64_max →
   memP s = (if MemoryFree s =? 0 then S754_nan else S754_infinity false) ∧
   Sprintf_f 0 (memP s) = (if MemoryFree s =? 0 then "NaN" else "+Inf")) ∧
  (DiskTotal s = 0 → 0 ≤ DiskFree s ≤ uint64_max →
   diskP s = (if DiskFree s =? 0 then S754_nan else S754_infinity false) ∧
   Sprintf_f 0 (diskP s) = (if DiskFree s =? 0 then "NaN" else "+Inf")).
Proof.
  assert (H : ∀ part, 0 ≤ part ≤ uint64_max →
            percent part 0 = (if part =? 0 then S754_nan else S754_infinity false)).
  { intros part Hp. unfold percent. rewrite float64_of_Z_0.
    destruct (Z.eqb_spec part 0) as [->|Hne]; [reflexivity|].
    destruct (float64_of_Z_value part) as (m & e & -> & _);
      [unfold uint64_max in Hp; lia|]. reflexivity. }
  unfold memP, diskP. fold (percent (MemoryFree s) (MemoryTotal s)).
  fold (percent (DiskFree s) (DiskTotal s)).
  split; intros -> Hf; rewrite (H _ Hf); destruct (_ =? 0); split; reflexivity.
Qed.

Lemma zero_total_percentage_witness :
  memP HostStats_zero = S754_nan ∧ Sprintf_f 0 (memP HostStats_zero) = "NaN".
Proof.
  apply (proj1 (zero_total_percentage HostStats_zero)); vm_compute;
    try split; congruence.
Defined.

(** X22: the summary of a report is always produced: for host counters
    that are uint64 values, whatever they are (a total of zero or a free
    amount above the total included), HostStats.String and Stats.String do
    not panic; the text is the host line, with the two amounts as
    bytesHumanize prints them, followed by the node line. *)
Theorem summary_never_panics (s : Stats) :
  in_uint64 (MemoryFree (Host s)) = true → in_uint64 (DiskFree (Host s)) = true →
  ∃ mem disk host,
    bytesHumanize (MemoryFree (Host s)) = ([], Done mem) ∧
    bytesHumanize (DiskFree (Host s)) = ([], Done disk) ∧
    HostStats_String (Host s) = ([], Done host) ∧
    host = "Mem Free:" +:+ mem +:+ "(" +:+ Sprintf_f 0 (memP (Host s)) +:+
           "%), Disk Free:" +:+ disk +:+ "(" +:+ Sprintf_f 0 (diskP (Host s)) +:+
           "%), CPU Usage: " +:+ Sprintf_f 0 (CPUUsagePercent (Host s)) +:+ "%" ∧
    Stats_String s =
      ([], Done (newline +:+ tab +:+ "Host: " +:+ host +:+ newline +:+ tab +:+
                 "Node: " +:+ Chain (Node s) +:+ " (" +:+ AppVersion (Node s) +:+
                 "), height:" +:+ itoa (Height (Node s)))).
Proof.
  unfold in_uint64. intros Hm Hd.
  apply andb_true_iff in Hm as [Hm1 Hm2]. apply andb_true_iff in Hd as [Hd1 Hd2].
  apply Z.leb_le in Hm1, Hm2, Hd1, Hd2.
  destruct (bytesHumanize_returns (MemoryFree (Host s))) as [mem Hmem]; [lia|].
  destruct (bytesHumanize_returns (DiskFree (Host s))) as [disk Hdisk]; [lia|].
  exists mem, disk. eexists. split; [exact Hmem|]. split; [exact Hdisk|].
  unfold Stats_String, HostStats_String, NodeStats_String. rewrite Hmem, Hdisk.
  run_simpl. repeat split; reflexivity.
Qed.

Lemma summary_never_panics_witness :
  ∃ mem disk host,
    bytesHumanize (MemoryFree (Host healthy_report)) = ([], Done mem) ∧
    bytesHumanize (DiskFree (Host healthy_report)) = ([], Done disk) ∧
    HostStats_String (Host healthy_report) = ([], Done host) ∧
    host = "Mem Free:" +:+ mem +:+ "(" +:+ Sprintf_f 0 (memP (Host healthy_report)) +:+
           "%), Disk Free:" +:+ disk +:+ "(" +:+
           Sprintf_f 0 (diskP (Host healthy_report)) +:+
           "%), CPU Usage: " +:+ Sprintf_f 0 (CPUUsagePercent (Host healthy_report)) +:+
           "%" ∧
    Stats_String healthy_report =
      ([], Done (newline +:+ tab +:+ "Host: " +:+ host +:+ newline +:+ tab +:+
                 "Node: " +:+ Chain (Node healthy_report) +:+ " (" +:+
                 AppVersion (Node healthy_report) +:+
                 "), height:" +:+ itoa (Height (Node healthy_report)))).
Proof. apply summary_never_panics; reflexivity. Defined.

(** ** The number that bytesHumanize prints *)

(** A quotient of floats is at most [j] when the dividend is at most [j]
    times the divisor. *)
Lemma div_le_int (mx my : positive) (ex ey j : Z) :
  1 ≤ j ≤ 1024 →
  dle (Zpos mx) ex (j * Zpos my) ey →
  le_int (f64_div (S754_finite false mx ex) (S754_finite false my ey)) j.
Proof.
  intros Hj H. unfold f64_div, SFdiv, SFdiv_core_binary. cbn [xorb].
  pose proof (dle_digits (Zpos mx) ex (j * Zpos my) ey ltac:(lia) ltac:(lia) H) as Hdig.
  assert (Hdj : Zdigits2 (j * Zpos my) ≤ Zdigits2 (Zpos my) + 11).
  { destruct (Zdigits2_bounds (Zpos my) ltac:(lia)) as [_ Hb].
    assert (Hd0 : 0 ≤ Zdigits2 (Zpos my)) by (apply Zdigits2_nonneg).
    apply Zdigits2_le; [lia|]. split; [lia|].
    rewrite Z.pow_add_r by lia. change (2 ^ 11) with 2048. nia. }
  fold (fexp64 (Zdigits2 (Zpos mx) + ex - (Zdigits2 (Zpos my) + ey))).
  set (e' := Z.min (fexp64 (Zdigits2 (Zpos mx) + ex - (Zdigits2 (Zpos my) + ey))) (ex - ey)).
  assert (He' : e' ≤ -42) by (subst e'; rewrite fexp64_eq; lia).
  assert (Hs : 0 ≤ ex - ey - e') by (subst e'; lia).
  set (m' := match ex - ey - e' with
             | 0 => Zpos mx
             | Zpos _ => Z.shiftl (Zpos mx) (ex - ey - e')
             | Zneg _ => 0
             end).
  assert (Hm' : m' = Zpos mx * 2 ^ (ex - ey - e')).
  { subst m'. destruct (ex - ey - e') as [|s|s] eqn:E; [cbn; lia| |lia].
    rewrite Z.shiftl_mul_pow2 by lia. reflexivity. }
  pose proof (dle_at _ _ _ _ (ey + e') H ltac:(lia) ltac:(lia)) as Hc.
  replace (ex - (ey + e')) with (ex - ey - e') in Hc by lia.
  replace (ey - (ey + e')) with (- e') in Hc by lia.
  rewrite <- Hm' in Hc.
  assert (Hpe := pow2_pos (- e') ltac:(lia)).
  assert (Hm'0 : 0 ≤ m') by (rewrite Hm'; pose proof (pow2_pos _ Hs); lia).
  pose proof (Z_div_mod m' (Zpos my) ltac:(lia)) as Hdm.
  destruct (Z.div_eucl m' (Zpos my)) as [q r].
  destruct Hdm as [Hdm Hr].
  assert (Hq : 0 ≤ q ≤ j * 2 ^ (- e')) by nia.
  apply round_aux_le_int.
  - lia.
  - lia.
  - rewrite fexp64_eq.
    assert (Zdigits2 q ≤ - e' + 11); [|lia].
    apply Zdigits2_le; [lia|]. split; [lia|]. rewrite Z.pow_add_r by lia.
    change (2 ^ 11) with 2048. nia.
  - cbn; lia.
  - lia.
  - intros Hl. destruct (Z.eq_dec q (j * 2 ^ (- e'))) as [Heq|Hne]; [|lia].
    exfalso. apply Hl.
    assert (r = 0) by nia. subst r. apply new_location_zero.
Qed.

Lemma dle_concrete (m e j t : Z) :
  (m * 2 ^ (e - Z.min e t) <=? j * 2 ^ (t - Z.min e t)) = true → dle m e j t.
Proof.
  intros H. exists (Z.min e t). split; [lia|]. split; [lia|]. apply Z.leb_le, H.
Qed.

(** The quotient that bytesHumanize prints is at most 1000. *)
Lemma quotient_le_1000 (b k : Z) :
  0 ≤ k ≤ 5 → 1000 ^ (k + 1) ≤ b < 1000 ^ (k + 2) → b ≤ uint64_max →
  le_int (f64_div (float64_of_Z b) (float64_of_Z (1000 ^ (k + 1)))) 1000.
Proof.
  intros Hk Hb Hmax.
  assert (Hu : uint64_max = 18446744073709551615) by reflexivity.
  set (B := Z.min (1000 ^ (k + 2)) uint64_max).
  assert (Hcases : k = 0 ∨ k = 1 ∨ k = 2 ∨ k = 3 ∨ k = 4 ∨ k = 5) by lia.
  assert (HB : ∃ md ed mB eB,
            float64_of_Z (1000 ^ (k + 1)) = S754_finite false md ed ∧
            float64_of_Z B = S754_finite false mB eB ∧
            dle (Zpos mB) eB (1000 * Zpos md) ed ∧ b ≤ B < 2 ^ 64 ∧ 0 < b).
  { subst B.
    destruct Hcases as [->|[->|[->|[->|[->| ->] ] ] ] ]; eexists _, _, _, _;
      (split; [vm_compute; reflexivity|]); (split; [vm_compute; reflexivity|]);
      (split; [apply dle_concrete; vm_compute; reflexivity|]);
      cbn in Hb |- *; rewrite Hu in *; lia. }
  destruct HB as (md & ed & mB & eB & -> & EB & Hd & HbB & Hb0).
  destruct (float64_of_Z_mono b B ltac:(lia) ltac:(lia))
    as (mx & ex & my & ey & -> & EB' & Hxy).
  rewrite EB in EB'. injection EB' as <- <-.
  apply div_le_int; [lia|].
  eapply dle_trans; eassumption.
Qed.

Lemma pad_left_digit (d : Z) : 0 ≤ d ≤ 9 → pad_left 1 (itoa d) = itoa d.
Proof.
  intros Hd.
  assert (H : d = 0 ∨ d = 1 ∨ d = 2 ∨ d = 3 ∨ d = 4 ∨ d = 5 ∨ d = 6 ∨ d = 7 ∨
              d = 8 ∨ d = 9) by lia.
  repeat destruct H as [->|H]; try subst d; reflexivity.
Qed.

(** What %.1f prints for a float of [0, j]: the tenths [u] of a number of
    [0, j], as integer part, point and one digit. *)
Lemma Sprintf_f_1_le (f : float64) (j : Z) :
  le_int f j → f ≠ S754_zero true →
  ∃ u, 0 ≤ u ≤ 10 * j ∧ Sprintf_f 1 f = itoa (u / 10) +:+ "." +:+ itoa (u mod 10).
Proof.
  assert (Hfmt : ∀ u, 0 ≤ u →
            fmt_fixed 1 false u = itoa (u / 10) +:+ "." +:+ itoa (u mod 10)).
  { intros u Hu. unfold fmt_fixed. change (10 ^ Z.of_nat 1) with 10.
    rewrite pad_left_digit by (pose proof (Z.mod_pos_bound u 10); lia). reflexivity. }
  destruct f as [[]|[]| |[] m e]; cbn [le_int]; try contradiction.
  - intros Hj _. exists 0. split; [lia|]. reflexivity.
  - intros (c & Hce & Hc0 & Hle) _.
    unfold Sprintf_f, fixed_units. change (10 ^ Z.of_nat 1) with 10.
    assert (Hpc := pow2_pos (e - c) ltac:(lia)).
    assert (Hp0 := pow2_pos (0 - c) ltac:(lia)).
    destruct (0 <=? e) eqn:He; [apply Z.leb_le in He|apply Z.leb_gt in He].
    + assert (Hpe := pow2_pos e He).
      assert (Hv : Zpos m * 2 ^ e ≤ j).
      { replace (e - c) with (e + (0 - c)) in Hle by lia.
        rewrite Z.pow_add_r in Hle by lia. nia. }
      exists (Zpos m * 2 ^ e * 10). split; [nia|]. apply Hfmt. nia.
    + assert (Hpe := pow2_pos (- e) ltac:(lia)).
      destruct (div_half_even_bounds (Zpos m * 10) (2 ^ (- e)) ltac:(lia) Hpe) as [Hb Hx].
      assert (Hm : Zpos m ≤ j * 2 ^ (- e)).
      { pose proof (dle_at _ _ _ _ e (ex_intro _ c (conj Hce (conj Hc0 Hle)))
          ltac:(lia) ltac:(lia)) as H0.
        rewrite Z.sub_diag in H0. replace (0 - e) with (- e) in H0 by lia.
        cbn in H0. lia. }
      pose proof (Z.div_mod (Zpos m * 10) (2 ^ (- e)) ltac:(lia)) as Hdm.
      pose proof (Z.mod_pos_bound (Zpos m * 10) (2 ^ (- e)) Hpe) as Hmod.
      assert (H0 : 0 ≤ Zpos m * 10 / 2 ^ (- e)) by (apply Z.div_pos; lia).
      exists (div_half_even (Zpos m * 10) (2 ^ (- e))).
      split; [|apply Hfmt; lia]. split; [lia|].
      destruct (Z.eq_dec ((Zpos m * 10) mod 2 ^ (- e)) 0) as [Hz|Hne].
      * rewrite (Hx Hz). apply Z.div_le_upper_bound; [lia|]. nia.
      * assert (Zpos m * 10 / 2 ^ (- e) < 10 * j); [|lia].
        apply Z.div_lt_upper_bound; [lia|].
        assert (Zpos m * 10 ≠ 10 * j * 2 ^ (- e))
          by (intros Heq; apply Hne; rewrite Heq; apply Z.mod_mul; lia).
        nia.
Qed.

(** X23: from 1000 on, bytesHumanize prints a number of at most 1000 with
    one digit after the point (1000.0 can be reached, since the quotient is
    rounded to one decimal after the unit was chosen), then a space, a
    letter of kMGTPE and B. *)
Theorem bytesHumanize_digits (b : Z) :
  1000 ≤ b ≤ uint64_max →
  ∃ u c, 0 ≤ u ≤ 10000 ∧
    bytesHumanize b =
      ([], Done ((itoa (u / 10) +:+ "." +:+ itoa (u mod 10)) +:+ " " +:+ String c "B")).
Proof.
  intros Hb.
  destruct (bytesHumanize_large b Hb) as (k & c & Hk & Hr & _ & ->).
  destruct (Sprintf_f_1_le
    (f64_div (float64_of_Z b) (float64_of_Z (1000 ^ (k + 1)))) 1000) as (u & Hu & ->).
  - apply quotient_le_1000; lia.
  - pose proof (pow1000_pos (k + 1) ltac:(lia)) as Hp.
    assert (H64 : uint64_max < 2 ^ 64) by reflexivity.
    destruct (float64_of_Z_value b ltac:(lia)) as (mx & ex & -> & _).
    destruct (float64_of_Z_value (1000 ^ (k + 1)) ltac:(lia)) as (my & ey & -> & _).
    destruct (f64_div_finish mx my ex ey) as (m & e & ->). apply finish_sign.
  - exists u, c. split; [lia|reflexivity].
Qed.

Lemma bytesHumanize_digits_witness :
  ∃ u c, 0 ≤ u ≤ 10000 ∧
    bytesHumanize 999999 =
      ([], Done ((itoa (u / 10) +:+ "." +:+ itoa (u mod 10)) +:+ " " +:+ String c "B")).
Proof. apply bytesHumanize_digits. vm_compute. split; congruence. Defined.

(** * Numerals *)

Lemma uint_value_mono (d : Decimal.uint) (acc : Z) : 0 ≤ acc → acc ≤ uint_value d acc.
Proof.
  revert acc; induction d as [|d IH|d IH|d IH|d IH|d IH|d IH|d IH|d IH|d IH|d IH];
    intros acc H; cbn [uint_value]; [lia|..];
    (etransitivity; [|apply IH]; lia).
Qed.

Lemma uint_value_of_uint_acc (d : Decimal.uint) (acc : positive) :
  Zpos (Pos.of_uint_acc d acc) = uint_value d (Zpos acc).
Proof.
  revert acc; induction d as [|d IH|d IH|d IH|d IH|d IH|d IH|d IH|d IH|d IH|d IH];
    intros acc; cbn [uint_value Pos.of_uint_acc]; [reflexivity|..];
    rewrite IH; f_equal; lia.
Qed.

Lemma uint_value_of_uint (d : Decimal.uint) : Z.of_N (Pos.of_uint d) = uint_value d 0.
Proof.
  induction d as [|d IH|d IH|d IH|d IH|d IH|d IH|d IH|d IH|d IH|d IH];
    cbn [uint_value Pos.of_uint]; [reflexivity|exact IH|..];
    cbn [Z.of_N]; rewrite uint_value_of_uint_acc; reflexivity.
Qed.

Lemma uint_value_to_uint (p : positive) : uint_value (Pos.to_uint p) 0 = Zpos p.
Proof.
  rewrite <- uint_value_of_uint, DecimalPos.Unsigned.of_to. reflexivity.
Qed.

(** The digit loop reads a numeral to its value, or reports that the
    value is beyond uint64. *)
Lemma ParseUint_loop_numeral (d : Decimal.uint) (n : Z) :
  0 ≤ n ≤ uint64_max →
  ParseUint_loop (NilEmpty.string_of_uint d) n =
    if uint_value d n <=? uint64_max then inl (uint_value d n) else inr ErrRange.
Proof.
  revert n; induction d as [|d IH|d IH|d IH|d IH|d IH|d IH|d IH|d IH|d IH|d IH];
    intros n Hn; cbn [NilEmpty.string_of_uint ParseUint_loop uint_value].
  { replace (n <=? uint64_max) with true by (symmetry; apply Z.leb_le; lia).
    reflexivity. }
  all: match goal with |- context [digit_of ?c] =>
         let v := eval vm_compute in (digit_of c) in
         change (digit_of c) with v end.
  all: cbv iota beta.
  all: match goal with |- context [uint_value ?d ?a] =>
         pose proof (uint_value_mono d a ltac:(lia)) as Hmono end.
  all: assert (Hq : uint64_max / 10 + 1 = 1844674407370955162) by reflexivity;
       rewrite Hq; clear Hq.
  all: assert (Hmax : uint64_max = 18446744073709551615) by reflexivity.
  all: destruct (1844674407370955162 <=? n) eqn:E1;
       [apply Z.leb_le in E1|apply Z.leb_gt in E1].
  all: try (symmetry; match goal with |- context [uint_value ?d ?a] =>
         destruct (Z.leb_spec (uint_value d a) uint64_max); [lia|reflexivity] end).
  all: match goal with |- context [uint64_max <? ?a] =>
         destruct (Z.ltb_spec uint64_max a) as [E2|E2] end.
  all: try (symmetry; match goal with |- context [uint_value ?d ?a] =>
         destruct (Z.leb_spec (uint_value d a) uint64_max); [lia|reflexivity] end).
  all: rewrite IH by lia.
  all: match goal with
       | |- (if uint_value ?d ?a <=? _ then _ else _) =
            (if uint_value ?d ?b <=? _ then _ else _) =>
           replace a with b by lia; reflexivity
       end.
Qed.

Lemma numeral_head (p : positive) :
  ∃ c s, NilEmpty.string_of_uint (Pos.to_uint p) = String c s ∧
         Ascii.eqb c "+" = false ∧ Ascii.eqb c "-" = false.
Proof.
  pose proof (DecimalPos.Unsigned.to_uint_nonnil p) as Hn.
  destruct (Pos.to_uint p); [destruct (Hn eq_refl)|..];
    cbn [NilEmpty.string_of_uint]; eexists _, _; repeat split; reflexivity.
Qed.

Lemma ParseUint_numeral (p : positive) :
  ParseUint (NilEmpty.string_of_uint (Pos.to_uint p)) =
    if Zpos p <=? uint64_max then inl (Zpos p) else inr ErrRange.
Proof.
  destruct (numeral_head p) as (c & s & Es & _).
  unfold ParseUint. rewrite Es, <- Es.
  rewrite ParseUint_loop_numeral by (unfold uint64_max; lia).
  rewrite uint_value_to_uint. reflexivity.
Qed.

Lemma itoa_pos (p : positive) : itoa (Zpos p) = NilEmpty.string_of_uint (Pos.to_uint p).
Proof.
  unfold itoa. cbn [Z.to_int NilZero.string_of_int]. unfold NilZero.string_of_uint.
  pose proof (DecimalPos.Unsigned.to_uint_nonnil p) as Hn.
  destruct (Pos.to_uint p); [destruct (Hn eq_refl)|..]; reflexivity.
Qed.

Lemma itoa_neg (p : positive) :
  itoa (Zneg p) = String "-" (NilEmpty.string_of_uint (Pos.to_uint p)).
Proof.
  unfold itoa. cbn [Z.to_int NilZero.string_of_int]. unfold NilZero.string_of_uint.
  pose proof (DecimalPos.Unsigned.to_uint_nonnil p) as Hn.
  destruct (Pos.to_uint p); [destruct (Hn eq_refl)|..]; reflexivity.
Qed.

(** [ParseInt] reads the numeral of an int64 back to it, and reports a
    numeral beyond int64 as out of range. *)
Lemma ParseInt_itoa (z : Z) :
  ParseInt (itoa z) = if in_int64 z then (z, None) else out_of_range (itoa z) z.
Proof.
  assert (Hmax : uint64_max = 18446744073709551615) by reflexivity.
  assert (Hc : 2 ^ 63 = 9223372036854775808) by reflexivity.
  unfold in_int64, out_of_range, int64_min, int64_max. rewrite Hc. change (Z.opp 9223372036854775808) with (Zneg 9223372036854775808).
  destruct z as [|p|p].
  - reflexivity.
  - rewrite itoa_pos. destruct (numeral_head p) as (c & s & Es & Hplus & Hminus).
    unfold ParseInt. rewrite Es, Hplus, Hminus. cbn [orb negb andb]. rewrite <- Es.
    rewrite ParseUint_numeral, Hc, Hmax.
    destruct (Z.leb_spec (Zpos p) 18446744073709551615);
      destruct (Z.leb_spec 9223372036854775808 (Zpos p));
      destruct (Z.leb_spec (-9223372036854775808) (Zpos p));
      destruct (Z.leb_spec (Zpos p) (9223372036854775808 - 1));
      try lia; cbn [andb]; try reflexivity.
    all: destruct (Z.leb_spec 9223372036854775808 18446744073709551615); try lia;
         reflexivity.
  - rewrite itoa_neg.
    unfold ParseInt. cbn [Ascii.eqb Bool.eqb orb negb andb].
    rewrite ParseUint_numeral, Hc, Hmax. change (Z.opp 9223372036854775808) with (Zneg 9223372036854775808).
    destruct (Z.leb_spec (Zpos p) 18446744073709551615);
      destruct (Z.ltb_spec 9223372036854775808 (Zpos p));
      destruct (Z.leb_spec (-9223372036854775808) (Zneg p));
      destruct (Z.leb_spec (Zneg p) (9223372036854775808 - 1));
      try lia; cbn [andb]; try reflexivity.
    all: destruct (Z.ltb_spec 9223372036854775808 18446744073709551615); try lia;
         reflexivity.
Qed.

(** X24: the height of a record that was read without error is the number
    whose decimal numeral the node reported, and that number is an int64:
    strconv.ParseInt reads a numeral back to the integer it was written
    for, and refuses one beyond the range of int64. *)
Theorem height_of_numeral (w : World) (s : NodeStats) (z : Z) :
  outcome (collectNodeStats w) = Done (s, None) →
  at_path ["result"; "sync_info"; "latest_block_height"]
    (VMap (reply_map w status_request)) = VString (itoa z) →
  Height s = z ∧ int64_min ≤ z ≤ int64_max.
Proof.
  intros Hs Hh.
  destruct (read_off_replies_run w s Hs)
    as (_ & _ & _ & _ & _ & (h & Hh' & Hp) & _).
  rewrite Hh in Hh'. injection Hh' as <-.
  rewrite ParseInt_itoa in Hp. unfold in_int64 in Hp.
  destruct (Z.leb_spec int64_min z); destruct (Z.leb_spec z int64_max);
    cbn [andb] in Hp; try discriminate Hp.
  injection Hp as <-. lia.
Qed.

Lemma height_of_numeral_witness :
  Height (Node healthy_report) = 1000000 ∧ int64_min ≤ 1000000 ≤ int64_max.
Proof.
  apply (height_of_numeral healthy_world); vm_compute; reflexivity.
Defined.


(** * Strings of a report *)

Lemma nth_byte_coerce (k : nat) (s : string) (i : nat) :
  (i < k)%nat → nth_byte (coerce_from k s) i = nth_byte s i.
Proof.
  revert s i; induction k as [|k IH]; intros s i Hi; [lia|].
  destruct s as [|c s]; [reflexivity|]. cbn [coerce_from].
  destruct i as [|i]; [reflexivity|]. cbn [nth_byte String.get].
  apply IH. lia.
Qed.

(** The size of an encoding depends on the bytes of the encoding only. *)
Lemma rune_size_ext (c : ascii) (r s : string) (n : nat) :
  rune_size c s = Some n →
  (∀ i, (i < Nat.pred n)%nat → nth_byte r i = nth_byte s i) →
  rune_size c r = Some n.
Proof.
  unfold rune_size. cbv zeta. intros Hs Hr.
  repeat match type of Hs with
  | (if ?b then _ else _) = _ => destruct b eqn:?; try discriminate Hs
  end.
  all: try exact Hs.
  all: injection Hs as <-; cbn [Nat.pred] in Hr.
  all: repeat match goal with
       | H : context [nth_byte _ ?i] |- _ =>
           rewrite <- (Hr i) in H by lia
       end.
  all: repeat match goal with
       | H : _ = true |- _ => rewrite H; clear H
       | H : _ = false |- _ => rewrite H; clear H
       end; reflexivity.
Qed.

Lemma rune_size_replacement (rest : string) :
  rune_size (ascii_of_N 0xEF)
    (String (ascii_of_N 0xBF) (String (ascii_of_N 0xBD) rest)) = Some 3%nat.
Proof. reflexivity. Qed.

(** What the encoder writes for a string is valid UTF-8. *)
Lemma coerce_from_valid (s : string) (k : nat) :
  valid_from k (coerce_from k s) = true.
Proof.
  revert k; induction s as [|c s IH]; intros k; [reflexivity|].
  destruct k as [|k]; cbn [coerce_from]; [|cbn [valid_from]; apply IH].
  destruct (rune_size c s) as [n|] eqn:E.
  - cbn [valid_from].
    rewrite (rune_size_ext c (coerce_from (Nat.pred n) s) s n E)
      by (intros i Hi; apply nth_byte_coerce; exact Hi).
    apply IH.
  - unfold replacement.
    change (valid_from 0 (String (ascii_of_N 0xEF) (String (ascii_of_N 0xBF)
              (String (ascii_of_N 0xBD) (coerce_from 0 s)))) = true).
    cbn [valid_from]. rewrite rune_size_replacement. cbn [valid_from Nat.pred].
    apply IH.
Qed.

Lemma toValidUTF8_is_valid (s : string) : utf8_ValidString (toValidUTF8 s) = true.
Proof. apply coerce_from_valid. Qed.

Lemma Marshal_strings_valid (l : option (list string)) :
  valid_document (Marshal_strings l) = true.
Proof.
  destruct l as [l|]; [|reflexivity]. cbn [Marshal_strings valid_document].
  induction l as [|x l IH]; [reflexivity|]. cbn [fmap list_fmap forallb].
  unfold Marshal_string at 1. cbn [valid_document].
  rewrite toValidUTF8_is_valid. exact IH.
Qed.

(** X25: whatever bytes the node and the operating system supplied in the
    strings of a report, every string of the JSON document that sendStats
    posts is valid UTF-8, and so is the address that queryNode and
    queryBalance post. *)
Theorem report_document_is_valid_utf8 :
  (∀ s data, Marshal s = inl data → valid_document data = true) ∧
  (∀ addr, valid_document (Marshal_address addr) = true).
Proof.
  split.
  - intros s data. unfold Marshal, Marshal_NodeStats, Marshal_HostStats, Marshal_float64.
    destruct (is_finite64 (Balance (Node s))); [|discriminate].
    destruct (is_finite64 (CPUUsagePercent (Host s))); [|discriminate].
    intros [= <-]. unfold Marshal_string, Marshal_int. cbn [valid_document].
    rewrite !toValidUTF8_is_valid, Marshal_strings_valid. reflexivity.
  - intros addr. unfold Marshal_address. cbn [valid_document].
    rewrite toValidUTF8_is_valid. reflexivity.
Qed.

Lemma report_document_is_valid_utf8_witness :
  valid_document
    match Marshal report_invalid_utf8 with inl data => data | inr _ => JNull end = true.
Proof.
  refine (proj1 report_document_is_valid_utf8 report_invalid_utf8 _ _).
  vm_compute. reflexivity.
Defined.

(** * The timestamp *)

Lemma length_append (s t : string) :
  String.length (s +:+ t) = (String.length s + String.length t)%nat.
Proof.
  induction s as [|c s IH]; [reflexivity|].
  change (S (String.length (s +:+ t)) = S (String.length s + String.length t)).
  now rewrite IH.
Qed.

Lemma appendInt_width (width : nat) (bound : Z) :
  forallb (λ n, Nat.eqb (String.length (appendInt (Z.of_nat n) width)) width)
          (seq 0 (Z.to_nat bound)) = true →
  ∀ x, 0 ≤ x < bound → String.length (appendInt x width) = width.
Proof.
  intros Hall x Hx. rewrite forallb_forall in Hall.
  specialize (Hall (Z.to_nat x)). rewrite Z2Nat.id in Hall by lia.
  apply Nat.eqb_eq, Hall, in_seq. lia.
Qed.

Lemma appendInt_2 (x : Z) : 0 ≤ x < 100 → String.length (appendInt x 2) = 2%nat.
Proof. apply (appendInt_width 2 100). vm_compute. reflexivity. Qed.

Lemma appendInt_4 (x : Z) : 0 ≤ x < 10000 → String.length (appendInt x 4) = 4%nat.
Proof. apply (appendInt_width 4 10000). vm_compute. reflexivity. Qed.

Lemma format_zone_length (offset : Z) :
  -86400 < offset < 86400 →
  String.length (format_zone offset) = if offset =? 0 then 1%nat else 6%nat.
Proof.
  intros Ho. unfold format_zone. destruct (offset =? 0); [reflexivity|].
  set (zone := Z.abs (Z.quot offset 60)).
  assert (Hz : 0 ≤ zone < 1440).
  { subst zone. rewrite <- Z.quot_abs by lia. change (Z.abs 60) with 60.
    rewrite Z.quot_div_nonneg by lia.
    split; [apply Z.div_pos; lia|apply Z.div_lt_upper_bound; lia]. }
  rewrite !length_append.
  rewrite (appendInt_2 (Z.quot zone 60)), (appendInt_2 (Z.rem zone 60)).
  - destruct (_ <? 0); reflexivity.
  - rewrite Z.rem_mod_nonneg by lia. pose proof (Z.mod_pos_bound zone 60). lia.
  - rewrite Z.quot_div_nonneg by lia.
    split; [apply Z.div_pos; lia|apply Z.div_lt_upper_bound; lia].
Qed.

Lemma Format_RFC3339_length (t : Time) :
  calendar_time t = true →
  String.length (Format_RFC3339 t) = if t_offset t =? 0 then 20%nat else 25%nat.
Proof.
  unfold calendar_time. intros H.
  repeat match goal with
  | H : _ && _ = true |- _ => apply andb_true_iff in H as [H ?]
  end.
  repeat match goal with
  | H : (_ <=? _) = true |- _ => apply Z.leb_le in H
  | H : (_ <? _) = true |- _ => apply Z.ltb_lt in H
  end.
  unfold Format_RFC3339. rewrite !length_append.
  rewrite appendInt_4, !appendInt_2, format_zone_length by lia.
  destruct (t_offset t =? 0); reflexivity.
Qed.

(** X26: whatever collectStats returns, the timestamp of the report has a
    fixed width when the clock reading has a year of four digits: 20 bytes
    for a clock in UTC (the zone is the letter Z), 25 bytes otherwise (the
    zone is a sign, two digits, a colon and two digits). *)
Theorem timestamp_width (w : World) (s : Stats) (err : option error) :
  outcome (collectStats w) = Done (s, err) →
  calendar_time (w_Now w) = true →
  Timestamp s = Format_RFC3339 (w_Now w) ∧
  String.length (Timestamp s) = if t_offset (w_Now w) =? 0 then 20%nat else 25%nat.
Proof.
  intros Hs Hc.
  assert (Ht : Timestamp s = Format_RFC3339 (w_Now w)).
  { revert Hs. unfold collectStats. run_simpl.
    destruct (collectHostStats w) as [th [[hs [eh|]]|ph]]; run_simpl;
      [intros [= <- <-]; reflexivity| |discriminate].
    destruct (collectNodeStats w) as [tn [[ns [en|]]|pn]]; run_simpl;
      [intros [= <- <-]; reflexivity|intros [= <- <-]; reflexivity|discriminate]. }
  split; [exact Ht|]. rewrite Ht. apply Format_RFC3339_length. exact Hc.
Qed.

Lemma timestamp_width_witness :
  Timestamp healthy_report = Format_RFC3339 (w_Now healthy_world) ∧
  String.length (Timestamp healthy_report) = 20%nat.
Proof.
  apply (timestamp_width healthy_world healthy_report None); vm_compute; reflexivity.
Defined.
